(** * A shallow embedding of the Hedera BDD step definitions

    The development embeds the two step-definition files of the repository:

    - [features/step_definitions/create-simple-topic.ts] (topics, balance
      cache, message publisher, subscription matcher), module [Topic];
    - the token step definitions (token creation, minting, transfers),
      module [Token].

    The ledger network and its SDK are external collaborators; they are
    represented by the interface [Sdk], over an abstract network state.  JS
    [async] functions are state-and-exception computations over the module
    state; the places where several promises are in flight at once
    ([Promise.all], subscription callbacks, timers) are given an explicit
    event semantics. *)

From Stdlib Require Import ZArith QArith Qcanon Lia.
From stdpp Require Import base numbers gmap strings list pretty.

Set Warnings "-register-all".

Open Scope Z_scope.

(** ** JavaScript values *)

(** A JS [number] is an IEEE 754 double; a finite double is a rational, and
    the amounts of the steps are kept as the rationals they denote.
    Timestamps ([Date.now()], milliseconds) and status codes are integers. *)
Abbreviation number := Qc.

Definition Number_of_Z (z : Z) : number := Q2Qc (inject_Z z).

Definition gt (a b : number) : bool := bool_decide (b < a)%Qc.

(** The integer nearest to [n / d], the even one of two that are equally
    near ([0 ≤ n], [0 < d]). *)
Definition round_half_even (n d : Z) : Z :=
  let m := n / d in
  let r := n mod d in
  if 2 * r <? d then m
  else if 2 * r =? d then (if Z.even m then m else m + 1)
  else m + 1.

(** [n / d] over [2 ^ e], as a fraction of integers. *)
Definition scaled (n d e : Z) : Z * Z :=
  if 0 <=? e then (n, d * 2 ^ e) else (n * 2 ^ (- e), d).

(** The double nearest to [n / d] ([0 < n], [0 < d]): a significand of 53
    bits, rounded to nearest, ties to even, times a power of two that is at
    least [2 ^ -1074].  [2 ^ 1024] and more, where a double is [Infinity], is
    not reached: what is rounded here is a 64-bit integer or the sum of a
    double and 100. *)
Definition to_double_pos (n d : Z) : Q :=
  let e0 := Z.log2 n - Z.log2 d - 52 in
  let e := if (scaled n d e0).1 / (scaled n d e0).2 <? 2 ^ 52
           then e0 - 1 else e0 in
  let e := Z.max e (- 1074) in
  let m := round_half_even (scaled n d e).1 (scaled n d e).2 in
  if 0 <=? e then inject_Z (m * 2 ^ e) else Qmake m (Z.to_pos (2 ^ (- e))).

Definition to_double (q : Qc) : number :=
  match (Qnum q ?= 0)%Z with
  | Eq => Q2Qc 0
  | Gt => Q2Qc (to_double_pos (Qnum q) (Zpos (Qden q)))
  | Lt => Q2Qc (- to_double_pos (- Qnum q) (Zpos (Qden q)))
  end.

(** [Number(long)] on a 64-bit integer of the SDK, and [a + b] on
    numbers. *)
Definition Number_of_Long (z : Z) : number := to_double (Number_of_Z z).

Definition number_add (a b : number) : number := to_double (a + b)%Qc.

Definition dquote : string := String (Ascii.ascii_of_nat 34) EmptyString.

(** What a [throw] can carry. *)
Inductive error : Type :=
  | ReceiptStatusError (status_code : Z)
  | AssertionError (message : string)
  | TypeError (message : string)
  | Error (message : string)
  | ThrownValue (description : string).

Global Instance error_eq_dec : EqDecision error.
Proof. solve_decision. Defined.

Inductive result (A : Type) : Type :=
  | Return (a : A)
  | Throw (e : error).
Arguments Return {A} a.
Arguments Throw {A} e.

(** An [async] function body running to completion over a state [S]: a
    thrown exception keeps the state changes made before it. *)
Definition Async (S A : Type) : Type := S → result A * S.

Definition ret {S A} (a : A) : Async S A := λ s, (Return a, s).
Definition throw {S A} (e : error) : Async S A := λ s, (Throw e, s).
Definition bind {S A B} (c : Async S A) (k : A → Async S B) : Async S B :=
  λ s, match c s with
       | (Return a, s') => k a s'
       | (Throw e, s') => (Throw e, s')
       end.
Definition try_catch {S A} (c : Async S A) (h : error → Async S A) : Async S A :=
  λ s, match c s with
       | (Return a, s') => (Return a, s')
       | (Throw e, s') => h e s'
       end.
Definition gets {S A} (f : S → A) : Async S A := λ s, (Return (f s), s).
Definition modify {S} (f : S → S) : Async S unit := λ s, (Return tt, f s).

Notation "x <- c ;; k" := (bind c (λ x, k))
  (at level 100, c at next level, right associativity).
Notation "c ;;; k" := (bind c (λ _, k))
  (at level 100, right associativity).

(** ** The SDK types the steps use *)

Record Account := { id : string; privateKey : string }.

Global Instance Account_eq_dec : EqDecision Account.
Proof. solve_decision. Defined.

(** [AccountId], [TopicId] and [TokenId] are opaque identifiers; they are
    kept in their string form ([fromString] and [toString] are inverse). *)
Abbreviation AccountId := string.
Abbreviation TopicId := string.
Abbreviation TokenId := string.

Inductive Key : Type :=
  | PrivateKey (material : string)
  | PublicKey (of_private : string)
  | KeyList (keys : list Key) (threshold : Z).

Definition publicKey (priv : string) : Key := PublicKey priv.

Record Operator := { operatorAccountId : AccountId; operatorKey : string }.

Inductive TransactionBody : Type :=
  | AccountCreateTransaction (key : Key) (initialBalance : number)
  | TopicCreateTransaction (adminKey : option Key) (memo : string)
      (submitKey : option Key)
  | TopicMessageSubmitTransaction (topicId : TopicId) (message : string)
  | TopicDeleteTransaction (topicId : TopicId)
  | TokenMintTransaction (tokenId : TokenId) (amount : number).

Record Transaction := {
  body : TransactionBody;
  frozen : bool;
  signatures : list string
}.

(** Building, freezing and signing are local to the client; they are taken
    not to throw. *)
Definition build (b : TransactionBody) : Transaction :=
  {| body := b; frozen := false; signatures := [] |}.
Definition freezeWith (t : Transaction) : Transaction :=
  {| body := body t; frozen := true; signatures := signatures t |}.
Definition sign (priv : string) (t : Transaction) : Transaction :=
  {| body := body t; frozen := frozen t; signatures := signatures t ++ [priv] |}.

Record TransactionResponse := { transactionId : Z }.

Record TransactionReceipt := {
  status : Z;
  receipt_accountId : option AccountId;
  receipt_topicId : option TopicId
}.

Record AccountBalance := {
  hbars : number;
  result_tokens : option (gmap string Z)
}.

(** The remote ledger as the steps consume it.  [Net] is the state of the
    network together with the wall clock; every call may change it. *)
Class Sdk (Net : Type) := {
  Date_now : Net → Z;
  generateED25519 : Net → string * Net;
  AccountBalanceQuery_execute : AccountId → Net → result AccountBalance * Net;
  Transaction_execute :
    option Operator → Transaction → Net → result TransactionResponse * Net;
  getReceipt : TransactionResponse → Net → result TransactionReceipt * Net
}.

(** Ghost record of the calls made to the network and what they answered. *)
Inductive SdkCall : Type :=
  | CallBalance (accountId : AccountId) (r : result AccountBalance)
  | CallExecute (tx : Transaction) (r : result TransactionResponse)
  | CallReceipt (tx : Transaction) (resp : TransactionResponse)
      (r : result TransactionReceipt).

Inductive LogEntry : Type :=
  | console_log (text : string)
  | console_error (text : string) (e : error).

(** The accounts and topics the network reports as created, in order: the
    identifiers carried by the receipts of the creating transactions. *)
Definition created_account (c : SdkCall) : option AccountId :=
  match c with
  | CallReceipt tx _ (Return rc) =>
      match body tx with
      | AccountCreateTransaction _ _ => receipt_accountId rc
      | _ => None
      end
  | _ => None
  end.
Definition created_topic (c : SdkCall) : option TopicId :=
  match c with
  | CallReceipt tx _ (Return rc) =>
      match body tx with
      | TopicCreateTransaction _ _ _ => receipt_topicId rc
      | _ => None
      end
  | _ => None
  end.
Definition created_accounts (cs : list SdkCall) : list AccountId :=
  omap created_account cs.
Definition created_topics (cs : list SdkCall) : list TopicId :=
  omap created_topic cs.

(** ** Module state of the two step-definition files *)

(** [context] of create-simple-topic.ts.  The resource arrays are typed
    [TopicId[]] and [AccountId[]], but what is pushed is [receipt.topicId!]
    and [receipt.accountId!]: the non-null assertion is erased at run time,
    so an element can be [null]. *)
Record CreatedResources := {
  topics : list (option TopicId);
  accounts : list (option AccountId)
}.

Record TestContext := {
  topicId : option TopicId;
  thresholdKey : option Key;
  firstAccount : option Account;
  secondAccount : option Account;
  createdResources : CreatedResources
}.

Record CacheEntry := { balance : number; timestamp : Z }.

(** The module-level [let] variables of the token steps, at their declared
    types. *)
Record TokenVars := {
  token_firstAccount : Account;
  token_secondAccount : Account;
  token_tokenId : TokenId;
  token_tokenSupply : number
}.

Record World (Net : Type) := {
  net : Net;
  calls : list SdkCall;
  console : list LogEntry;
  (* create-simple-topic.ts *)
  client : option Operator;
  context : TestContext;
  balanceCache : gmap string CacheEntry;
  (* token steps *)
  token_client : option Operator;
  token_vars : TokenVars
}.
Arguments net {Net} w.
Arguments calls {Net} w.
Arguments console {Net} w.
Arguments client {Net} w.
Arguments context {Net} w.
Arguments balanceCache {Net} w.
Arguments token_client {Net} w.
Arguments token_vars {Net} w.

Section Setters.
Context {Net : Type}.
Implicit Type w : World Net.

Definition set_net (n : Net) w : World Net :=
  {| net := n; calls := calls w; console := console w; client := client w;
     context := context w; balanceCache := balanceCache w;
     token_client := token_client w; token_vars := token_vars w |}.
Definition record_call (c : SdkCall) w : World Net :=
  {| net := net w; calls := calls w ++ [c]; console := console w;
     client := client w; context := context w;
     balanceCache := balanceCache w;
     token_client := token_client w; token_vars := token_vars w |}.
Definition record_log (l : LogEntry) w : World Net :=
  {| net := net w; calls := calls w; console := console w ++ [l];
     client := client w; context := context w;
     balanceCache := balanceCache w;
     token_client := token_client w; token_vars := token_vars w |}.
Definition set_client (o : option Operator) w : World Net :=
  {| net := net w; calls := calls w; console := console w; client := o;
     context := context w; balanceCache := balanceCache w;
     token_client := token_client w; token_vars := token_vars w |}.
Definition set_context (c : TestContext) w : World Net :=
  {| net := net w; calls := calls w; console := console w; client := client w;
     context := c; balanceCache := balanceCache w;
     token_client := token_client w; token_vars := token_vars w |}.
Definition set_balanceCache (m : gmap string CacheEntry) w : World Net :=
  {| net := net w; calls := calls w; console := console w; client := client w;
     context := context w; balanceCache := m;
     token_client := token_client w; token_vars := token_vars w |}.
Definition set_token_client (o : option Operator) w : World Net :=
  {| net := net w; calls := calls w; console := console w; client := client w;
     context := context w; balanceCache := balanceCache w;
     token_client := o; token_vars := token_vars w |}.
Definition set_token_vars (v : TokenVars) w : World Net :=
  {| net := net w; calls := calls w; console := console w; client := client w;
     context := context w; balanceCache := balanceCache w;
     token_client := token_client w; token_vars := v |}.

Definition with_topicId (t : option TopicId) (c : TestContext) : TestContext :=
  {| topicId := t; thresholdKey := thresholdKey c;
     firstAccount := firstAccount c; secondAccount := secondAccount c;
     createdResources := createdResources c |}.
Definition with_thresholdKey (k : option Key) (c : TestContext) : TestContext :=
  {| topicId := topicId c; thresholdKey := k;
     firstAccount := firstAccount c; secondAccount := secondAccount c;
     createdResources := createdResources c |}.
Definition with_firstAccount (a : option Account) (c : TestContext) : TestContext :=
  {| topicId := topicId c; thresholdKey := thresholdKey c;
     firstAccount := a; secondAccount := secondAccount c;
     createdResources := createdResources c |}.
Definition with_secondAccount (a : option Account) (c : TestContext) : TestContext :=
  {| topicId := topicId c; thresholdKey := thresholdKey c;
     firstAccount := firstAccount c; secondAccount := a;
     createdResources := createdResources c |}.
Definition with_createdResources (r : CreatedResources) (c : TestContext) : TestContext :=
  {| topicId := topicId c; thresholdKey := thresholdKey c;
     firstAccount := firstAccount c; secondAccount := secondAccount c;
     createdResources := r |}.
Definition push_topic (t : option TopicId) (r : CreatedResources) : CreatedResources :=
  {| topics := topics r ++ [t]; accounts := accounts r |}.
Definition push_account (a : option AccountId) (r : CreatedResources) : CreatedResources :=
  {| topics := topics r; accounts := accounts r ++ [a] |}.

Definition with_token_firstAccount (a : Account) (v : TokenVars) : TokenVars :=
  {| token_firstAccount := a; token_secondAccount := token_secondAccount v;
     token_tokenId := token_tokenId v; token_tokenSupply := token_tokenSupply v |}.
Definition with_token_secondAccount (a : Account) (v : TokenVars) : TokenVars :=
  {| token_firstAccount := token_firstAccount v; token_secondAccount := a;
     token_tokenId := token_tokenId v; token_tokenSupply := token_tokenSupply v |}.

End Setters.

(** ** Calls into the SDK, recorded in the ghost log *)

Section SdkCalls.
Context {Net : Type} `{!Sdk Net}.

Definition now : Async (World Net) Z := gets (λ w, Date_now (net w)).

Definition PrivateKey_generateED25519 : Async (World Net) string :=
  λ w, let '(k, n) := generateED25519 (net w) in (Return k, set_net n w).

Definition balanceQuery (accountId : AccountId) : Async (World Net) AccountBalance :=
  λ w, let '(r, n) := AccountBalanceQuery_execute accountId (net w) in
       (r, record_call (CallBalance accountId r) (set_net n w)).

Definition execute (operator : option Operator) (tx : Transaction)
  : Async (World Net) TransactionResponse :=
  λ w, let '(r, n) := Transaction_execute operator tx (net w) in
       (r, record_call (CallExecute tx r) (set_net n w)).

(** [tx] is the transaction [resp] answers; it only labels the ghost
    record. *)
Definition response_getReceipt (tx : Transaction) (resp : TransactionResponse)
  : Async (World Net) TransactionReceipt :=
  λ w, let '(r, n) := getReceipt resp (net w) in
       (r, record_call (CallReceipt tx resp r) (set_net n w)).

Definition log (l : LogEntry) : Async (World Net) unit := modify (record_log l).

End SdkCalls.

(** * create-simple-topic.ts *)

Module Topic.
Section Steps.
Context {Net : Type} `{!Sdk Net}.
(** [accounts] imported from the configuration (the static account pool). *)
Variable config_accounts : list Account.

Abbreviation M := (Async (World Net)).

Definition operatorPublicKey (o : option Operator) : option Key :=
  (λ op, publicKey (operatorKey op)) <$> o.

Definition setOperator (accountId : AccountId) (key : string) : M unit :=
  modify (set_client (Some {| operatorAccountId := accountId; operatorKey := key |})).

Definition update_context (f : TestContext → TestContext) : M unit :=
  modify (λ w, set_context (f (context w)) w).

(** Helper to execute transaction and get receipt with error handling. *)
Definition executeTransaction (transaction : Transaction) : M TransactionReceipt :=
  try_catch
    (operator <- gets client ;;
     response <- execute operator transaction ;;
     response_getReceipt transaction response)
    (λ error,
       log (console_error "Transaction failed:" error) ;;;
       throw error).

Definition createAccountWithHbar (hbarAmount : number) : M Account :=
  privateKey <- PrivateKey_generateED25519 ;;
  receipt <- executeTransaction
    (build (AccountCreateTransaction (publicKey privateKey) hbarAmount)) ;;
  let accountId := receipt_accountId receipt in
  update_context (λ c, with_createdResources
                         (push_account accountId (createdResources c)) c) ;;;
  match accountId with
  | Some a => ret {| id := a; privateKey := privateKey |}
  | None => throw (TypeError "Cannot read properties of null (reading 'toString')")
  end.

(** *** Cached balance queries *)

Definition CACHE_TTL : Z := 5000.

(** [getHbarBalance] up to its [await]: the cache probe. *)
Definition cache_probe (account : Account) (w : World Net) : option number :=
  match balanceCache w !! id account with
  | Some cached =>
      if bool_decide (Date_now (net w) - timestamp cached < CACHE_TTL)
      then Some (balance cached)
      else None
  | None => None
  end.

(** [getHbarBalance] from its [await] on: the live query and the store. *)
Definition live_balance (account : Account) : M number :=
  balanceResult <- balanceQuery (id account) ;;
  let balance := hbars balanceResult in
  t <- now ;;
  modify (λ w, set_balanceCache
                 (<[id account := {| balance := balance; timestamp := t |}]>
                    (balanceCache w)) w) ;;;
  ret balance.

Definition getHbarBalance (account : Account) : M number :=
  cached <- gets (cache_probe account) ;;
  match cached with
  | Some balance => ret balance
  | None => live_balance account
  end.

(** *** Topic creation *)

Definition createTopic (memo : string) (submitKey : option Key)
  : M (option TopicId) :=
  operator <- gets client ;;
  let topicTx :=
    build (TopicCreateTransaction (operatorPublicKey operator) memo submitKey) in
  let frozenTx := freezeWith topicTx in
  let frozenTx :=
    match submitKey with
    | Some (PrivateKey k) => sign k frozenTx
    | _ => frozenTx
    end in
  receipt <- executeTransaction frozenTx ;;
  let topicId := receipt_topicId receipt in
  update_context (λ c, with_createdResources
                         (push_topic topicId (createdResources c)) c) ;;;
  ret topicId.

(** [PrivateKey.fromStringED25519(account.privateKey)]; the key strings of
    the configuration are well-formed, so parsing them does not throw. *)
Definition getPrivateKey (account : Account) : string := privateKey account.

(** [topicId.toString()] inside a [console.log]: a [TypeError] on [null]. *)
Definition log_id (text : string) (i : option string) : M unit :=
  match i with
  | Some s => log (console_log (text +:+ " " +:+ s))
  | None => throw (TypeError "Cannot read properties of null (reading 'toString')")
  end.

(** When: A topic is created with the memo ... with the first account as
    the submit key. *)
Definition when_topic_with_first_account (memo : string) : M unit :=
  first <- gets (λ w, firstAccount (context w)) ;;
  match first with
  | None => throw (AssertionError "First account not initialized")
  | Some account =>
      let firstPrivateKey := getPrivateKey account in
      t <- createTopic memo (Some (PrivateKey firstPrivateKey)) ;;
      update_context (with_topicId t) ;;;
      log_id "Topic created with ID:" t
  end.

(** Given: A second account with more than N hbars. *)
Definition given_second_account (hbarThreshold : Z) : M unit :=
  a <- createAccountWithHbar (Number_of_Z hbarThreshold) ;;
  update_context (with_secondAccount (Some a)).

(** Given: A N of M threshold key with the first and second account. *)
Definition given_threshold_key (requiredSigns totalKeys : Z) : M unit :=
  c <- gets context ;;
  match firstAccount c, secondAccount c with
  | Some a1, Some a2 =>
      let accountsInvolved := [a1; a2] in
      let publicKeys :=
        (λ acc, publicKey (getPrivateKey acc))
          <$> take (Z.to_nat totalKeys) accountsInvolved in
      update_context (with_thresholdKey (Some (KeyList publicKeys requiredSigns)))
  | _, _ => throw (AssertionError "Accounts not initialized")
  end.

(** When: A topic is created with the memo ... with the threshold key as
    the submit key. *)
Definition when_topic_with_threshold_key (memo : string) : M unit :=
  c <- gets context ;;
  match secondAccount c, thresholdKey c with
  | Some second, Some key =>
      let secondPrivKey := getPrivateKey second in
      operator <- gets client ;;
      let topicTx :=
        freezeWith (build (TopicCreateTransaction (operatorPublicKey operator)
                             memo (Some key))) in
      let signedTx := sign secondPrivKey topicTx in
      receipt <- executeTransaction signedTx ;;
      update_context (with_topicId (receipt_topicId receipt)) ;;;
      update_context (λ c, with_createdResources
                             (push_topic (receipt_topicId receipt)
                                (createdResources c)) c) ;;;
      log_id "Topic created with threshold key, ID:" (receipt_topicId receipt)
  | _, _ => throw (AssertionError "Prerequisites not met")
  end.

(** *** Account pool resolver *)

(** Given: a first account with more than N hbars.

    [Promise.all(accounts.map(async (account) => ...))] starts every
    [getHbarBalance] at once: all cache probes run first, on the same cache,
    and the live queries of the misses are answered later, in an order the
    network chooses.  A slot holds the balance once its promise is
    fulfilled. *)
Definition start_all (w : World Net) : list (Account * option number) :=
  (λ account, (account, cache_probe account w)) <$> config_accounts.

(** The answer for slot [i] arrives. *)
Definition arrive (i : nat) (slots : list (Account * option number))
  : M (list (Account * option number)) :=
  match slots !! i with
  | Some (account, None) =>
      b <- live_balance account ;;
      ret (<[i := (account, Some b)]> slots)
  | _ => ret slots
  end.

Fixpoint arrivals (order : list nat) (slots : list (Account * option number))
  : M (list (Account * option number)) :=
  match order with
  | [] => ret slots
  | i :: order' => slots' <- arrive i slots ;; arrivals order' slots'
  end.

Definition fulfilled (slots : list (Account * option number))
  : list (Account * number) :=
  omap (λ slot, pair (fst slot) <$> snd slot) slots.

(** [order] is the order in which answers arrive; the queries it leaves out
    are answered afterwards, in pool order.  The first rejected query
    rejects [Promise.all], and the step with it. *)
Definition Promise_all_balances (order : list nat) : M (list (Account * number)) :=
  slots <- gets start_all ;;
  slots <- arrivals (order ++ seq 0 (length config_accounts)) slots ;;
  ret (fulfilled slots).

Definition given_first_account (order : list nat) (minimumBalance : Z) : M unit :=
  eligibleAccounts <- Promise_all_balances order ;;
  let suitable :=
    List.find (λ entry, gt (snd entry) (Number_of_Z minimumBalance))
      eligibleAccounts in
  match suitable with
  | Some (account, _) =>
      setOperator (id account) (getPrivateKey account) ;;;
      update_context (with_firstAccount (Some account))
  | None =>
      throw (AssertionError ("No configured account had more than "
                               +:+ pretty minimumBalance +:+ " HBAR."))
  end.

(** *** Immediate publishing *)

(** Single publish method for immediate execution. *)
Definition publishMessage (message : string) (topicId : TopicId)
  (submitKey : option string) : M unit :=
  let submitTx :=
    freezeWith (build (TopicMessageSubmitTransaction topicId message)) in
  let submitTx :=
    match submitKey with
    | Some key => sign key submitTx
    | None => submitTx
    end in
  receipt <- executeTransaction submitTx ;;
  log (console_log ("Message submit status: " +:+ pretty (status receipt))).

(** When: The message ... is published to the topic. *)
Definition when_message_published (message : string) : M unit :=
  c <- gets context ;;
  match firstAccount c with
  | None => throw (AssertionError "First account not initialized")
  | Some account =>
      match topicId c with
      | None => throw (AssertionError "Topic not created")
      | Some topic =>
          let firstPrivateKey := getPrivateKey account in
          publishMessage message topic (Some firstPrivateKey)
      end
  end.

End Steps.
End Topic.

(** * Token step definitions *)

Module Token.
Section Steps.
Context {Net : Type} `{!Sdk Net}.
Variable config_accounts : list Account.

Abbreviation M := (Async (World Net)).

Record Balance := { hbar : number; tokens : number }.

Definition update_vars (f : TokenVars → TokenVars) : M unit :=
  modify (λ w, set_token_vars (f (token_vars w)) w).

Definition getAccountBalance (account : Account) (token : option TokenId)
  : M Balance :=
  result <- balanceQuery (id account) ;;
  ret {| tokens :=
           match token, result_tokens result with
           | Some t, Some held =>
               match held !! t with
               | Some long => Number_of_Long long
               | None => Number_of_Z 0
               end
           | _, _ => Number_of_Z 0
           end;
         hbar := hbars result |}.

Definition accountWithHBar (hbarAmount : number) : M Account :=
  freshlyGeneratedKey <- PrivateKey_generateED25519 ;;
  let freshPublicKey := publicKey freshlyGeneratedKey in
  let createTx := build (AccountCreateTransaction freshPublicKey hbarAmount) in
  operator <- gets token_client ;;
  txResponse <- execute operator createTx ;;
  receipt <- response_getReceipt createTx txResponse ;;
  match receipt_accountId receipt with
  | Some newId => ret {| id := newId; privateKey := freshlyGeneratedKey |}
  | None => throw (TypeError "Cannot read properties of null (reading 'toString')")
  end.

(** Returns [finalReceipt.status]; the source returns its string form. *)
Definition mintTokens (tokenAmount : number) : M Z :=
  v <- gets token_vars ;;
  let mintTx :=
    freezeWith (build (TokenMintTransaction (token_tokenId v) tokenAmount)) in
  let signedTx := sign (privateKey (token_firstAccount v)) mintTx in
  operator <- gets token_client ;;
  submitResp <- execute operator signedTx ;;
  finalReceipt <- response_getReceipt signedTx submitResp ;;
  ret (status finalReceipt).

(** Given: A Hedera account with more than N hbar.  The [for] loop over the
    pool, with its early [return]. *)
Fixpoint scan_accounts (accs : list Account) (expectedBalance : Z) : M unit :=
  match accs with
  | [] =>
      throw (AssertionError ("No account in " +:+ dquote +:+ "accounts"
                               +:+ dquote +:+ " config had more than "
                               +:+ pretty expectedBalance +:+ " HBAR"))
  | acc :: rest =>
      b <- getAccountBalance acc None ;;
      if gt (hbar b) (Number_of_Z expectedBalance)
      then
        modify (set_token_client
                  (Some {| operatorAccountId := id acc;
                           operatorKey := privateKey acc |})) ;;;
        update_vars (with_token_firstAccount acc)
      else scan_accounts rest expectedBalance
  end.

Definition given_account_with_more_than (expectedBalance : Z) : M unit :=
  scan_accounts config_accounts expectedBalance.

(** Given: A second Hedera account. *)
Definition given_second_account : M unit :=
  a <- accountWithHBar (Number_of_Z 0) ;;
  update_vars (with_token_secondAccount a).

(** [assert.strictEqual(errorStatusCode, 236)]; [errorStatusCode] is
    [undefined] when nothing was caught. *)
Definition assert_strictEqual_code (actual : option Z) (expected : Z) : M unit :=
  if bool_decide (actual = Some expected) then ret tt
  else throw (AssertionError "Expected values to be strictly equal").

(** Then: An attempt to mint tokens fails. *)
Definition then_mint_fails : M unit :=
  v <- gets token_vars ;;
  errorStatusCode <-
    try_catch
      (mintTokens (number_add (token_tokenSupply v) (Number_of_Z 100)) ;;;
       ret None)
      (λ error,
         match error with
         | ReceiptStatusError code => ret (Some code)
         | _ =>
             log (console_error "Unexpected error encountered:" error) ;;;
             throw error
         end) ;;
  assert_strictEqual_code errorStatusCode 236.

(** [assert.ok(value, message)] and [assert.strictEqual] on numbers. *)
Definition assert_ok (value : bool) (message : string) : M unit :=
  if value then ret tt else throw (AssertionError message).

Definition assert_strictEqual (actual expected : number) (message : string)
  : M unit :=
  if bool_decide (actual = expected) then ret tt
  else throw (AssertionError message).

(** Then: The total supply of the token is N. *)
Definition then_total_supply (expectedSupply : Z) : M unit :=
  v <- gets token_vars ;;
  assert_strictEqual (token_tokenSupply v) (Number_of_Z expectedSupply)
    "Expected values to be strictly equal".

(** Given: A first hedera account with more than N hbar. *)
Definition given_first_account_more_than (expectedBalance : Z) : M unit :=
  v <- gets token_vars ;;
  b <- getAccountBalance (token_firstAccount v) None ;;
  assert_ok (gt (hbar b) (Number_of_Z expectedBalance))
    "The expression evaluated to a falsy value".

(** Given: The first account holds N HTT tokens. *)
Definition given_first_holds (tokenAmount : Z) : M unit :=
  v <- gets token_vars ;;
  b <- getAccountBalance (token_firstAccount v) (Some (token_tokenId v)) ;;
  assert_strictEqual (tokens b) (Number_of_Z tokenAmount)
    "Expected values to be strictly equal".

(** Given: The second account holds N HTT tokens. *)
Definition given_second_holds (tokenAmount : Z) : M unit :=
  v <- gets token_vars ;;
  b <- getAccountBalance (token_secondAccount v) (Some (token_tokenId v)) ;;
  assert_strictEqual (tokens b) (Number_of_Z tokenAmount)
    "Expected values to be strictly equal".

(** Given: A first hedera account with more than N hbar and M HTT tokens. *)
Definition given_first_with_hbar_and_tokens (expectedHbar expectedTokens : Z)
  : M unit :=
  v <- gets token_vars ;;
  b <- getAccountBalance (token_firstAccount v) (Some (token_tokenId v)) ;;
  assert_ok (gt (hbar b) (Number_of_Z expectedHbar))
    "Not enough HBAR in first account" ;;;
  assert_strictEqual (tokens b) (Number_of_Z expectedTokens)
    "Incorrect HTT tokens in first account".

End Steps.
End Token.

(** * The message publisher of create-simple-topic.ts

    [flushMessages] fans its batch out with [Promise.all]; the entries of a
    batch are in flight together and a later [publish] can run while they
    are.  The publisher is therefore given an event semantics: the
    synchronous part of each call is one event, and each settling of an
    awaited promise is one event. *)

Module MessagePublisher.

Record Entry := { message : string; topicId : TopicId; submitKey : option string }.

(** One callback of [messages.map(async (...) => ...)], suspended at one of
    its awaits, or settled. *)
Inductive task : Type :=
  | AwaitSign (submitTx : Transaction) (key : string) (topic : TopicId)
  | AwaitExecute (submitTx : Transaction) (topic : TopicId)
  | AwaitReceipt (submitTx : Transaction) (response : TransactionResponse)
      (topic : TopicId)
  | Fulfilled
  | Rejected (e : error).

Inductive promise : Type :=
  | Pending
  | Resolved
  | RejectedWith (e : error).

(** One call of [flushMessages]: the array [messages] it holds, the
    promises of its callbacks and the promise of [Promise.all]. *)
Record Flight := {
  messages : nat;
  tasks : list task;
  all : promise
}.

(** Arrays live in a store and are held by reference: [pendingMessages] is
    the array the field [this.pendingMessages] points to. *)
Record Publisher := {
  heap : gmap nat (list Entry);
  next : nat;
  pendingMessages : nat;
  flights : list Flight
}.

Definition array (l : nat) (p : Publisher) : list Entry :=
  default [] (heap p !! l).

(** The queue: the array behind [this.pendingMessages]. *)
Definition queue (p : Publisher) : list Entry := array (pendingMessages p) p.

(** [new MessagePublisher()] *)
Definition new : Publisher :=
  {| heap := {[ 0%nat := [] ]}; next := 1; pendingMessages := 0; flights := [] |}.

(** [this.pendingMessages.push(entry)]: in place. *)
Definition push (entry : Entry) (p : Publisher) : Publisher :=
  {| heap := <[pendingMessages p := queue p ++ [entry]]> (heap p);
     next := next p; pendingMessages := pendingMessages p;
     flights := flights p |}.

(** A callback up to its first await. *)
Definition submit_tx (entry : Entry) : Transaction :=
  freezeWith (build (TopicMessageSubmitTransaction (topicId entry) (message entry))).

Definition start (entry : Entry) : task :=
  match submitKey entry with
  | Some key => AwaitSign (submit_tx entry) key (topicId entry)
  | None => AwaitExecute (submit_tx entry) (topicId entry)
  end.

(** [Promise.all] over the callbacks' promises: rejected with the first
    rejection, resolved once every promise is fulfilled. *)
Definition is_fulfilled (t : task) : bool :=
  match t with Fulfilled => true | _ => false end.

Definition Promise_all (ts : list task) : promise :=
  if forallb is_fulfilled ts then Resolved else Pending.

Definition settle_all (settled : task) (ts : list task) (p : promise) : promise :=
  match p with
  | Pending =>
      match settled with
      | Rejected e => RejectedWith e
      | _ => Promise_all ts
      end
  | _ => p
  end.

(** [flushMessages] up to its await: the copy [[...this.pendingMessages]]
    is a new array, [this.pendingMessages = []] points the field to another
    new array, and every callback runs up to its first await. *)
Definition flushMessages (p : Publisher) : Publisher :=
  let messages := next p in
  let copied := queue p in
  let emptied := S (next p) in
  {| heap := <[emptied := []]> (<[messages := copied]> (heap p));
     next := S (S (next p));
     pendingMessages := emptied;
     flights := flights p ++
       [{| messages := messages;
           tasks := start <$> copied;
           all := Promise_all (start <$> copied) |}] |}.

(** [publish] up to its await. *)
Definition publish (entry : Entry) (p : Publisher) : Publisher :=
  let p := push entry p in
  if bool_decide (5 ≤ length (queue p))%nat then flushMessages p else p.

Section Events.
Context {Net : Type} `{!Sdk Net}.

(** The awaited promise of a callback settles and the callback runs to its
    next await, or to its end.  [executeTransaction] is entered after the
    signature; its [catch] logs and rethrows, which rejects the callback's
    promise. *)
Definition resume_task (t : task) (w : World Net) : task * World Net :=
  match t with
  | AwaitSign submitTx key topic => (AwaitExecute (sign key submitTx) topic, w)
  | AwaitExecute submitTx topic =>
      match execute (client w) submitTx w with
      | (Return response, w') => (AwaitReceipt submitTx response topic, w')
      | (Throw e, w') =>
          (Rejected e, record_log (console_error "Transaction failed:" e) w')
      end
  | AwaitReceipt submitTx response topic =>
      match response_getReceipt submitTx response w with
      | (Return receipt, w') =>
          (Fulfilled,
           record_log (console_log ("Message submitted to topic " +:+ topic
                                      +:+ ": " +:+ pretty (status receipt))) w')
      | (Throw e, w') =>
          (Rejected e, record_log (console_error "Transaction failed:" e) w')
      end
  | Fulfilled => (Fulfilled, w)
  | Rejected e => (Rejected e, w)
  end.

Inductive event : Type :=
  | Publish (entry : Entry)
  | Flush
  | Resume (flight : nat) (index : nat).

Definition resume (f i : nat) (s : World Net * Publisher) : World Net * Publisher :=
  let '(w, p) := s in
  match flights p !! f with
  | Some fl =>
      match tasks fl !! i with
      | Some t =>
          let '(t', w') := resume_task t w in
          let ts := <[i := t']> (tasks fl) in
          (w', {| heap := heap p; next := next p;
                  pendingMessages := pendingMessages p;
                  flights := <[f := {| messages := messages fl; tasks := ts;
                                       all := settle_all t' ts (all fl) |}]>
                               (flights p) |})
      | None => s
      end
  | None => s
  end.

Definition step (ev : event) (s : World Net * Publisher) : World Net * Publisher :=
  match ev with
  | Publish entry => (fst s, publish entry (snd s))
  | Flush => (fst s, flushMessages (snd s))
  | Resume f i => resume f i s
  end.

Definition run (evs : list event) (s : World Net * Publisher)
  : World Net * Publisher :=
  foldl (λ s ev, step ev s) s evs.

End Events.
End MessagePublisher.

(** * The topic subscription matcher of create-simple-topic.ts

    [subscribeToTopic] returns a promise that three callbacks can settle: the
    timer, the subscription's error handler and its message handler.  The
    state below is what these callbacks share; the network and the timer
    drive it. *)

Module Subscription.

Inductive promise : Type :=
  | Pending
  | Resolved
  | Rejected (e : error).

(** [timeoutId]: the timer set by [setTimeout], due at [deadline]. *)
Inductive timer : Type :=
  | Armed (deadline : Z)
  | Cleared
  | Fired.

Record State := {
  wait : promise;
  timeoutId : timer;
  (** [subscriptionHandle]: live until [unsubscribe()] is called on it. *)
  live : bool;
  console : list LogEntry
}.

(** A promise is settled once; later [resolve] and [reject] calls are
    ignored. *)
Definition settle (outcome : promise) (s : State) : State :=
  match wait s with
  | Pending => {| wait := outcome; timeoutId := timeoutId s; live := live s;
                  console := console s |}
  | _ => s
  end.

Definition clearTimeout (s : State) : State :=
  {| wait := wait s;
     timeoutId := match timeoutId s with Armed _ => Cleared | t => t end;
     live := live s; console := console s |}.

Definition unsubscribe (s : State) : State :=
  {| wait := wait s; timeoutId := timeoutId s; live := false;
     console := console s |}.

Definition console_log_received (text : string) (s : State) : State :=
  {| wait := wait s; timeoutId := timeoutId s; live := live s;
     console := console s ++ [console_log ("Received message: " +:+ text)] |}.

Inductive callback : Type :=
  | OnMessage (contents : list Byte.byte)
  | OnError (e : error).

Section Matcher.
(** [Buffer.from(contents).toString()] *)
Variable Buffer_toString : list Byte.byte → string.
Variable expectedMessage : string.

Definition DEFAULT_TIMEOUT : Z := 10000.

(** The executor of the promise, called at time [start]: the timer is set
    and the subscription is opened. *)
Definition subscribeToTopic (start : Z) (timeout : option Z) : State :=
  {| wait := Pending;
     timeoutId := Armed (start + default DEFAULT_TIMEOUT timeout);
     live := true;
     console := [] |}.

Definition timeout_error : error :=
  Error ("Timeout waiting for message: " +:+ expectedMessage).

(** The timer callback. *)
Definition on_timeout (s : State) : State :=
  settle (Rejected timeout_error)
    {| wait := wait s; timeoutId := Fired; live := live s;
       console := console s |}.

(** The error handler passed to [subscribe]. *)
Definition on_error (e : error) (s : State) : State :=
  settle (Rejected e) (clearTimeout s).

(** The message handler passed to [subscribe]. *)
Definition on_message (contents : list Byte.byte) (s : State) : State :=
  let decodedContent := Buffer_toString contents in
  let s := console_log_received decodedContent s in
  if bool_decide (decodedContent = expectedMessage)
  then settle Resolved (unsubscribe (clearTimeout s))
  else s.

(** The clock reaches [t]: a timer that is due fires. *)
Definition advance (t : Z) (s : State) : State :=
  match timeoutId s with
  | Armed deadline => if bool_decide (deadline ≤ t) then on_timeout s else s
  | _ => s
  end.

(** A callback of the subscription runs at time [t]. *)
Definition deliver (ev : Z * callback) (s : State) : State :=
  let s := advance (fst ev) s in
  match snd ev with
  | OnMessage contents => on_message contents s
  | OnError e => on_error e s
  end.

Definition run (trace : list (Z * callback)) (s : State) : State :=
  foldl (λ s ev, deliver ev s) s trace.

(** The wait is pending with its timer due at [deadline], or the timer has
    rejected it. *)
Definition waiting_or_timed_out (deadline : Z) (s : State) : Prop :=
  (wait s = Pending ∧ timeoutId s = Armed deadline)
  ∨ wait s = Rejected timeout_error.

End Matcher.
End Subscription.

(** * The remaining steps and the teardown hook of create-simple-topic.ts *)

Module Hooks.
Section After.
Context {Net : Type} `{!Sdk Net}.

(** [for (const x of xs) { body x }] *)
Fixpoint for_of {A} (xs : list A) (body : A → Async (World Net) unit)
  : Async (World Net) unit :=
  match xs with
  | [] => ret tt
  | x :: xs' => body x ;;; for_of xs' body
  end.

(** How [null] and an identifier print inside a template string. *)
Definition show_id (i : option string) : string := default "null" i.

(** One round of the topic loop: the [try] and its [catch].  A [null] in
    the array makes [setTopicId] throw inside the [try]. *)
Definition delete_topic (topicId : option TopicId) : Async (World Net) unit :=
  try_catch
    (match topicId with
     | Some t =>
         Topic.executeTransaction
           (freezeWith (build (TopicDeleteTransaction t))) ;;;
         log (console_log ("Deleted topic: " +:+ t))
     | None =>
         throw (TypeError "Cannot read properties of null (reading 'clone')")
     end)
    (λ error,
       log (console_error
              ("Failed to delete topic " +:+ show_id topicId +:+ ":") error)).

(** One round of the account loop; nothing in its [try] throws. *)
Definition delete_account (accountId : option AccountId)
  : Async (World Net) unit :=
  log (console_log ("Would delete account: " +:+ show_id accountId)).

(** The hook from the end of its [await messagePublisher.flushMessages()]. *)
Definition cleanup : Async (World Net) unit :=
  created <- gets (λ w, topics (createdResources (context w))) ;;
  for_of created delete_topic ;;;
  created <- gets (λ w, accounts (createdResources (context w))) ;;
  for_of created delete_account ;;;
  Topic.update_context
    (λ c, with_createdResources
            {| topics := []; accounts := accounts (createdResources c) |} c) ;;;
  Topic.update_context
    (λ c, with_createdResources
            {| topics := topics (createdResources c); accounts := [] |} c) ;;;
  modify (set_balanceCache ∅).

(** [await] on the promise of flight [f]: the events run until that promise
    is settled; [None] when they run out first and the hook is still
    waiting. *)
Fixpoint await_flight (f : nat) (evs : list MessagePublisher.event)
  (s : World Net * MessagePublisher.Publisher)
  : option (result unit * (World Net * MessagePublisher.Publisher)) :=
  match MessagePublisher.all <$> MessagePublisher.flights s.2 !! f with
  | Some MessagePublisher.Resolved => Some (Return tt, s)
  | Some (MessagePublisher.RejectedWith e) => Some (Throw e, s)
  | Some MessagePublisher.Pending =>
      match evs with
      | [] => None
      | ev :: evs' => await_flight f evs' (MessagePublisher.step ev s)
      end
  | None => None
  end.

(** Cleanup after tests. *)
Definition After (evs : list MessagePublisher.event)
  (s : World Net * MessagePublisher.Publisher)
  : option (result unit * (World Net * MessagePublisher.Publisher)) :=
  let w := record_log (console_log "Cleaning up test resources...") s.1 in
  let f := length (MessagePublisher.flights s.2) in
  match await_flight f evs (MessagePublisher.step MessagePublisher.Flush (w, s.2))
  with
  | Some (Return _, s1) =>
      let r := cleanup s1.1 in Some (r.1, (r.2, s1.2))
  | Some (Throw e, s1) => Some (Throw e, s1)
  | None => None
  end.

End After.

(** Then: The message ... is received by the topic and can be printed to
    the console.  The step opens the subscription at time [start] and awaits
    its promise. *)
Definition then_message_received (start : Z) (c : TestContext)
  : result Subscription.State :=
  match topicId c with
  | Some _ => Return (Subscription.subscribeToTopic start None)
  | None => Throw (AssertionError "Topic not created")
  end.

End Hooks.

(** * A small network to run the steps on *)

Module Toy.

Record Net := {
  clock : Z;
  counter : Z;
  (** The receipt status the network answers with; 22 is SUCCESS. *)
  answer : Z
}.

Definition tick (n : Net) : Net :=
  {| clock := clock n + 10; counter := counter n + 1; answer := answer n |}.

Definition entity (n : Z) : string := "0.0." +:+ pretty n.

(** A network whose hbar balances are those of [table] (0 for an account
    it does not list), which accepts every transaction but a message to the
    topic 0.0.0 and answers a receipt with the status [answer]. *)
Definition sdk (table : list (string * Z)) : Sdk Net := {|
  Date_now n := clock n;
  generateED25519 n := ("key-" +:+ pretty (counter n), tick n);
  AccountBalanceQuery_execute accountId n :=
    (Return {| hbars := Number_of_Z
                          (default 0 ((list_to_map table : gmap string Z)
                                        !! accountId));
               result_tokens := None |}, tick n);
  Transaction_execute operator tx n :=
    (match body tx with
     | TopicMessageSubmitTransaction "0.0.0" _ =>
         Throw (ThrownValue "INVALID_TOPIC_ID")
     | _ => Return {| transactionId := counter n |}
     end, tick n);
  getReceipt resp n :=
    (if bool_decide (answer n = 22)
     then Return {| status := 22;
                    receipt_accountId := Some (entity (transactionId resp));
                    receipt_topicId := Some (entity (transactionId resp)) |}
     else Throw (ReceiptStatusError (answer n)), tick n)
|}.

Definition live (table : list (string * Z)) (accountId : AccountId)
  : AccountBalance :=
  {| hbars := Number_of_Z
                (default 0 ((list_to_map table : gmap string Z) !! accountId));
     result_tokens := None |}.

Definition net0 : Net := {| clock := 0; counter := 1000; answer := 22 |}.

Definition no_account : Account := {| id := ""; privateKey := "" |}.

Definition world (n : Net) : World Net :=
  {| net := n; calls := []; console := [];
     client := None;
     context := {| topicId := None; thresholdKey := None; firstAccount := None;
                   secondAccount := None;
                   createdResources := {| topics := []; accounts := [] |} |};
     balanceCache := ∅;
     token_client := None;
     token_vars := {| token_firstAccount := no_account;
                      token_secondAccount := no_account;
                      token_tokenId := "0.0.0";
                      token_tokenSupply := Number_of_Z 0 |} |}.

Definition alice : Account := {| id := "0.0.1"; privateKey := "alice-key" |}.
Definition bob : Account := {| id := "0.0.2"; privateKey := "bob-key" |}.

(** A world whose cache holds, for alice, a balance of 100 stored at time
    0, at clock time [t]. *)
Definition cached_world (t : Z) : World Net :=
  set_balanceCache
    {[ "0.0.1" := {| balance := Number_of_Z 100; timestamp := 0 |} ]}
    (world {| clock := t; counter := 7; answer := 22 |}).

(** Two queued messages: the first goes to the topic the network refuses,
    the second carries a signing key. *)
Definition refused_entry : MessagePublisher.Entry :=
  {| MessagePublisher.message := "first";
     MessagePublisher.topicId := "0.0.0";
     MessagePublisher.submitKey := None |}.
Definition signed_entry : MessagePublisher.Entry :=
  {| MessagePublisher.message := "second";
     MessagePublisher.topicId := "0.0.7";
     MessagePublisher.submitKey := Some "alice-key" |}.
Definition two_queued : MessagePublisher.Publisher :=
  MessagePublisher.push signed_entry
    (MessagePublisher.push refused_entry MessagePublisher.new).

(** The refusal of the first message is answered before anything else. *)
Definition answers : list MessagePublisher.event :=
  [MessagePublisher.Resume 0 0; MessagePublisher.Resume 0 1;
   MessagePublisher.Resume 0 1; MessagePublisher.Resume 0 1;
   MessagePublisher.Resume 0 0; MessagePublisher.Resume 0 0].

(** A world that tracks two topics and a [null], with a cached balance. *)
Definition tracked_world : World Net :=
  set_context
    (with_createdResources
       {| topics := [Some "0.0.5"; None; Some "0.0.6"];
          accounts := [Some "0.0.9"] |}
       (context (cached_world 100)))
    (cached_world 100).

Definition one_refused : MessagePublisher.Publisher :=
  MessagePublisher.push refused_entry MessagePublisher.new.

Definition entry (text : string) : MessagePublisher.Entry :=
  {| MessagePublisher.message := text;
     MessagePublisher.topicId := "0.0.7";
     MessagePublisher.submitKey := None |}.

(** A world in which both step files have bound alice as operator. *)
Definition operator_alice : Operator :=
  {| operatorAccountId := "0.0.1"; operatorKey := "alice-key" |}.

Definition operated_world (n : Net) : World Net :=
  set_client (Some operator_alice)
    (set_token_client (Some operator_alice) (world n)).

(** The same world after a scenario of the topic steps that created one
    topic has been torn down: the network has reported a topic as created,
    and the resource set is empty again. *)
Definition world_after_teardown : World Net :=
  (Hooks.cleanup (Sdk0 := sdk [])
     (Topic.createTopic (Sdk0 := sdk []) "old" None (operated_world net0)).2).2.

(** The network [sdk table] with token holdings: every account holds the
    amounts of [holdings]. *)
Definition token_sdk (table holdings : list (string * Z)) : Sdk Net := {|
  Date_now := Date_now (Sdk := sdk table);
  generateED25519 := generateED25519 (Sdk := sdk table);
  AccountBalanceQuery_execute accountId n :=
    (Return {| hbars := Number_of_Z
                          (default 0 ((list_to_map table : gmap string Z)
                                        !! accountId));
               result_tokens := Some (list_to_map holdings) |}, tick n);
  Transaction_execute := Transaction_execute (Sdk := sdk table);
  getReceipt := getReceipt (Sdk := sdk table)
|}.

(** The token steps after alice was bound and a token of supply [supply]
    was created. *)
Definition token_world (n : Net) (supply : Z) : World Net :=
  set_token_vars
    {| token_firstAccount := alice; token_secondAccount := bob;
       token_tokenId := "0.0.77"; token_tokenSupply := Number_of_Z supply |}
    (operated_world n).

End Toy.

(** * Vocabulary of the statements *)

Section Vocabulary.
Context {Net : Type} `{!Sdk Net}.
Implicit Type w : World Net.

(** The token amount [getAccountBalance] reads off an answer: the held
    amount as a JS number, 0 when no token is asked for, when the answer has
    no token map or when the map has no entry for the token. *)
Definition token_amount (token : option TokenId) (res : AccountBalance) : number :=
  match token, result_tokens res with
  | Some t, Some held =>
      match held !! t with
      | Some long => Number_of_Long long
      | None => Number_of_Z 0
      end
  | _, _ => Number_of_Z 0
  end.

(** The transaction the mint-fails step submits: a mint of the supply plus
    100 (a sum of JS numbers), frozen, signed with the first account's
    key. *)
Definition mint_transaction w : Transaction :=
  {| body := TokenMintTransaction (token_tokenId (token_vars w))
               (number_add (token_tokenSupply (token_vars w)) (Number_of_Z 100));
     frozen := true;
     signatures := [privateKey (token_firstAccount (token_vars w))] |}.

(** What the mint-fails step makes of an error [e] thrown by the mint, from
    the console [before] to the result [r] of the step: a
    [ReceiptStatusError] is caught, and the step passes when its code is 236
    and fails its assertion otherwise; anything else is logged and thrown
    on. *)
Definition mint_error_verdict (e : error) (before : list LogEntry)
  (r : result unit * World Net) : Prop :=
  match e with
  | ReceiptStatusError code =>
      console r.2 = before ∧
      (code = 236 → r.1 = Return tt) ∧
      (code ≠ 236 →
       r.1 = Throw (AssertionError "Expected values to be strictly equal"))
  | _ =>
      r.1 = Throw e ∧
      console r.2 = before ++ [console_error "Unexpected error encountered:" e]
  end.

(** The network answers every balance query with [live]: balances do not
    move while a step runs. *)
Definition stable_balances (live : AccountId → AccountBalance) : Prop :=
  ∀ (accountId : AccountId) (n : Net),
    (AccountBalanceQuery_execute accountId n).1 = Return (live accountId).

(** The balance [getHbarBalance] reports for an account from world [w]: the
    cached one while its entry is young, the live one otherwise. *)
Definition looked_up (live : AccountId → AccountBalance) w (account : Account)
  : number :=
  default (hbars (live (id account))) (Topic.cache_probe account w).

(** Slot [j] once the answers listed in [order] have arrived. *)
Definition filled (live : AccountId → AccountBalance) (order : list nat)
  (j : nat) (slot : Account * option number) : Account * option number :=
  (slot.1, if decide (j ∈ order)
           then Some (default (hbars (live (id slot.1))) slot.2)
           else slot.2).

Definition as_operator (account : Account) : Operator :=
  {| operatorAccountId := id account; operatorKey := privateKey account |}.

(** What a balance lookup leaves alone. *)
Definition same_bindings w w' : Prop :=
  client w' = client w ∧ context w' = context w ∧
  token_client w' = token_client w ∧ token_vars w' = token_vars w.

(** What the receipt of transaction [tx] reports as created. *)
Definition receipt_accounts (tx : Transaction) (r : result TransactionReceipt)
  : list AccountId :=
  created_accounts [CallReceipt tx {| transactionId := 0 |} r].
Definition receipt_topics (tx : Transaction) (r : result TransactionReceipt)
  : list TopicId :=
  created_topics [CallReceipt tx {| transactionId := 0 |} r].

(** The resource set of [context] holds exactly the identifiers of what the
    network reports as created. *)
Definition resources_tracked w : Prop :=
  omap (λ i, i) (accounts (createdResources (context w)))
    = created_accounts (calls w) ∧
  omap (λ i, i) (topics (createdResources (context w)))
    = created_topics (calls w).

(** Between [w] and [w'] the network reported [new_accounts] and
    [new_topics] as created, and the resource set grew by [tracked_accounts]
    and [tracked_topics]. *)
Definition grew w w' (new_accounts : list AccountId) (new_topics : list TopicId)
  (tracked_accounts : list (option AccountId))
  (tracked_topics : list (option TopicId)) : Prop :=
  created_accounts (calls w') = created_accounts (calls w) ++ new_accounts ∧
  created_topics (calls w') = created_topics (calls w) ++ new_topics ∧
  accounts (createdResources (context w'))
    = accounts (createdResources (context w)) ++ tracked_accounts ∧
  topics (createdResources (context w'))
    = topics (createdResources (context w)) ++ tracked_topics.

(** From [w] to [w'] at most one resource was created, and the resource set
    grew by exactly what the network reported as created in between: the
    identifiers appended to the set are, in order, those carried by the
    receipts of the creating transactions (a receipt without identifier
    appends a [null]). *)
Definition appended_on_creation w w' : Prop :=
  ∃ (tracked_accounts : list (option AccountId))
    (tracked_topics : list (option TopicId)),
    grew w w' (omap (λ i, i) tracked_accounts) (omap (λ i, i) tracked_topics)
      tracked_accounts tracked_topics ∧
    (length tracked_accounts + length tracked_topics ≤ 1)%nat.

(** *** The message publisher *)

(** The transaction a batch entry submits: frozen, and signed when the
    entry has a key. *)
Definition final_tx (entry : MessagePublisher.Entry) : Transaction :=
  match MessagePublisher.submitKey entry with
  | Some key => sign key (MessagePublisher.submit_tx entry)
  | None => MessagePublisher.submit_tx entry
  end.

(** How far a callback has come: the number of awaits behind it. *)
Definition stage (t : MessagePublisher.task) : nat :=
  match t with
  | MessagePublisher.AwaitSign _ _ _ => 0
  | MessagePublisher.AwaitExecute _ _ => 1
  | MessagePublisher.AwaitReceipt _ _ _ => 2
  | MessagePublisher.Fulfilled | MessagePublisher.Rejected _ => 3
  end.

(** How often callback [i] of flight [f] is resumed in [evs]. *)
Fixpoint resumes (f i : nat) (evs : list MessagePublisher.event) : nat :=
  match evs with
  | [] => 0
  | MessagePublisher.Resume f' i' :: evs' =>
      (if bool_decide (f' = f ∧ i' = i) then 1 else 0) + resumes f i evs'
  | _ :: evs' => resumes f i evs'
  end.

Definition new_calls w w' : list SdkCall :=
  drop (length (calls w)) (calls w').

(** The calls to the network made by callback [i] of flight [f] while [evs]
    runs from [s]. *)
Fixpoint own_calls (f i : nat) (evs : list MessagePublisher.event)
  (s : World Net * MessagePublisher.Publisher) : list SdkCall :=
  match evs with
  | [] => []
  | ev :: evs' =>
      let s' := MessagePublisher.step ev s in
      match ev with
      | MessagePublisher.Resume f' i' =>
          if bool_decide (f' = f ∧ i' = i) then new_calls s.1 s'.1 else []
      | _ => []
      end ++ own_calls f i evs' s'
  end.

(** A settled callback and the calls it made for its entry: the submission
    was refused, or it was accepted and the receipt failed, or both
    succeeded. *)
Inductive pipeline_record (entry : MessagePublisher.Entry)
  : list SdkCall → MessagePublisher.task → Prop :=
  | submission_refused (e : error) :
      pipeline_record entry
        [CallExecute (final_tx entry) (Throw e)]
        (MessagePublisher.Rejected e)
  | receipt_failed (resp : TransactionResponse) (e : error) :
      pipeline_record entry
        [CallExecute (final_tx entry) (Return resp);
         CallReceipt (final_tx entry) resp (Throw e)]
        (MessagePublisher.Rejected e)
  | receipted (resp : TransactionResponse) (rc : TransactionReceipt) :
      pipeline_record entry
        [CallExecute (final_tx entry) (Return resp);
         CallReceipt (final_tx entry) resp (Return rc)]
        MessagePublisher.Fulfilled.

(** A callback on its way, and the calls it has made so far. *)
Definition in_progress (entry : MessagePublisher.Entry) (own : list SdkCall)
  (t : MessagePublisher.task) : Prop :=
  match t with
  | MessagePublisher.AwaitSign tx key _ =>
      own = [] ∧ tx = MessagePublisher.submit_tx entry
      ∧ MessagePublisher.submitKey entry = Some key
  | MessagePublisher.AwaitExecute tx _ => own = [] ∧ tx = final_tx entry
  | MessagePublisher.AwaitReceipt tx resp _ =>
      own = [CallExecute (final_tx entry) (Return resp)] ∧ tx = final_tx entry
  | _ => pipeline_record entry own t
  end.

(** The entries handed to [publish] in [evs], in order. *)
Definition published (evs : list MessagePublisher.event)
  : list MessagePublisher.Entry :=
  omap (λ ev, match ev with
              | MessagePublisher.Publish entry => Some entry
              | _ => None
              end) evs.

(** Flight [f] holds the array [n0] with contents [batch]; the queue is
    another, younger array; and each of the entries [later] is in the queue
    or in the array of a flight younger than [f]. *)
Definition isolated (f n0 : nat) (batch later : list MessagePublisher.Entry)
  (p : MessagePublisher.Publisher) : Prop :=
  (MessagePublisher.pendingMessages p < MessagePublisher.next p)%nat ∧
  (∀ f' fl, (f ≤ f')%nat → MessagePublisher.flights p !! f' = Some fl →
     (MessagePublisher.messages fl < MessagePublisher.pendingMessages p)%nat) ∧
  (∃ fl, MessagePublisher.flights p !! f = Some fl
         ∧ MessagePublisher.messages fl = n0
         ∧ length (MessagePublisher.tasks fl) = length batch) ∧
  MessagePublisher.array n0 p = batch ∧
  (∀ entry, entry ∈ later →
     entry ∈ MessagePublisher.queue p ∨
     ∃ f' fl', (f < f')%nat ∧ MessagePublisher.flights p !! f' = Some fl'
               ∧ entry ∈ MessagePublisher.array (MessagePublisher.messages fl') p).

(** The promise of [Promise.all] against the promises it watches: pending
    while none is rejected and some is not fulfilled, resolved when all are
    fulfilled, rejected with the error of one that is rejected. *)
Definition all_consistent (fl : MessagePublisher.Flight) : Prop :=
  match MessagePublisher.all fl with
  | MessagePublisher.Pending =>
      Forall (λ t, ∀ e, t ≠ MessagePublisher.Rejected e)
        (MessagePublisher.tasks fl) ∧
      ¬ Forall (λ t, t = MessagePublisher.Fulfilled) (MessagePublisher.tasks fl)
  | MessagePublisher.Resolved =>
      Forall (λ t, t = MessagePublisher.Fulfilled) (MessagePublisher.tasks fl)
  | MessagePublisher.RejectedWith e =>
      MessagePublisher.Rejected e ∈ MessagePublisher.tasks fl
  end.

(** *** Further vocabulary *)

(** The transaction [createTopic] submits. *)
Definition createTopic_tx (operator : option Operator) (memo : string)
  (submitKey : option Key) : Transaction :=
  {| body := TopicCreateTransaction (Topic.operatorPublicKey operator) memo
               submitKey;
     frozen := true;
     signatures := match submitKey with
                   | Some (PrivateKey k) => [k]
                   | _ => []
                   end |}.

(** The topic a call asks the network to delete. *)
Definition deleted_topic (c : SdkCall) : option TopicId :=
  match c with
  | CallExecute tx _ =>
      match body tx with
      | TopicDeleteTransaction t => Some t
      | _ => None
      end
  | _ => None
  end.

(** The batches of all flushes so far, oldest first. *)
Definition batches (p : MessagePublisher.Publisher)
  : list (list MessagePublisher.Entry) :=
  (λ fl, MessagePublisher.array (MessagePublisher.messages fl) p)
    <$> MessagePublisher.flights p.

(** The arrays of the flushes are older than the queue, which is older than
    the next array to come; every flush has one callback for each entry of
    its array. *)
Definition well_formed (p : MessagePublisher.Publisher) : Prop :=
  (MessagePublisher.pendingMessages p < MessagePublisher.next p)%nat ∧
  Forall (λ fl, (MessagePublisher.messages fl
                 < MessagePublisher.pendingMessages p)%nat
                ∧ length (MessagePublisher.tasks fl)
                  = length (MessagePublisher.array
                              (MessagePublisher.messages fl) p))
    (MessagePublisher.flights p).

(** A callback run on its own: its three awaits answered in a row. *)
Definition run_alone (entry : MessagePublisher.Entry) w
  : MessagePublisher.task * World Net :=
  let r1 := MessagePublisher.resume_task (MessagePublisher.start entry) w in
  let r2 := MessagePublisher.resume_task r1.1 r1.2 in
  MessagePublisher.resume_task r2.1 r2.2.

(** The messages among the callbacks of a trace, decoded, in order. *)
Definition received (decode : list Byte.byte → string)
  (trace : list (Z * Subscription.callback)) : list LogEntry :=
  omap (λ ev, match ev.2 with
              | Subscription.OnMessage contents =>
                  Some (console_log ("Received message: " +:+ decode contents))
              | Subscription.OnError _ => None
              end) trace.

(** The accounts the token resolver asks about: the pool up to and
    including the first account that qualifies. *)
Fixpoint scanned (qualifies : Account → bool) (accs : list Account)
  : list Account :=
  match accs with
  | [] => []
  | acc :: rest => acc :: if qualifies acc then [] else scanned qualifies rest
  end.

(** The live queries the promises of the resolver still wait for, and the
    live queries the resolver owes from world [w]: one for each pool account
    without a fresh cache entry, in pool order. *)
Definition awaited_queries (live : AccountId → AccountBalance)
  (slots : list (Account * option number)) : list SdkCall :=
  omap (λ slot, match slot.2 with
                | None => Some (CallBalance (id slot.1)
                                  (Return (live (id slot.1))))
                | Some _ => None
                end) slots.

Definition missed_queries (live : AccountId → AccountBalance)
  (pool : list Account) w : list SdkCall :=
  omap (λ account, match Topic.cache_probe account w with
                   | None => Some (CallBalance (id account)
                                     (Return (live (id account))))
                   | Some _ => None
                   end) pool.

(** The transaction of a batch entry, field by field: a message submission
    to the entry's topic with the entry's message, frozen, and signed with
    the entry's key exactly when it has one. *)
Definition message_submission (entry : MessagePublisher.Entry) : Transaction :=
  {| body := TopicMessageSubmitTransaction (MessagePublisher.topicId entry)
               (MessagePublisher.message entry);
     frozen := true;
     signatures := match MessagePublisher.submitKey entry with
                   | Some key => [key]
                   | None => []
                   end |}.

(** A settled callback and the calls it made, all of them for the
    transaction [tx]: the submission was refused, or it was accepted and the
    receipt failed, or both succeeded. *)
Inductive submission_record (tx : Transaction)
  : list SdkCall → MessagePublisher.task → Prop :=
  | record_refused (e : error) :
      submission_record tx
        [CallExecute tx (Throw e)]
        (MessagePublisher.Rejected e)
  | record_receipt_failed (resp : TransactionResponse) (e : error) :
      submission_record tx
        [CallExecute tx (Return resp); CallReceipt tx resp (Throw e)]
        (MessagePublisher.Rejected e)
  | record_receipted (resp : TransactionResponse) (rc : TransactionReceipt) :
      submission_record tx
        [CallExecute tx (Return resp); CallReceipt tx resp (Return rc)]
        MessagePublisher.Fulfilled.

(** The promise of [Promise.all] of a flight against the promises of its
    callbacks, at any moment: it is rejected as soon as one callback is
    rejected, with the error of a rejected callback, whatever the others are
    doing; it is resolved exactly when every callback is fulfilled; it is
    pending otherwise. *)
Definition settles_early (fl : MessagePublisher.Flight) : Prop :=
  ((∃ e, MessagePublisher.Rejected e ∈ MessagePublisher.tasks fl) ↔
   (∃ e, MessagePublisher.all fl = MessagePublisher.RejectedWith e)) ∧
  (∀ e, MessagePublisher.all fl = MessagePublisher.RejectedWith e →
        MessagePublisher.Rejected e ∈ MessagePublisher.tasks fl) ∧
  (MessagePublisher.all fl = MessagePublisher.Resolved ↔
   Forall (λ t, t = MessagePublisher.Fulfilled) (MessagePublisher.tasks fl)).


End Vocabulary.

(** * Properties *)

Ltac unfold_async :=
  unfold bind, ret, throw, gets, modify, try_catch, now, log, balanceQuery,
    execute, response_getReceipt, PrivateKey_generateED25519 in *.

(** ** The balance cache *)

Section BalanceCache.
Context {Net : Type} `{!Sdk Net}.
Implicit Type w : World Net.

(** What a live lookup does: one query, and on success the answer is stored
    under the account id with the time read after the answer. *)
Lemma live_balance_eq (account : Account) w :
  Topic.live_balance account w =
    let answered := AccountBalanceQuery_execute (id account) (net w) in
    let w' := record_call (CallBalance (id account) answered.1)
                (set_net answered.2 w) in
    match answered.1 with
    | Return res =>
        (Return (hbars res),
         set_balanceCache
           (<[id account := {| balance := hbars res;
                               timestamp := Date_now answered.2 |}]>
              (balanceCache w)) w')
    | Throw e => (Throw e, w')
    end.
Proof.
  unfold Topic.live_balance. unfold_async. simpl.
  destruct (AccountBalanceQuery_execute (id account) (net w)) as [[res|e] n];
    reflexivity.
Qed.

Lemma getHbarBalance_hit (account : Account) w (cached : CacheEntry) :
  balanceCache w !! id account = Some cached →
  Date_now (net w) - timestamp cached < Topic.CACHE_TTL →
  Topic.getHbarBalance account w = (Return (balance cached), w).
Proof.
  intros Hc Hfresh. unfold Topic.getHbarBalance, Topic.cache_probe.
  unfold_async. rewrite Hc. rewrite bool_decide_eq_true_2 by done. reflexivity.
Qed.

Lemma getHbarBalance_expired (account : Account) w (cached : CacheEntry) :
  balanceCache w !! id account = Some cached →
  Topic.CACHE_TTL ≤ Date_now (net w) - timestamp cached →
  Topic.getHbarBalance account w = Topic.live_balance account w.
Proof.
  intros Hc Hold. unfold Topic.getHbarBalance, Topic.cache_probe.
  unfold bind at 1. unfold gets. rewrite Hc.
  rewrite bool_decide_eq_false_2 by lia. reflexivity.
Qed.

Lemma getHbarBalance_absent (account : Account) w :
  balanceCache w !! id account = None →
  Topic.getHbarBalance account w = Topic.live_balance account w.
Proof.
  intros Hc. unfold Topic.getHbarBalance, Topic.cache_probe.
  unfold bind at 1. unfold gets. rewrite Hc. reflexivity.
Qed.


(** Two calls in a row: whatever the first call returned is what a second
    call returns while the stored entry is younger than the TTL, on any
    network state. *)
Lemma getHbarBalance_twice (account : Account) w w1 (b : number) :
  Topic.getHbarBalance account w = (Return b, w1) →
  ∃ cached, balanceCache w1 !! id account = Some cached ∧ balance cached = b ∧
    ∀ w2, balanceCache w2 !! id account = Some cached →
          Date_now (net w2) - timestamp cached < Topic.CACHE_TTL →
          Topic.getHbarBalance account w2 = (Return b, w2).
Proof.
  intros Hfirst.
  assert (∃ cached, balanceCache w1 !! id account = Some cached
                    ∧ balance cached = b) as (cached & Hc & Hb).
  { destruct (balanceCache w !! id account) as [c|] eqn:Hc.
    - destruct (decide (Date_now (net w) - timestamp c < Topic.CACHE_TTL)) as [Hf|Hf].
      + rewrite (getHbarBalance_hit _ _ _ Hc Hf) in Hfirst.
        injection Hfirst as <- <-. eauto.
      + rewrite (getHbarBalance_expired _ _ _ Hc) in Hfirst by lia.
        rewrite live_balance_eq in Hfirst. simpl in Hfirst.
        destruct (AccountBalanceQuery_execute (id account) (net w)) as [[res|e] n];
          simpl in Hfirst; [|discriminate].
        injection Hfirst as <- <-. simpl.
        rewrite lookup_insert_eq. eauto.
    - rewrite (getHbarBalance_absent _ _ Hc) in Hfirst.
      rewrite live_balance_eq in Hfirst. simpl in Hfirst.
      destruct (AccountBalanceQuery_execute (id account) (net w)) as [[res|e] n];
        simpl in Hfirst; [|discriminate].
      injection Hfirst as <- <-. simpl.
      rewrite lookup_insert_eq. eauto. }
  exists cached. split; [done|]. split; [done|].
  intros w2 Hc2 Hfresh. subst b. by apply getHbarBalance_hit.
Qed.

End BalanceCache.


(** ** The token-aware balance query *)

Section TokenBalance.
Context {Net : Type} `{!Sdk Net}.
Implicit Type w : World Net.

Lemma getAccountBalance_eq (account : Account) (token : option TokenId) w :
  Token.getAccountBalance account token w =
    let answered := AccountBalanceQuery_execute (id account) (net w) in
    (match answered.1 with
     | Return res =>
         Return {| Token.hbar := hbars res;
                   Token.tokens := token_amount token res |}
     | Throw e => Throw e
     end,
     record_call (CallBalance (id account) answered.1) (set_net answered.2 w)).
Proof.
  unfold Token.getAccountBalance. unfold_async. simpl.
  destruct (AccountBalanceQuery_execute (id account) (net w)) as [[res|e] n];
    reflexivity.
Qed.

(** C10. Every invocation of the token-aware balance query asks the
    network: one balance query is added to the record of calls, its answer is
    what is returned, the balance cache is left as it was, and the result
    does not depend on what the cache holds.  The hbar lookup of the topic
    steps, on the same world with a fresh entry, makes no call. *)
Theorem getAccountBalance_not_cached (account : Account)
  (token : option TokenId) w :
  let answered := AccountBalanceQuery_execute (id account) (net w) in
  let after := (Token.getAccountBalance account token w).2 in
  calls after = calls w ++ [CallBalance (id account) answered.1] ∧
  balanceCache after = balanceCache w ∧
  (∀ cache : gmap string CacheEntry,
     (Token.getAccountBalance account token (set_balanceCache cache w)).1 =
     (Token.getAccountBalance account token w).1) ∧
  (∀ res, answered.1 = Return res →
     (Token.getAccountBalance account token w).1 =
       Return {| Token.hbar := hbars res;
                 Token.tokens := token_amount token res |}) ∧
  (∀ cached, balanceCache w !! id account = Some cached →
     Date_now (net w) - timestamp cached < 5000 →
     calls (Topic.getHbarBalance account w).2 = calls w).
Proof.
  cbv zeta. rewrite !getAccountBalance_eq. simpl.
  split; [reflexivity|]. split; [reflexivity|].
  split; [intros cache; rewrite getAccountBalance_eq; reflexivity|].
  split.
  - intros res ->. reflexivity.
  - intros cached Hc Hfresh.
    by rewrite (getHbarBalance_hit _ _ _ Hc Hfresh).
Qed.

(** ** Minting beyond the supply *)

(** C6. The mint-fails step submits one transaction, a mint of the token's
    supply plus 100, frozen and signed with the first account's key, and
    asks for its receipt when the submission was accepted.  A
    [ReceiptStatusError] thrown by the submission or by the receipt reaches
    the step, which passes when the status code of the error is 236 and
    fails its assertion for any other code.  An error of any other kind is
    logged and thrown on as it is; a mint that is receipted fails the
    assertion.  The step makes no other call and changes no variable. *)
Theorem then_mint_fails_status_236 w :
  let tx := mint_transaction w in
  let sent := Transaction_execute (token_client w) tx (net w) in
  let r := Token.then_mint_fails w in
  token_vars r.2 = token_vars w ∧ token_client r.2 = token_client w ∧
  client r.2 = client w ∧ context r.2 = context w ∧
  balanceCache r.2 = balanceCache w ∧
  match sent.1 with
  | Throw e =>
      net r.2 = sent.2 ∧
      calls r.2 = calls w ++ [CallExecute tx (Throw e)] ∧
      mint_error_verdict e (console w) r
  | Return resp =>
      let got := getReceipt resp sent.2 in
      net r.2 = got.2 ∧
      calls r.2 = calls w ++ [CallExecute tx (Return resp);
                              CallReceipt tx resp got.1] ∧
      match got.1 with
      | Throw e => mint_error_verdict e (console w) r
      | Return receipt =>
          r.1 = Throw (AssertionError "Expected values to be strictly equal") ∧
          console r.2 = console w
      end
  end.
Proof.
  cbv zeta.
  unfold Token.then_mint_fails, Token.mintTokens, Token.assert_strictEqual_code,
    mint_transaction, mint_error_verdict.
  unfold_async. simpl.
  destruct (Transaction_execute (token_client w) _ (net w)) as [[resp|e] n];
    simpl.
  - destruct (getReceipt resp n) as [[rc|e] n']; simpl.
    + rewrite <- app_assoc. done.
    + destruct e; simpl; rewrite <- ?app_assoc; try done.
      destruct (decide (status_code = 236)) as [->|Hne];
        [rewrite bool_decide_eq_true_2 by done
        |rewrite bool_decide_eq_false_2 by congruence];
        simpl; rewrite <- app_assoc; repeat split; done.
  - destruct e; simpl; try done.
    destruct (decide (status_code = 236)) as [->|Hne];
      [rewrite bool_decide_eq_true_2 by done
      |rewrite bool_decide_eq_false_2 by congruence];
      simpl; repeat split; done.
Qed.

End TokenBalance.

(** On a network that answers the receipt of the mint with status 236 the
    step passes, after one submission and one receipt; with another status
    it fails its assertion. *)
Lemma then_mint_fails_status_236_witness :
  let sdk := Toy.sdk [] in
  let w := Toy.token_world {| Toy.clock := 0; Toy.counter := 1000;
                              Toy.answer := 236 |} 1000 in
  let w' := Toy.token_world {| Toy.clock := 0; Toy.counter := 1000;
                               Toy.answer := 7 |} 1000 in
  let amount := number_add (Number_of_Z 1000) (Number_of_Z 100) in
  let tx := {| body := TokenMintTransaction "0.0.77" amount;
               frozen := true; signatures := ["alice-key"] |} in
  amount = Number_of_Z 1100 ∧
  (Token.then_mint_fails (Sdk0 := sdk) w).1 = Return tt ∧
  calls (Token.then_mint_fails (Sdk0 := sdk) w).2
  = [CallExecute tx (Return {| transactionId := 1000 |});
     CallReceipt tx {| transactionId := 1000 |}
       (Throw (ReceiptStatusError 236))] ∧
  (Token.then_mint_fails (Sdk0 := sdk) w').1
  = Throw (AssertionError "Expected values to be strictly equal").
Proof.
  intros sdk w w' amount tx.
  pose proof (then_mint_fails_status_236 (Sdk0 := sdk) w) as H.
  pose proof (then_mint_fails_status_236 (Sdk0 := sdk) w') as H'.
  cbv zeta in H, H'.
  destruct H as (_ & _ & _ & _ & _ & _ & Hcalls & _ & Hpass & _).
  destruct H' as (_ & _ & _ & _ & _ & _ & _ & _ & _ & Hfail).
  split; [apply Qc_is_canon; vm_compute; reflexivity|].
  split; [exact (Hpass eq_refl)|]. split.
  - rewrite Hcalls. reflexivity.
  - apply Hfail. discriminate.
Defined.

(** ** The account pool resolver *)

Section Resolver.
Context {Net : Type} `{!Sdk Net}.
Implicit Type w : World Net.
Variable pool : list Account.
Variable live : AccountId → AccountBalance.
Hypothesis Hlive : stable_balances live.

Lemma same_bindings_refl w : same_bindings w w.
Proof. by repeat split. Qed.

Lemma same_bindings_trans w1 w2 w3 :
  same_bindings w1 w2 → same_bindings w2 w3 → same_bindings w1 w3.
Proof.
  intros (?&?&?&?) (?&?&?&?). repeat split; congruence.
Qed.

Lemma live_balance_stable (account : Account) w :
  ∃ w', Topic.live_balance account w = (Return (hbars (live (id account))), w')
        ∧ same_bindings w w'.
Proof.
  rewrite live_balance_eq. cbv zeta.
  pose proof (Hlive (id account) (net w)) as Hq.
  destruct (AccountBalanceQuery_execute (id account) (net w)) as [r n].
  simpl in Hq. subst r. simpl. eexists. split; [reflexivity|].
  by repeat split.
Qed.

Lemma filled_nil (j : nat) (slot : Account * option number) :
  filled live [] j slot = slot.
Proof.
  unfold filled. rewrite decide_False by apply not_elem_of_nil.
  by destruct slot.
Qed.

Lemma filled_here (i : nat) (order : list nat) (a : Account) (ob : option number) :
  filled live (i :: order) i (a, ob)
  = (a, Some (default (hbars (live (id a))) ob)).
Proof.
  unfold filled. simpl. rewrite decide_True; [done|].
  apply elem_of_cons. by left.
Qed.

Lemma filled_further (i j : nat) (order : list nat)
  (slot : Account * option number) :
  j ≠ i → filled live (i :: order) j slot = filled live order j slot.
Proof.
  intros Hne. unfold filled. f_equal.
  destruct (decide (j ∈ order)) as [Hin|Hnin].
  - rewrite decide_True; [done|]. apply elem_of_cons. by right.
  - rewrite decide_False; [done|]. intros [?|?]%elem_of_cons; done.
Qed.

Lemma filled_settled (order : list nat) (j : nat) (a : Account) (b : number) :
  filled live order j (a, Some b) = (a, Some b).
Proof. unfold filled. simpl. by destruct (decide (j ∈ order)). Qed.

Lemma arrivals_stable (order : list nat) :
  ∀ (slots : list (Account * option number)) w,
  ∃ slots' w',
    Topic.arrivals order slots w = (Return slots', w') ∧
    same_bindings w w' ∧
    length slots' = length slots ∧
    ∀ j slot, slots !! j = Some slot → slots' !! j = Some (filled live order j slot).
Proof.
  induction order as [|i order IH]; intros slots w.
  - exists slots, w. split; [reflexivity|]. split; [apply same_bindings_refl|].
    split; [reflexivity|]. intros j slot Hj. by rewrite filled_nil.
  - cbn [Topic.arrivals]. unfold bind at 1. unfold Topic.arrive.
    destruct (slots !! i) as [[a [b0|]]|] eqn:Hi.
    + destruct (IH slots w) as (slots' & w' & Hrun & Hsame & Hlen & Hall).
      exists slots', w'. unfold ret at 1. rewrite Hrun.
      split; [reflexivity|]. split; [done|]. split; [done|].
      intros j slot Hj. rewrite (Hall j slot Hj). f_equal.
      destruct (decide (j = i)) as [->|Hne].
      * rewrite Hi in Hj. injection Hj as <-.
        by rewrite filled_here, filled_settled.
      * by rewrite filled_further.
    + destruct (live_balance_stable a w) as (w1 & Hq & Hsame1).
      unfold bind at 1. rewrite Hq. unfold ret at 1.
      destruct (IH (<[i := (a, Some (hbars (live (id a))))]> slots) w1)
        as (slots' & w' & Hrun & Hsame & Hlen & Hall).
      exists slots', w'. rewrite Hrun.
      split; [reflexivity|].
      split; [by eapply same_bindings_trans|].
      split; [by rewrite Hlen, length_insert|].
      intros j slot Hj.
      destruct (decide (j = i)) as [->|Hne].
      * rewrite Hi in Hj. injection Hj as <-.
        rewrite (Hall i (a, Some (hbars (live (id a))))).
        -- by rewrite filled_here, filled_settled.
        -- apply list_lookup_insert_eq. by eapply lookup_lt_Some.
      * rewrite (Hall j slot) by (by rewrite list_lookup_insert_ne).
        by rewrite filled_further.
    + destruct (IH slots w) as (slots' & w' & Hrun & Hsame & Hlen & Hall).
      exists slots', w'. unfold ret at 1. rewrite Hrun.
      split; [reflexivity|]. split; [done|]. split; [done|].
      intros j slot Hj. rewrite (Hall j slot Hj). f_equal.
      assert (j ≠ i) by (intros ->; congruence).
      by rewrite filled_further.
Qed.

Lemma fulfilled_fmap (f : Account → number) (l : list Account) :
  Topic.fulfilled ((λ a, (a, Some (f a))) <$> l) = (λ a, (a, f a)) <$> l.
Proof.
  induction l as [|a l IHl]; [done|].
  unfold Topic.fulfilled in *. cbn. by rewrite IHl.
Qed.

Lemma Promise_all_balances_stable (order : list nat) w :
  ∃ w', Topic.Promise_all_balances pool order w =
          (Return ((λ a, (a, looked_up live w a)) <$> pool), w')
        ∧ same_bindings w w'.
Proof.
  unfold Topic.Promise_all_balances. unfold bind at 1. unfold gets at 1.
  destruct (arrivals_stable (order ++ seq 0 (length pool))
              (Topic.start_all pool w) w)
    as (slots' & w' & Hrun & Hsame & Hlen & Hall).
  exists w'. unfold bind, ret. rewrite Hrun. split; [|done]. f_equal. f_equal.
  assert (slots' = (λ a, (a, Some (looked_up live w a))) <$> pool) as ->.
  { apply list_eq. intros j. unfold Topic.start_all in *.
    rewrite list_lookup_fmap.
    destruct (pool !! j) as [a|] eqn:Hj; simpl.
    - rewrite (Hall j (a, Topic.cache_probe a w))
        by (by rewrite list_lookup_fmap, Hj).
      unfold filled, looked_up. simpl. rewrite decide_True; [done|].
      apply elem_of_app. right. apply elem_of_seq.
      apply lookup_lt_Some in Hj. lia.
    - apply lookup_ge_None. rewrite Hlen, length_fmap.
      by apply lookup_ge_None. }
  apply fulfilled_fmap.
Qed.

Lemma find_fmap_pair (f : Account → number) (m : number) (l : list Account) :
  List.find (λ entry : Account * number, gt entry.2 m) ((λ a, (a, f a)) <$> l)
  = (λ a, (a, f a)) <$> List.find (λ a, gt (f a) m) l.
Proof.
  induction l as [|a l IHl]; [done|]. simpl.
  destruct (gt (f a) m); [done|]. apply IHl.
Qed.

Lemma given_first_account_stable (order : list nat) (minimumBalance : Z) w :
  let r := Topic.given_first_account pool order minimumBalance w in
  match List.find (λ a, gt (looked_up live w a) (Number_of_Z minimumBalance))
          pool with
  | Some account =>
      r.1 = Return tt ∧ client r.2 = Some (as_operator account) ∧
      firstAccount (context r.2) = Some account
  | None =>
      (∃ msg, r.1 = Throw (AssertionError msg)) ∧ client r.2 = client w ∧
      firstAccount (context r.2) = firstAccount (context w)
  end.
Proof.
  cbv zeta. unfold Topic.given_first_account.
  destruct (Promise_all_balances_stable order w) as (w' & Hall & Hs).
  unfold bind. rewrite Hall. rewrite find_fmap_pair.
  destruct Hs as (Hc & Hctx & _ & _).
  destruct (List.find _ pool) as [account|]; simpl.
  - done.
  - unfold throw. simpl. rewrite Hc, Hctx. eauto.
Qed.

Lemma scan_accounts_stable (expectedBalance : Z) (accs : list Account) :
  ∀ w,
  let r := Token.scan_accounts accs expectedBalance w in
  match List.find (λ a, gt (hbars (live (id a))) (Number_of_Z expectedBalance))
          accs with
  | Some account =>
      r.1 = Return tt ∧ token_client r.2 = Some (as_operator account) ∧
      token_firstAccount (token_vars r.2) = account
  | None =>
      (∃ msg, r.1 = Throw (AssertionError msg)) ∧
      token_client r.2 = token_client w ∧ token_vars r.2 = token_vars w
  end.
Proof.
  induction accs as [|acc rest IH]; intros w; cbv zeta.
  - simpl. unfold throw. simpl. eauto.
  - cbn [Token.scan_accounts List.find]. unfold bind.
    rewrite !getAccountBalance_eq. cbv zeta.
    pose proof (Hlive (id acc) (net w)) as Hq.
    destruct (AccountBalanceQuery_execute (id acc) (net w)) as [q n].
    simpl in Hq. subst q. cbn [fst snd Token.hbar].
    destruct (gt (hbars (live (id acc))) (Number_of_Z expectedBalance)).
    + done.
    + apply (IH (record_call _ (set_net n w))).
Qed.

(** C7, as the code has it.  While the network's balances are stable:
    the resolver of the topic steps binds, as operator and first account,
    the first account of the pool whose looked-up balance (the cached
    balance while its cache entry is younger than 5000 ms, the live balance
    otherwise) strictly exceeds the minimum, whatever the order in which the
    queries are answered; the resolver of the token steps does the same with
    the live balance.  When no account qualifies, the step fails with an
    assertion error and binds nothing. *)
Theorem resolver_first_eligible (order : list nat) (minimum : Z) w :
  let topic := Topic.given_first_account pool order minimum w in
  let token := Token.given_account_with_more_than pool minimum w in
  match List.find (λ a, gt (looked_up live w a) (Number_of_Z minimum)) pool with
  | Some account =>
      topic.1 = Return tt ∧ client topic.2 = Some (as_operator account) ∧
      firstAccount (context topic.2) = Some account
  | None =>
      (∃ msg, topic.1 = Throw (AssertionError msg)) ∧
      client topic.2 = client w ∧
      firstAccount (context topic.2) = firstAccount (context w)
  end ∧
  match List.find (λ a, gt (hbars (live (id a))) (Number_of_Z minimum)) pool with
  | Some account =>
      token.1 = Return tt ∧ token_client token.2 = Some (as_operator account) ∧
      token_firstAccount (token_vars token.2) = account
  | None =>
      (∃ msg, token.1 = Throw (AssertionError msg)) ∧
      token_client token.2 = token_client w ∧
      token_vars token.2 = token_vars w
  end.
Proof.
  split.
  - apply given_first_account_stable.
  - apply scan_accounts_stable.
Qed.

End Resolver.

Lemma toy_balances_stable (table : list (string * Z)) :
  stable_balances (Sdk0 := Toy.sdk table) (Toy.live table).
Proof. intros accountId n. reflexivity. Qed.

Lemma resolver_first_eligible_witness :
  let table := [("0.0.1", 5); ("0.0.2", 50)] in
  let pool := [Toy.alice; Toy.bob] in
  let w := Toy.world Toy.net0 in
  stable_balances (Sdk0 := Toy.sdk table) (Toy.live table) ∧
  let topic :=
    Topic.given_first_account (Sdk0 := Toy.sdk table) pool [1%nat] 10 w in
  topic.1 = Return tt ∧ client topic.2 = Some (as_operator Toy.bob) ∧
  firstAccount (context topic.2) = Some Toy.bob.
Proof.
  intros table pool w. split; [apply toy_balances_stable|].
  exact (proj1 (resolver_first_eligible (Sdk0 := Toy.sdk table) pool
                  (Toy.live table) (toy_balances_stable table) [1%nat] 10 w)).
Defined.

(** C7, as stated, fails on the topic steps: alice's live balance is 5, below
    the minimum of 10, but an entry cached 1000 ms ago says 100, and the
    resolver binds alice as operator and first account. *)
Lemma resolver_trusts_cached_balance :
  let sdk := Toy.sdk [("0.0.1", 5)] in
  let w := Toy.cached_world 1000 in
  let step := Topic.given_first_account (Sdk0 := sdk) [Toy.alice] [] 10 w in
  step.1 = Return tt ∧
  client step.2 = Some (as_operator Toy.alice) ∧
  firstAccount (context step.2) = Some Toy.alice ∧
  ∀ res, (AccountBalanceQuery_execute (Sdk := sdk) (id Toy.alice) (net w)).1
           = Return res →
         ¬ (Number_of_Z 10 < hbars res)%Qc.
Proof.
  cbv zeta. split; [vm_compute; reflexivity|].
  split; [vm_compute; reflexivity|]. split; [vm_compute; reflexivity|].
  intros res [= <-] Hlt. vm_compute in Hlt. discriminate.
Qed.

(** ** Resource tracking *)

Section Tracking.
Context {Net : Type} `{!Sdk Net}.
Implicit Type w : World Net.

Lemma created_accounts_app (l1 l2 : list SdkCall) :
  created_accounts (l1 ++ l2) = created_accounts l1 ++ created_accounts l2.
Proof. apply omap_app. Qed.

Lemma created_topics_app (l1 l2 : list SdkCall) :
  created_topics (l1 ++ l2) = created_topics l1 ++ created_topics l2.
Proof. apply omap_app. Qed.

(** [executeTransaction] leaves [context] alone; what its receipt reports
    is what the network created. *)
Lemma executeTransaction_grew (tx : Transaction) w :
  let r := Topic.executeTransaction tx w in
  grew w r.2 (receipt_accounts tx r.1) (receipt_topics tx r.1) [] [] ∧
  client r.2 = client w.
Proof.
  cbv zeta. unfold Topic.executeTransaction, grew. unfold_async. simpl.
  destruct (Transaction_execute (client w) tx (net w)) as [[resp|e] n]; simpl.
  - destruct (getReceipt resp n) as [[rc|e] n']; simpl;
      rewrite ?created_accounts_app, ?created_topics_app, ?app_nil_r, <- ?app_assoc;
      done.
  - rewrite ?created_accounts_app, ?created_topics_app, ?app_nil_r. done.
Qed.

Lemma grew_tracked w w' (na : list AccountId) (nt : list TopicId)
  (ta : list (option AccountId)) (tt : list (option TopicId)) :
  grew w w' na nt ta tt →
  omap (λ i, i) ta = na → omap (λ i, i) tt = nt →
  resources_tracked w → resources_tracked w'.
Proof.
  intros (Ha & Ht & Hra & Hrt) <- <- [Hwa Hwt]. split.
  - by rewrite Hra, Ha, omap_app, Hwa.
  - by rewrite Hrt, Ht, omap_app, Hwt.
Qed.

Ltac execute_transaction t wd rc e w2 Hg Hc :=
  pose proof (executeTransaction_grew t wd) as Hg; cbv zeta in Hg;
  destruct (Topic.executeTransaction t wd) as [[rc|e] w2];
  cbn [fst snd] in Hg; destruct Hg as [Hg Hc].

(** Appending what was created keeps a resource set that held everything
    created so far in that state. *)
Lemma appended_tracked w w' :
  appended_on_creation w w' → resources_tracked w → resources_tracked w'.
Proof.
  intros (ta & tt & Hg & _) Hw. by eapply grew_tracked.
Qed.

Lemma appended_nothing w w' :
  grew w w' [] [] [] [] → appended_on_creation w w'.
Proof. intros Hg. exists [], []. split; [exact Hg|simpl; lia]. Qed.

(** Only the record of calls and the resource set matter. *)
Lemma appended_same w0 w w' w1 :
  calls w0 = calls w → createdResources (context w0) = createdResources (context w) →
  calls w1 = calls w' →
  createdResources (context w1) = createdResources (context w') →
  appended_on_creation w w' → appended_on_creation w0 w1.
Proof.
  intros Hc0 Hr0 Hc1 Hr1 (ta & tt & (Ha & Ht & Hra & Hrt) & Hlen).
  exists ta, tt. split; [|exact Hlen]. unfold grew.
  by rewrite Hc0, Hr0, Hc1, Hr1.
Qed.

Lemma push_account_appended (tx : Transaction) (rc : TransactionReceipt) w w0
  (key : Key) (initialBalance : number) :
  body tx = AccountCreateTransaction key initialBalance →
  grew w w0 (receipt_accounts tx (Return rc)) (receipt_topics tx (Return rc))
    [] [] →
  appended_on_creation w
    (set_context
       (with_createdResources
          (push_account (receipt_accountId rc) (createdResources (context w0)))
          (context w0)) w0).
Proof.
  intros Hbody (Ha & Ht & Hra & Hrt).
  unfold receipt_accounts, receipt_topics in *. simpl in Ha, Ht.
  rewrite Hbody in Ha, Ht.
  exists [receipt_accountId rc], []. split; [|simpl; lia].
  repeat split; simpl.
  - rewrite Ha. by destruct (receipt_accountId rc).
  - by rewrite Ht.
  - by rewrite Hra, app_nil_r.
  - by rewrite Hrt.
Qed.

Lemma push_topic_appended (tx : Transaction) (rc : TransactionReceipt) w w0
  (adminKey : option Key) (memo : string) (submitKey : option Key) :
  body tx = TopicCreateTransaction adminKey memo submitKey →
  grew w w0 (receipt_accounts tx (Return rc)) (receipt_topics tx (Return rc))
    [] [] →
  appended_on_creation w
    (set_context
       (with_createdResources
          (push_topic (receipt_topicId rc) (createdResources (context w0)))
          (context w0)) w0).
Proof.
  intros Hbody (Ha & Ht & Hra & Hrt).
  unfold receipt_accounts, receipt_topics in *. simpl in Ha, Ht.
  rewrite Hbody in Ha, Ht.
  exists [], [receipt_topicId rc]. split; [|simpl; lia].
  repeat split; simpl.
  - by rewrite Ha.
  - rewrite Ht. by destruct (receipt_topicId rc).
  - by rewrite Hra.
  - by rewrite Hrt, app_nil_r.
Qed.

(** A failed transaction created nothing and appends nothing. *)
Lemma failed_appended (tx : Transaction) (e : error) w w0 :
  grew w w0 (receipt_accounts tx (Throw e)) (receipt_topics tx (Throw e))
    [] [] →
  appended_on_creation w w0.
Proof. intros Hg. by apply appended_nothing. Qed.

Lemma createAccountWithHbar_appended (hbarAmount : number) w :
  appended_on_creation w (Topic.createAccountWithHbar hbarAmount w).2.
Proof.
  unfold Topic.createAccountWithHbar.
  unfold bind at 1. unfold PrivateKey_generateED25519.
  destruct (generateED25519 (net w)) as [k n].
  unfold bind at 1.
  execute_transaction
    (build (AccountCreateTransaction (publicKey k) hbarAmount)) (set_net n w)
    rc e w0 Hg Hc.
  - unfold Topic.update_context. unfold_async.
    assert (appended_on_creation (set_net n w)
              (set_context
                 (with_createdResources
                    (push_account (receipt_accountId rc)
                       (createdResources (context w0))) (context w0)) w0)) as Hw'
      by (by eapply (push_account_appended _ rc _ _ (publicKey k) hbarAmount);
          [|exact Hg]).
    destruct (receipt_accountId rc); simpl;
      by eapply (appended_same _ (set_net n w)); [..|exact Hw'].
  - simpl. eapply (appended_same _ (set_net n w)); [done..|].
    by eapply failed_appended.
Qed.

Lemma createTopic_appended (memo : string) (submitKey : option Key) w :
  appended_on_creation w (Topic.createTopic memo submitKey w).2.
Proof.
  unfold Topic.createTopic.
  unfold bind at 1. unfold gets at 1. unfold bind at 1.
  set (tx := match submitKey with
             | Some (PrivateKey k) => sign k _
             | _ => _
             end).
  assert (body tx = TopicCreateTransaction
                      (Topic.operatorPublicKey (client w)) memo submitKey)
    as Hbody by (subst tx; by destruct submitKey as [[]|]).
  clearbody tx.
  execute_transaction tx w rc e w0 Hg Hc.
  - unfold Topic.update_context. unfold_async. simpl.
    by eapply push_topic_appended.
  - simpl. by eapply failed_appended.
Qed.

Lemma log_id_appended (text : string) (i : option string) w w' :
  appended_on_creation w w' →
  appended_on_creation w (Topic.log_id text i w').2.
Proof.
  intros Hw. destruct i; simpl; [|done].
  by eapply (appended_same _ w); [..|exact Hw].
Qed.

Lemma given_second_account_appended (hbarThreshold : Z) w :
  appended_on_creation w (Topic.given_second_account hbarThreshold w).2.
Proof.
  unfold Topic.given_second_account. unfold bind.
  pose proof (createAccountWithHbar_appended (Number_of_Z hbarThreshold) w)
    as Hc.
  destruct (Topic.createAccountWithHbar _ w) as [[a|e] w']; [|done].
  simpl in *. by eapply (appended_same _ w); [..|exact Hc].
Qed.

Lemma when_topic_with_first_account_appended (memo : string) w :
  appended_on_creation w (Topic.when_topic_with_first_account memo w).2.
Proof.
  unfold Topic.when_topic_with_first_account.
  unfold bind at 1. unfold gets at 1.
  destruct (firstAccount (context w)) as [account|].
  2:{ apply appended_nothing. unfold grew. simpl. by rewrite !app_nil_r. }
  unfold bind at 1.
  pose proof (createTopic_appended memo
                (Some (PrivateKey (Topic.getPrivateKey account))) w) as Hc.
  destruct (Topic.createTopic _ _ w) as [[t|e] w']; [|done].
  unfold bind, Topic.update_context, modify. apply log_id_appended.
  simpl in Hc. by eapply (appended_same _ w); [..|exact Hc].
Qed.

Lemma when_topic_with_threshold_key_appended (memo : string) w :
  appended_on_creation w (Topic.when_topic_with_threshold_key memo w).2.
Proof.
  assert (appended_on_creation w w) as Hrefl.
  { apply appended_nothing. unfold grew. by rewrite !app_nil_r. }
  unfold Topic.when_topic_with_threshold_key.
  unfold bind at 1. unfold gets at 1.
  destruct (secondAccount (context w)) as [second|]; [|done].
  destruct (thresholdKey (context w)) as [key|]; [|done].
  unfold bind at 1. unfold gets at 1. unfold bind at 1.
  set (tx := sign _ _).
  assert (body tx = TopicCreateTransaction
                      (Topic.operatorPublicKey (client w)) memo (Some key))
    as Hbody by done.
  clearbody tx.
  execute_transaction tx w rc e w0 Hg Hc.
  - unfold bind, Topic.update_context, modify. apply log_id_appended.
    by eapply (push_topic_appended tx rc w
                 (set_context (with_topicId (receipt_topicId rc) (context w0)) w0)).
  - simpl. by eapply failed_appended.
Qed.

Lemma accountWithHBar_context (hbarAmount : number) w :
  context (Token.accountWithHBar hbarAmount w).2 = context w.
Proof.
  unfold Token.accountWithHBar. unfold_async. simpl.
  destruct (generateED25519 (net w)) as [k n]. simpl.
  destruct (Transaction_execute _ _ n) as [[resp|e] n1]; simpl; [|done].
  destruct (getReceipt resp n1) as [[rc|e] n2]; simpl; [|done].
  by destruct (receipt_accountId rc).
Qed.

(** C8, as the code has it.  On every creation path of
    create-simple-topic.ts ([createAccountWithHbar], [createTopic], and the
    steps that create the second account, the topic with the first account
    as submit key and the threshold-key topic), from any world: the
    identifiers that the receipts of the call report as created are exactly
    what the call appends to the resource set of [context], at the end of the
    set and in order, and nothing already in the set is touched.  This holds
    whatever the set held before, so also after a teardown has emptied it.
    The account creation of the token steps leaves [context] as it was. *)
Theorem topic_creations_tracked w (hbarAmount : number) (hbarThreshold : Z)
  (memo : string) (submitKey : option Key) :
  appended_on_creation w (Topic.createAccountWithHbar hbarAmount w).2 ∧
  appended_on_creation w (Topic.createTopic memo submitKey w).2 ∧
  appended_on_creation w (Topic.given_second_account hbarThreshold w).2 ∧
  appended_on_creation w (Topic.when_topic_with_first_account memo w).2 ∧
  appended_on_creation w (Topic.when_topic_with_threshold_key memo w).2 ∧
  context (Token.accountWithHBar hbarAmount w).2 = context w.
Proof.
  split; [apply createAccountWithHbar_appended|].
  split; [apply createTopic_appended|].
  split; [apply given_second_account_appended|].
  split; [apply when_topic_with_first_account_appended|].
  split; [apply when_topic_with_threshold_key_appended|].
  apply accountWithHBar_context.
Qed.

End Tracking.

(** With alice bound as operator, after a teardown that emptied the
    resource set: the set no longer holds what the network has reported as
    created, and the next topic is appended to it all the same. *)
Lemma topic_creations_tracked_witness :
  let sdk := Toy.sdk [] in
  let w := Toy.world_after_teardown in
  let r := Topic.createTopic (Sdk0 := sdk) "memo" None w in
  client w = Some Toy.operator_alice ∧
  created_topics (calls w) = ["0.0.1000"] ∧
  topics (createdResources (context w)) = [] ∧
  appended_on_creation w r.2 ∧
  created_topics (calls r.2) = ["0.0.1000"; "0.0.1004"] ∧
  topics (createdResources (context r.2)) = [Some "0.0.1004"].
Proof.
  intros sdk w r.
  split; [vm_compute; reflexivity|]. split; [vm_compute; reflexivity|].
  split; [vm_compute; reflexivity|]. split.
  - exact (proj1 (proj2 (topic_creations_tracked (Sdk0 := sdk) w
                           (Number_of_Z 10) 10 "memo" None))).
  - split; vm_compute; reflexivity.
Defined.

(** C8, as stated, fails on the token steps: with alice bound as operator,
    [accountWithHBar] creates the account 0.0.1001, which the receipt
    reports, and no resource set records it. *)
Lemma accountWithHBar_not_tracked :
  let sdk := Toy.sdk [] in
  let w := Toy.operated_world Toy.net0 in
  let r := Token.accountWithHBar (Sdk0 := sdk) (Number_of_Z 10) w in
  token_client w = Some Toy.operator_alice ∧
  r.1 = Return {| id := "0.0.1001"; privateKey := "key-1000" |} ∧
  created_accounts (calls r.2) = ["0.0.1001"] ∧
  accounts (createdResources (context r.2)) = [] ∧
  ¬ appended_on_creation w r.2.
Proof.
  cbv zeta. split; [vm_compute; reflexivity|].
  split; [vm_compute; reflexivity|].
  split; [vm_compute; reflexivity|]. split; [vm_compute; reflexivity|].
  intros (ta & tt & (Ha & _ & Hra & _) & _).
  assert (ta = []) as ->.
  { vm_compute in Hra. by destruct ta. }
  vm_compute in Ha. discriminate.
Qed.

(** ** The subscription matcher *)

Section Matcher.
Variable Buffer_toString : list Byte.byte → string.
Variable expectedMessage : string.

Abbreviation subscribe := (Subscription.subscribeToTopic).
Abbreviation deliver :=
  (Subscription.deliver Buffer_toString expectedMessage).
Abbreviation advance := (Subscription.advance expectedMessage).
Abbreviation run := (Subscription.run Buffer_toString expectedMessage).

Lemma on_message_match (contents : list Byte.byte) (s : Subscription.State) :
  Subscription.wait s = Subscription.Pending →
  Buffer_toString contents = expectedMessage →
  let s' := Subscription.on_message Buffer_toString expectedMessage contents s in
  Subscription.wait s' = Subscription.Resolved ∧
  Subscription.timeoutId s' =
    match Subscription.timeoutId s with
    | Subscription.Armed _ => Subscription.Cleared
    | t => t
    end ∧
  Subscription.live s' = false.
Proof.
  intros Hwait Hmatch. cbv zeta. unfold Subscription.on_message.
  rewrite bool_decide_eq_true_2 by done.
  unfold Subscription.settle. simpl. rewrite Hwait. simpl. done.
Qed.

Lemma on_message_other (contents : list Byte.byte) (s : Subscription.State) :
  Buffer_toString contents ≠ expectedMessage →
  Subscription.on_message Buffer_toString expectedMessage contents s
  = Subscription.console_log_received (Buffer_toString contents) s.
Proof.
  intros Hne. unfold Subscription.on_message.
  by rewrite bool_decide_eq_false_2.
Qed.

Lemma advance_before (t deadline : Z) (s : Subscription.State) :
  Subscription.timeoutId s = Subscription.Armed deadline → t < deadline →
  advance t s = s.
Proof.
  intros Ht Hlt. unfold Subscription.advance. rewrite Ht.
  by rewrite bool_decide_eq_false_2 by lia.
Qed.

Lemma settle_settled (outcome : Subscription.promise) (s : Subscription.State) :
  Subscription.wait s ≠ Subscription.Pending →
  Subscription.wait (Subscription.settle outcome s) = Subscription.wait s.
Proof.
  intros Hs. unfold Subscription.settle.
  by destruct (Subscription.wait s) eqn:Hw.
Qed.

(** Once the wait is settled no callback changes its outcome. *)
Lemma deliver_settled (ev : Z * Subscription.callback) (s : Subscription.State) :
  Subscription.wait s ≠ Subscription.Pending →
  Subscription.wait (deliver ev s) = Subscription.wait s.
Proof.
  intros Hs. unfold Subscription.deliver.
  assert (Subscription.wait (advance ev.1 s) = Subscription.wait s) as Ha.
  { unfold Subscription.advance. destruct (Subscription.timeoutId s); try done.
    case_bool_decide; [|done]. unfold Subscription.on_timeout.
    by rewrite settle_settled. }
  destruct ev.2 as [contents|e].
  - unfold Subscription.on_message. case_bool_decide.
    + rewrite settle_settled; simpl; by rewrite Ha.
    + simpl. by rewrite Ha.
  - unfold Subscription.on_error. rewrite settle_settled; simpl; by rewrite Ha.
Qed.

Abbreviation timeout_error := (Subscription.timeout_error expectedMessage).

Abbreviation waiting_or_timed_out :=
  (Subscription.waiting_or_timed_out expectedMessage).

Lemma run_settled (trace : list (Z * Subscription.callback)) :
  ∀ s : Subscription.State,
  Subscription.wait s ≠ Subscription.Pending →
  Subscription.wait (run trace s) = Subscription.wait s.
Proof.
  induction trace as [|ev trace IH]; intros s Hs; [done|].
  cbn [Subscription.run foldl].
  rewrite <- (deliver_settled ev s Hs). apply IH.
  by rewrite deliver_settled.
Qed.

Lemma advance_due (t deadline : Z) (s : Subscription.State) :
  waiting_or_timed_out deadline s → deadline ≤ t →
  Subscription.wait (advance t s) = Subscription.Rejected timeout_error.
Proof.
  intros [[Hw Ht]|Hw] Hdue.
  - unfold Subscription.advance. rewrite Ht.
    rewrite bool_decide_eq_true_2 by lia.
    unfold Subscription.on_timeout, Subscription.settle. simpl. by rewrite Hw.
  - unfold Subscription.advance. destruct (Subscription.timeoutId s); try done.
    case_bool_decide; [|done]. unfold Subscription.on_timeout.
    rewrite settle_settled; simpl; by rewrite Hw.
Qed.

Lemma deliver_without_match (deadline t : Z) (cb : Subscription.callback)
  (s : Subscription.State) :
  waiting_or_timed_out deadline s →
  (t < deadline →
     ∃ contents, cb = Subscription.OnMessage contents
                 ∧ Buffer_toString contents ≠ expectedMessage) →
  waiting_or_timed_out deadline (deliver (t, cb) s).
Proof.
  intros Hs Hev. destruct (decide (t < deadline)) as [Hlt|Hge].
  - destruct Hs as [[Hw Ht]|Hw].
    + destruct (Hev Hlt) as (contents & -> & Hne). left.
      unfold Subscription.deliver. cbn [fst snd].
      rewrite (advance_before t deadline s Ht Hlt).
      by rewrite on_message_other.
    + right. rewrite deliver_settled; rewrite Hw; done.
  - right. unfold Subscription.deliver. cbn [fst snd].
    pose proof (advance_due t deadline s Hs ltac:(lia)) as Ha.
    destruct cb as [contents|e].
    + unfold Subscription.on_message. case_bool_decide.
      * rewrite settle_settled; simpl; rewrite Ha; done.
      * simpl. by rewrite Ha.
    + unfold Subscription.on_error.
      rewrite settle_settled; simpl; rewrite Ha; done.
Qed.

Lemma run_without_match (deadline : Z)
  (trace : list (Z * Subscription.callback)) :
  ∀ s : Subscription.State,
  waiting_or_timed_out deadline s →
  (∀ t cb, (t, cb) ∈ trace → t < deadline →
     ∃ contents, cb = Subscription.OnMessage contents
                 ∧ Buffer_toString contents ≠ expectedMessage) →
  waiting_or_timed_out deadline (run trace s).
Proof.
  induction trace as [|[t cb] trace IH]; intros s Hs Hevents; [done|].
  cbn [Subscription.run foldl]. apply IH.
  - apply deliver_without_match; [done|].
    apply Hevents, elem_of_cons. by left.
  - intros t' cb' Hin. apply Hevents, elem_of_cons. by right.
Qed.

(** Before the deadline, non-matching messages leave the wait pending. *)
Lemma run_before_deadline (deadline : Z)
  (trace : list (Z * Subscription.callback)) :
  ∀ s : Subscription.State,
  Subscription.wait s = Subscription.Pending →
  Subscription.timeoutId s = Subscription.Armed deadline →
  (∀ t cb, (t, cb) ∈ trace →
     t < deadline ∧
     ∃ contents, cb = Subscription.OnMessage contents
                 ∧ Buffer_toString contents ≠ expectedMessage) →
  Subscription.wait (run trace s) = Subscription.Pending ∧
  Subscription.timeoutId (run trace s) = Subscription.Armed deadline ∧
  Subscription.live (run trace s) = Subscription.live s.
Proof.
  induction trace as [|[t cb] trace IH]; intros s Hw Ht Hevents; [done|].
  cbn [Subscription.run foldl].
  destruct (Hevents t cb) as (Hlt & contents & -> & Hne);
    [apply elem_of_cons; by left|].
  assert (deliver (t, Subscription.OnMessage contents) s
          = Subscription.console_log_received (Buffer_toString contents) s)
    as Hd.
  { unfold Subscription.deliver. cbn [fst snd].
    rewrite (advance_before t deadline s Ht Hlt). by apply on_message_other. }
  rewrite Hd.
  destruct (IH (Subscription.console_log_received (Buffer_toString contents) s))
    as (Hw' & Ht' & Hl'); [done|done| |done].
  intros t' cb' Hin. apply Hevents, elem_of_cons. by right.
Qed.

Lemma settle_pending (outcome : Subscription.promise) (s : Subscription.State) :
  Subscription.wait s = Subscription.Pending →
  Subscription.wait (Subscription.settle outcome s) = outcome.
Proof. intros Hs. unfold Subscription.settle. by rewrite Hs. Qed.

(** As long as the wait is pending its timer is set. *)
Lemma deliver_pending (deadline : Z) (ev : Z * Subscription.callback)
  (s : Subscription.State) :
  (Subscription.wait s = Subscription.Pending →
   Subscription.timeoutId s = Subscription.Armed deadline) →
  Subscription.wait (deliver ev s) = Subscription.Pending →
  Subscription.timeoutId (deliver ev s) = Subscription.Armed deadline.
Proof.
  intros Hinv Hp.
  assert (Subscription.wait s = Subscription.Pending
          ∨ Subscription.wait s ≠ Subscription.Pending) as [Hw|Hw]
    by (destruct (Subscription.wait s); [left|right|right]; done).
  2:{ by rewrite deliver_settled in Hp. }
  specialize (Hinv Hw). destruct ev as [t cb].
  destruct (decide (t < deadline)) as [Hlt|Hge].
  - unfold Subscription.deliver in *. cbn [fst snd] in *.
    rewrite (advance_before t deadline s Hinv Hlt) in *.
    destruct cb as [contents|e].
    + unfold Subscription.on_message in *. case_bool_decide; [|done].
      rewrite settle_pending in Hp by done. discriminate.
    + unfold Subscription.on_error in *.
      rewrite settle_pending in Hp by done. discriminate.
  - pose proof (deliver_without_match deadline t cb s (or_introl (conj Hw Hinv))
                  ltac:(intros; lia)) as [[Hw' Ht']|Hw']; [done|].
    rewrite Hw' in Hp. discriminate.
Qed.

Lemma run_pending (deadline : Z) (trace : list (Z * Subscription.callback)) :
  ∀ s : Subscription.State,
  (Subscription.wait s = Subscription.Pending →
   Subscription.timeoutId s = Subscription.Armed deadline) →
  Subscription.wait (run trace s) = Subscription.Pending →
  Subscription.timeoutId (run trace s) = Subscription.Armed deadline.
Proof.
  induction trace as [|ev trace IH]; intros s Hinv Hp; [by apply Hinv|].
  cbn [Subscription.run foldl] in *. apply IH; [|done].
  by apply deliver_pending.
Qed.

End Matcher.

Section MatcherOutcomes.
Variable Buffer_toString : list Byte.byte → string.
Variable expectedMessage : string.

(** C2. While the wait is pending and the deadline has not passed, a
    message whose decoded payload equals the expected string resolves the
    wait, clears the timer and unsubscribes; any other message is logged and
    changes nothing else, so the wait stays pending.  The deadline is the
    start time plus the timeout, 10000 ms when none is given: when every
    callback before the deadline is a non-matching message, the wait is
    still pending at any time before the deadline and is rejected with the
    timeout error once the deadline is reached; and whatever was delivered,
    a wait that is still pending when the deadline is reached is rejected
    with the timeout error. *)
Theorem matcher_message_or_timeout :
  (∀ (s : Subscription.State) (t deadline : Z) (contents : list Byte.byte),
     Subscription.wait s = Subscription.Pending →
     Subscription.timeoutId s = Subscription.Armed deadline →
     t < deadline →
     let s' := Subscription.deliver Buffer_toString expectedMessage
                 (t, Subscription.OnMessage contents) s in
     (Buffer_toString contents = expectedMessage →
        Subscription.wait s' = Subscription.Resolved ∧
        Subscription.timeoutId s' = Subscription.Cleared ∧
        Subscription.live s' = false) ∧
     (Buffer_toString contents ≠ expectedMessage →
        Subscription.wait s' = Subscription.Pending ∧
        Subscription.timeoutId s' = Subscription.Armed deadline ∧
        Subscription.live s' = Subscription.live s ∧
        Subscription.console s' =
          Subscription.console s ++
            [console_log ("Received message: " +:+ Buffer_toString contents)])) ∧
  (∀ (start : Z) (timeout : option Z)
     (trace : list (Z * Subscription.callback)) (t_end : Z),
     let deadline := start + default 10000 timeout in
     let s := Subscription.run Buffer_toString expectedMessage trace
                (Subscription.subscribeToTopic start timeout) in
     (∀ t cb, (t, cb) ∈ trace → t < deadline →
        ∃ contents, cb = Subscription.OnMessage contents
                    ∧ Buffer_toString contents ≠ expectedMessage) →
     (deadline ≤ t_end →
        Subscription.wait (Subscription.advance expectedMessage t_end s)
        = Subscription.Rejected
            (Error ("Timeout waiting for message: " +:+ expectedMessage))) ∧
     ((∀ t cb, (t, cb) ∈ trace → t < deadline) → t_end < deadline →
        Subscription.wait (Subscription.advance expectedMessage t_end s)
        = Subscription.Pending)) ∧
  (∀ (start : Z) (timeout : option Z)
     (trace : list (Z * Subscription.callback)) (t_end : Z),
     let s := Subscription.run Buffer_toString expectedMessage trace
                (Subscription.subscribeToTopic start timeout) in
     Subscription.wait s = Subscription.Pending →
     start + default 10000 timeout ≤ t_end →
     Subscription.wait (Subscription.advance expectedMessage t_end s)
     = Subscription.Rejected
         (Error ("Timeout waiting for message: " +:+ expectedMessage))).
Proof.
  split; [|split].
  - intros s t deadline contents Hw Ht Hlt. cbv zeta.
    unfold Subscription.deliver. cbn [fst snd].
    rewrite (advance_before expectedMessage t deadline s Ht Hlt). split.
    + intros Hm.
      destruct (on_message_match Buffer_toString expectedMessage contents s Hw Hm)
        as (H1 & H2 & H3).
      rewrite Ht in H2. done.
    + intros Hne. by rewrite on_message_other.
  - intros start timeout trace t_end. cbv zeta. intros Hevents. split.
    + intros Hdue.
      apply (advance_due expectedMessage t_end
               (start + default 10000 timeout)); [|done].
      apply run_without_match; [by left|done].
    + intros Hall Hlt.
      destruct (run_before_deadline Buffer_toString expectedMessage
                  (start + default 10000 timeout) trace
                  (Subscription.subscribeToTopic start timeout))
        as (Hw & Ht & _); [done|done| |].
      * intros t cb Hin. split; [by eapply Hall|].
        eapply Hevents; [done|by eapply Hall].
      * by rewrite (advance_before expectedMessage t_end _ _ Ht Hlt).
  - intros start timeout trace t_end. cbv zeta. intros Hw Hdue.
    apply (advance_due expectedMessage t_end
             (start + default 10000 timeout)); [|done].
    left. split; [done|].
    by apply (run_pending Buffer_toString expectedMessage).
Qed.

(** C1, on the code.  When the subscription's error handler runs, the timer
    is cleared and the wait is rejected with the error, but [unsubscribe] is
    not called: the subscription handle is still live.  On a match it is
    not. *)
Theorem subscription_error_keeps_subscription :
  ∀ (start t : Z) (timeout : option Z) (e : error) (contents : list Byte.byte),
    t < start + default 10000 timeout →
    let opened := Subscription.subscribeToTopic start timeout in
    let failed := Subscription.deliver Buffer_toString expectedMessage
                    (t, Subscription.OnError e) opened in
    let matched := Subscription.deliver Buffer_toString expectedMessage
                     (t, Subscription.OnMessage contents) opened in
    (Subscription.wait failed = Subscription.Rejected e ∧
     Subscription.timeoutId failed = Subscription.Cleared ∧
     Subscription.live failed = true) ∧
    (Buffer_toString contents = expectedMessage →
     Subscription.wait matched = Subscription.Resolved ∧
     Subscription.live matched = false).
Proof.
  intros start t timeout e contents Hlt. cbv zeta.
  unfold Subscription.deliver. cbn [fst snd].
  rewrite !(advance_before expectedMessage t (start + default 10000 timeout));
    [|done..].
  split; [done|]. intros Hm.
  by destruct (on_message_match Buffer_toString expectedMessage contents
                 (Subscription.subscribeToTopic start timeout) eq_refl Hm)
    as (H1 & H2 & H3).
Qed.

End MatcherOutcomes.

(** The failing run of C1: the stream reports an error 100 ms after the
    subscription was opened. *)
Lemma subscription_error_keeps_subscription_witness :
  let failed :=
    Subscription.deliver String.string_of_list_byte "hello"
      (100, Subscription.OnError (Error "stream closed"))
      (Subscription.subscribeToTopic 0 None) in
  100 < 0 + default 10000 None ∧
  Subscription.wait failed = Subscription.Rejected (Error "stream closed") ∧
  Subscription.timeoutId failed = Subscription.Cleared ∧
  Subscription.live failed = true.
Proof.
  cbv zeta. split; [done|].
  exact (proj1 (subscription_error_keeps_subscription
                  String.string_of_list_byte "hello" 0 100 None
                  (Error "stream closed") [] ltac:(done))).
Defined.

(** ** The message publisher *)

Section Publisher.
Context {Net : Type} `{!Sdk Net}.
Implicit Type w : World Net.
Implicit Type p : MessagePublisher.Publisher.
Implicit Type s : World Net * MessagePublisher.Publisher.

Import MessagePublisher.

Lemma queue_push (entry : Entry) p : queue (push entry p) = queue p ++ [entry].
Proof. unfold queue, array, push. simpl. by rewrite lookup_insert_eq. Qed.

Lemma queue_flushMessages p : queue (flushMessages p) = [].
Proof. unfold queue, array, flushMessages. simpl. by rewrite lookup_insert_eq. Qed.

Lemma flights_publish (entry : Entry) p :
  ∃ more, flights (publish entry p) = flights p ++ more.
Proof.
  unfold publish. case_bool_decide.
  - eexists [_]. reflexivity.
  - exists []. by rewrite app_nil_r.
Qed.

(** Between two resumptions of its own a callback is not touched. *)
Lemma step_task (f i : nat) (ev : event) s (fl : Flight) (t : task) :
  flights s.2 !! f = Some fl → tasks fl !! i = Some t →
  ∃ fl' t',
    flights (step ev s).2 !! f = Some fl' ∧ tasks fl' !! i = Some t' ∧
    length (tasks fl') = length (tasks fl) ∧ messages fl' = messages fl ∧
    match ev with
    | Resume f' i' =>
        if bool_decide (f' = f ∧ i' = i)
        then (t', (step ev s).1) = resume_task t s.1
        else t' = t
    | _ => t' = t
    end.
Proof.
  intros Hf Hi. destruct s as [w p]. simpl in Hf.
  destruct ev as [entry| |f' i']; simpl.
  - destruct (flights_publish entry p) as [more ->].
    exists fl, t. rewrite lookup_app_l by (by eapply lookup_lt_Some). done.
  - exists fl, t. rewrite lookup_app_l by (by eapply lookup_lt_Some). done.
  - destruct (flights p !! f') as [fl0|] eqn:Hf'.
    2:{ exists fl, t. simpl. rewrite Hf. repeat split; try done.
        case_bool_decide as Hc; [|done].
        destruct Hc as [-> ->]. congruence. }
    destruct (tasks fl0 !! i') as [t0|] eqn:Hi'.
    2:{ exists fl, t. simpl. rewrite Hf. repeat split; try done.
        case_bool_decide as Hc; [|done].
        destruct Hc as [-> ->]. congruence. }
    destruct (resume_task t0 w) as [t0' w'] eqn:Hr. simpl.
    destruct (decide (f' = f)) as [->|Hnf].
    + assert (fl0 = fl) as -> by congruence.
      rewrite list_lookup_insert_eq by (by eapply lookup_lt_Some).
      destruct (decide (i' = i)) as [->|Hni].
      * assert (t0 = t) as -> by congruence.
        eexists _, t0'. split; [reflexivity|]. simpl.
        rewrite list_lookup_insert_eq by (by eapply lookup_lt_Some).
        rewrite length_insert. repeat split; try done.
        rewrite bool_decide_eq_true_2 by done. done.
      * eexists _, t. split; [reflexivity|]. simpl.
        rewrite list_lookup_insert_ne by done.
        rewrite length_insert. repeat split; try done.
        rewrite bool_decide_eq_false_2 by (intros [? ?]; done). done.
    + exists fl, t. rewrite list_lookup_insert_ne by done.
      repeat split; try done.
      rewrite bool_decide_eq_false_2 by (intros [? ?]; done). done.
Qed.

Lemma new_calls_app w w' (more : list SdkCall) :
  calls w' = calls w ++ more → new_calls w w' = more.
Proof. intros Hc. unfold new_calls. rewrite Hc. apply drop_app_length. Qed.

(** One resumption takes a callback one await further, with the calls of
    that stretch of code and no others. *)
Lemma resume_task_progress (entry : Entry) (own : list SdkCall) (t : task) w :
  in_progress entry own t →
  let r := resume_task t w in
  in_progress entry (own ++ new_calls w r.2) r.1 ∧
  (3 `min` S (stage t) ≤ stage r.1)%nat.
Proof.
  intros Hin. cbv zeta. destruct t as [tx key topic|tx topic|tx resp topic| |e];
    simpl in Hin |- *.
  - destruct Hin as (-> & -> & Hkey).
    rewrite (new_calls_app w w []) by (by rewrite app_nil_r).
    split; [|lia]. split; [done|]. unfold final_tx. by rewrite Hkey.
  - destruct Hin as (-> & ->). unfold execute.
    destruct (Transaction_execute (client w) (final_tx entry) (net w))
      as [[resp|e] n]; simpl.
    + rewrite (new_calls_app _ _ [CallExecute (final_tx entry) (Return resp)])
        by done.
      split; [done|lia].
    + rewrite (new_calls_app _ _ [CallExecute (final_tx entry) (Throw e)])
        by done.
      split; [constructor|lia].
  - destruct Hin as (-> & ->). unfold response_getReceipt.
    destruct (getReceipt resp (net w)) as [[rc|e] n]; simpl.
    + rewrite (new_calls_app _ _
                 [CallReceipt (final_tx entry) resp (Return rc)]) by done.
      split; [constructor|lia].
    + rewrite (new_calls_app _ _
                 [CallReceipt (final_tx entry) resp (Throw e)]) by done.
      split; [constructor|lia].
  - rewrite (new_calls_app w w []) by (by rewrite app_nil_r).
    rewrite app_nil_r. split; [done|lia].
  - rewrite (new_calls_app w w []) by (by rewrite app_nil_r).
    rewrite app_nil_r. split; [done|lia].
Qed.

(** Whatever else happens, callback [i] of flight [f] advances by one await
    at each of its resumptions and makes the calls of its own entry. *)
Lemma run_task (f i : nat) (entry : Entry) (evs : list event) :
  ∀ s (fl : Flight) (t : task) (own : list SdkCall),
  flights s.2 !! f = Some fl → tasks fl !! i = Some t →
  in_progress entry own t →
  ∃ fl' t',
    flights (run evs s).2 !! f = Some fl' ∧ tasks fl' !! i = Some t' ∧
    length (tasks fl') = length (tasks fl) ∧ messages fl' = messages fl ∧
    in_progress entry (own ++ own_calls f i evs s) t' ∧
    (3 `min` (stage t + resumes f i evs) ≤ stage t')%nat.
Proof.
  induction evs as [|ev evs IH]; intros s fl t own Hf Hi Hin.
  - exists fl, t. cbn [run foldl own_calls resumes]. rewrite app_nil_r.
    split; [done|]. split; [done|]. split; [done|]. split; [done|].
    split; [done|lia].
  - destruct (step_task f i ev s fl t Hf Hi)
      as (fl1 & t1 & Hf1 & Hi1 & Hlen1 & Hm1 & Hev).
    assert (in_progress entry
              (own ++ match ev with
                      | Resume f' i' =>
                          if bool_decide (f' = f ∧ i' = i)
                          then new_calls s.1 (step ev s).1 else []
                      | _ => []
                      end) t1
            ∧ (3 `min` (stage t + match ev with
                                  | Resume f' i' =>
                                      if bool_decide (f' = f ∧ i' = i)
                                      then 1 else 0
                                  | _ => 0
                                  end) ≤ stage t1)%nat) as [Hin1 Hst1].
    { destruct ev as [e0| |f' i']; try (subst t1; rewrite app_nil_r; split; [done|lia]).
      case_bool_decide.
      - pose proof (resume_task_progress entry own t s.1 Hin) as Hp.
        cbv zeta in Hp. rewrite <- Hev in Hp. cbn [fst snd] in Hp.
        destruct Hp as [Hp1 Hp2]. split; [done|lia].
      - subst t1. rewrite app_nil_r. split; [done|lia]. }
    destruct (IH (step ev s) fl1 t1 _ Hf1 Hi1 Hin1)
      as (fl' & t' & Hf' & Hi' & Hlen' & Hm' & Hin' & Hst').
    exists fl', t'. cbn [run foldl own_calls resumes].
    split; [exact Hf'|]. split; [done|]. split; [congruence|].
    split; [congruence|]. split.
    + rewrite app_assoc. exact Hin'.
    + destruct ev as [e0| |f' i']; lia.
Qed.

Lemma step_flight (f : nat) (ev : event) s (fl : Flight) :
  flights s.2 !! f = Some fl →
  ∃ fl', flights (step ev s).2 !! f = Some fl' ∧
         length (tasks fl') = length (tasks fl) ∧ messages fl' = messages fl.
Proof.
  intros Hf. destruct s as [w p]. simpl in Hf.
  destruct ev as [entry| |f' i']; simpl.
  - destruct (flights_publish entry p) as [more ->].
    exists fl. rewrite lookup_app_l by (by eapply lookup_lt_Some). done.
  - exists fl. rewrite lookup_app_l by (by eapply lookup_lt_Some). done.
  - destruct (flights p !! f') as [fl0|] eqn:Hf'; [|by exists fl].
    destruct (tasks fl0 !! i') as [t0|] eqn:Hi'; [|by exists fl].
    destruct (resume_task t0 w) as [t0' w'] eqn:Hr. simpl.
    destruct (decide (f' = f)) as [->|Hnf].
    + assert (fl0 = fl) as -> by congruence.
      rewrite list_lookup_insert_eq by (by eapply lookup_lt_Some).
      eexists. split; [reflexivity|]. simpl. by rewrite length_insert.
    + exists fl. by rewrite list_lookup_insert_ne.
Qed.

Lemma run_flight (f : nat) (evs : list event) :
  ∀ s (fl : Flight),
  flights s.2 !! f = Some fl →
  ∃ fl', flights (run evs s).2 !! f = Some fl' ∧
         length (tasks fl') = length (tasks fl) ∧ messages fl' = messages fl.
Proof.
  induction evs as [|ev evs IH]; intros s fl Hf; [by exists fl|].
  destruct (step_flight f ev s fl Hf) as (fl1 & Hf1 & Hlen1 & Hm1).
  destruct (IH (step ev s) fl1 Hf1) as (fl' & Hf' & Hlen' & Hm').
  exists fl'. cbn [run foldl]. split; [exact Hf'|]. split; congruence.
Qed.

Lemma in_progress_start (entry : Entry) : in_progress entry [] (start entry).
Proof.
  unfold start.
  destruct (submitKey entry) as [key|] eqn:Hkey; simpl;
    unfold final_tx; rewrite ?Hkey; done.
Qed.

Lemma flushMessages_flight p :
  flights (flushMessages p) !! length (flights p)
  = Some {| messages := next p; tasks := start <$> queue p;
            all := Promise_all (start <$> queue p) |}.
Proof.
  unfold flushMessages. simpl. rewrite lookup_app_r by done.
  by rewrite Nat.sub_diag.
Qed.

Lemma forallb_is_fulfilled (ts : list task) :
  forallb is_fulfilled ts = true ↔ Forall (λ t, t = Fulfilled) ts.
Proof.
  induction ts as [|t ts IH]; simpl.
  - split; [constructor|done].
  - rewrite andb_true_iff, IH, Forall_cons.
    destruct t; simpl; split; intros [? ?]; split; done.
Qed.

Lemma Promise_all_consistent (ts : list task) (n : nat) :
  Forall (λ t, ∀ e, t ≠ Rejected e) ts →
  all_consistent {| messages := n; tasks := ts; all := Promise_all ts |}.
Proof.
  intros Hnone. unfold all_consistent, Promise_all. simpl.
  destruct (forallb is_fulfilled ts) eqn:Hall.
  - by apply forallb_is_fulfilled.
  - split; [done|]. rewrite <- forallb_is_fulfilled. congruence.
Qed.

(** A resumption keeps [Promise.all] in step with its promises. *)
Lemma settle_all_consistent (fl : Flight) (i : nat) (t t' : task) :
  tasks fl !! i = Some t →
  (t = Fulfilled → t' = Fulfilled) →
  (∀ e, t = Rejected e → t' = Rejected e) →
  all_consistent fl →
  all_consistent
    {| messages := messages fl; tasks := <[i := t']> (tasks fl);
       all := settle_all t' (<[i := t']> (tasks fl)) (all fl) |}.
Proof.
  intros Hi Hful Hrej. unfold all_consistent. simpl.
  assert (i < length (tasks fl))%nat as Hlt by (by eapply lookup_lt_Some).
  destruct (all fl) as [| |e].
  - intros [Hnone Hsome].
    assert (∀ e, t' = Rejected e → Rejected e ∈ <[i := t']> (tasks fl)) as Hin.
    { intros e ->. by apply list_elem_of_insert. }
    assert ((∀ e, t' ≠ Rejected e) →
            all_consistent
              {| messages := messages fl; tasks := <[i := t']> (tasks fl);
                 all := Promise_all (<[i := t']> (tasks fl)) |}) as Hother.
    { intros Hnot. apply Promise_all_consistent. by apply Forall_insert. }
    unfold all_consistent in Hother. simpl in Hother.
    destruct t'; simpl; try (apply Hother; done). by apply Hin.
  - intros Hall.
    rewrite (Hful (Forall_lookup_1 _ _ _ _ Hall Hi)).
    rewrite list_insert_id; [done|].
    by rewrite Hi, (Forall_lookup_1 _ _ _ _ Hall Hi).
  - intros (j & Hj)%list_elem_of_lookup. simpl.
    destruct (decide (j = i)) as [->|Hne].
    + rewrite Hi in Hj. injection Hj as ->.
      rewrite (Hrej e eq_refl). by apply list_elem_of_insert.
    + apply list_elem_of_lookup. exists j. by rewrite list_lookup_insert_ne.
Qed.

Lemma resume_task_settled (t : task) w :
  ((t = Fulfilled → (resume_task t w).1 = Fulfilled) ∧
   (∀ e, t = Rejected e → (resume_task t w).1 = Rejected e)).
Proof. split; [by intros ->|by intros e ->]. Qed.

Lemma start_not_rejected (batch : list Entry) :
  Forall (λ t, ∀ e, t ≠ Rejected e) (start <$> batch).
Proof.
  apply Forall_fmap, Forall_forall. intros entry _ e. simpl.
  unfold start. by destruct (submitKey entry).
Qed.

Lemma step_flight_consistent (f : nat) (ev : event) s (fl : Flight) :
  flights s.2 !! f = Some fl → all_consistent fl →
  ∃ fl', flights (step ev s).2 !! f = Some fl' ∧ all_consistent fl'.
Proof.
  intros Hf Hc. destruct s as [w p]. simpl in Hf.
  destruct ev as [entry| |f' i']; simpl.
  - destruct (flights_publish entry p) as [more ->].
    exists fl. rewrite lookup_app_l by (by eapply lookup_lt_Some). done.
  - exists fl. rewrite lookup_app_l by (by eapply lookup_lt_Some). done.
  - destruct (flights p !! f') as [fl0|] eqn:Hf'; [|by exists fl].
    destruct (tasks fl0 !! i') as [t0|] eqn:Hi'; [|by exists fl].
    destruct (resume_task_settled t0 w) as [Hful Hrej].
    destruct (resume_task t0 w) as [t0' w'] eqn:Hr. simpl in *.
    destruct (decide (f' = f)) as [->|Hnf].
    + assert (fl0 = fl) as -> by congruence.
      rewrite list_lookup_insert_eq by (by eapply lookup_lt_Some).
      eexists. split; [reflexivity|]. by eapply settle_all_consistent.
    + exists fl. by rewrite list_lookup_insert_ne.
Qed.

Lemma run_flight_consistent (f : nat) (evs : list event) :
  ∀ s (fl : Flight),
  flights s.2 !! f = Some fl → all_consistent fl →
  ∃ fl', flights (run evs s).2 !! f = Some fl' ∧ all_consistent fl'.
Proof.
  induction evs as [|ev evs IH]; intros s fl Hf Hc; [by exists fl|].
  destruct (step_flight_consistent f ev s fl Hf Hc) as (fl1 & Hf1 & Hc1).
  destruct (IH (step ev s) fl1 Hf1 Hc1) as (fl' & Hf' & Hc').
  exists fl'. cbn [run foldl]. done.
Qed.

(** An entry of the batch of a flush runs to its own end when each of its
    awaits is answered, however the answers interleave with those of the
    other entries and with later calls of the publisher. *)
Lemma flush_runs_entry s (evs : list event) (i : nat) (entry : Entry) :
  let f := length (flights s.2) in
  let s1 := (s.1, flushMessages s.2) in
  queue s.2 !! i = Some entry →
  (3 ≤ resumes f i evs)%nat →
  ∃ fl t, flights (run evs s1).2 !! f = Some fl ∧
          tasks fl !! i = Some t ∧
          pipeline_record entry (own_calls f i evs s1) t.
Proof.
  cbv zeta. intros Hi H3.
  destruct (run_task (length (flights s.2)) i entry evs
              (s.1, flushMessages s.2) _ (start entry) []
              (flushMessages_flight s.2))
    as (fl & t & Hf & Ht & _ & _ & Hin & Hst).
  { simpl. by rewrite list_lookup_fmap, Hi. }
  { apply in_progress_start. }
  exists fl, t. split; [exact Hf|]. split; [exact Ht|].
  simpl in Hin. destruct t; cbn [stage] in Hst; try lia; exact Hin.
Qed.

Lemma final_tx_eq (entry : Entry) : final_tx entry = message_submission entry.
Proof.
  unfold final_tx, message_submission, submit_tx.
  by destruct (submitKey entry).
Qed.

Lemma pipeline_submission (entry : Entry) (own : list SdkCall) (t : task) :
  pipeline_record entry own t →
  submission_record (message_submission entry) own t.
Proof. intros Hrec. rewrite <- final_tx_eq. destruct Hrec; constructor. Qed.

Lemma settles_early_consistent (fl : Flight) :
  all_consistent fl → settles_early fl.
Proof.
  unfold all_consistent, settles_early.
  destruct (all fl) as [| |e].
  - intros [Hnone Hsome]. split; [|split].
    + split; [|by intros [e ?]]. intros [e He].
      rewrite Forall_forall in Hnone. by destruct (Hnone _ He e).
    + done.
    + split; [done|]. intros Hall. by destruct Hsome.
  - intros Hall. split; [|split].
    + split; [|by intros [e ?]]. intros [e He].
      rewrite Forall_forall in Hall. by specialize (Hall _ He).
    + done.
    + done.
  - intros Hin. split; [|split].
    + split; intros _; eauto.
    + by intros e' [= <-].
    + split; [done|]. intros Hall.
      rewrite Forall_forall in Hall. by specialize (Hall _ Hin).
Qed.

(** Once settled, the promise of [Promise.all] stays as it is. *)
Lemma step_all_settled (f : nat) (ev : event) s (fl : Flight) :
  flights s.2 !! f = Some fl → all fl ≠ Pending →
  ∃ fl', flights (step ev s).2 !! f = Some fl' ∧ all fl' = all fl.
Proof.
  intros Hf Hset. destruct s as [w p]. simpl in Hf.
  destruct ev as [entry| |f' i']; simpl.
  - destruct (flights_publish entry p) as [more ->].
    exists fl. rewrite lookup_app_l by (by eapply lookup_lt_Some). done.
  - exists fl. rewrite lookup_app_l by (by eapply lookup_lt_Some). done.
  - destruct (flights p !! f') as [fl0|] eqn:Hf'; [|by exists fl].
    destruct (tasks fl0 !! i') as [t0|] eqn:Hi'; [|by exists fl].
    destruct (resume_task t0 w) as [t0' w'] eqn:Hr. simpl.
    destruct (decide (f' = f)) as [->|Hnf].
    + assert (fl0 = fl) as -> by congruence.
      rewrite list_lookup_insert_eq by (by eapply lookup_lt_Some).
      eexists. split; [reflexivity|]. simpl. by destruct (all fl).
    + exists fl. by rewrite list_lookup_insert_ne.
Qed.

Lemma run_all_settled (f : nat) (evs : list event) :
  ∀ s (fl : Flight),
  flights s.2 !! f = Some fl → all fl ≠ Pending →
  ∃ fl', flights (run evs s).2 !! f = Some fl' ∧ all fl' = all fl.
Proof.
  induction evs as [|ev evs IH]; intros s fl Hf Hset; [by exists fl|].
  destruct (step_all_settled f ev s fl Hf Hset) as (fl1 & Hf1 & Hall1).
  destruct (IH (step ev s) fl1 Hf1) as (fl' & Hf' & Hall'); [congruence|].
  exists fl'. cbn [run foldl]. split; [exact Hf'|congruence].
Qed.

Lemma run_app (evs1 evs2 : list event) s :
  run (evs1 ++ evs2) s = run evs2 (run evs1 s).
Proof. unfold run. apply foldl_app. Qed.

Lemma run_snoc (evs : list event) (ev : event) s :
  run (evs ++ [ev]) s = step ev (run evs s).
Proof. by rewrite run_app. Qed.

(** The resumption at which a callback of a flight fails first rejects the
    promise of [Promise.all] with the error of that callback, and leaves the
    other callbacks where they are. *)
Lemma first_rejection (f i : nat) s (fl0 fl1 : Flight) (e : error) :
  flights s.2 !! f = Some fl0 → all_consistent fl0 →
  (∀ e', Rejected e' ∉ tasks fl0) →
  flights (step (Resume f i) s).2 !! f = Some fl1 →
  tasks fl1 !! i = Some (Rejected e) →
  all fl1 = RejectedWith e ∧
  ∀ j, j ≠ i → tasks fl1 !! j = tasks fl0 !! j.
Proof.
  intros Hf Hc Hnone Hf1 Hi1. destruct s as [w p]. simpl in Hf, Hf1.
  rewrite Hf in Hf1.
  destruct (tasks fl0 !! i) as [t|] eqn:Hi.
  2:{ simpl in Hf1. rewrite Hf in Hf1. injection Hf1 as <-. congruence. }
  destruct (resume_task_settled t w) as [Hful _].
  destruct (resume_task t w) as [t' w'] eqn:Hr. simpl in Hf1, Hful.
  rewrite list_lookup_insert_eq in Hf1 by (by eapply lookup_lt_Some).
  injection Hf1 as <-. simpl in Hi1 |- *.
  rewrite list_lookup_insert_eq in Hi1 by (by eapply lookup_lt_Some).
  injection Hi1 as ->.
  split; [|by intros j Hj; rewrite list_lookup_insert_ne].
  unfold all_consistent in Hc. destruct (all fl0) as [| |e0]; simpl.
  - reflexivity.
  - pose proof (Forall_lookup_1 _ _ _ _ Hc Hi) as Ht.
    by specialize (Hful Ht).
  - by destruct (Hnone e0).
Qed.

(** C3, as the code has it.  After [flushMessages] has taken its batch, let
    the awaits of the batch be answered in any order, mixed with any other
    calls of the publisher.  Every entry whose own (at most three) awaits
    have been answered has been submitted, as a message submission to its
    topic with its message, frozen, and signed with its key when it has one,
    and has been receipted or rejected by its own submission or its own
    receipt: the calls made for an entry and its outcome do not depend on the
    other entries, failed or not.  The promise that [flushMessages] awaits
    does short-circuit: it is rejected at the very resumption at which a
    callback fails first, with the error of that callback, while the other
    callbacks stay where they are, and it keeps that rejection; it is
    resolved exactly when every callback is fulfilled. *)
Theorem flush_entries_independent s (evs : list event) :
  let f := length (flights s.2) in
  let s1 := (s.1, flushMessages s.2) in
  ∃ fl, flights (run evs s1).2 !! f = Some fl ∧
        length (tasks fl) = length (queue s.2) ∧
        (∀ i entry, queue s.2 !! i = Some entry →
           (3 ≤ resumes f i evs)%nat →
           ∃ t, tasks fl !! i = Some t ∧
                submission_record (message_submission entry)
                  (own_calls f i evs s1) t) ∧
        settles_early fl ∧
        (∀ (evs1 evs2 : list event) (i : nat) (e : error) (fl0 fl1 : Flight),
           evs = evs1 ++ Resume f i :: evs2 →
           flights (run evs1 s1).2 !! f = Some fl0 →
           (∀ e', Rejected e' ∉ tasks fl0) →
           flights (run (evs1 ++ [Resume f i]) s1).2 !! f = Some fl1 →
           tasks fl1 !! i = Some (Rejected e) →
           all fl1 = RejectedWith e ∧ all fl = RejectedWith e ∧
           ∀ j, j ≠ i → tasks fl1 !! j = tasks fl0 !! j).
Proof.
  cbv zeta.
  assert (all_consistent
            {| messages := next s.2; tasks := start <$> queue s.2;
               all := Promise_all (start <$> queue s.2) |}) as Hstart
    by apply Promise_all_consistent, start_not_rejected.
  destruct (run_flight_consistent (length (flights s.2)) evs
              (s.1, flushMessages s.2) _ (flushMessages_flight s.2) Hstart)
    as (fl & Hf & Hc).
  destruct (run_flight (length (flights s.2)) evs (s.1, flushMessages s.2)
              _ (flushMessages_flight s.2)) as (fl' & Hf' & Hlen & _).
  assert (fl' = fl) as -> by congruence.
  simpl in Hlen. rewrite length_fmap in Hlen.
  exists fl. split; [exact Hf|]. split; [exact Hlen|].
  split; [|split; [by apply settles_early_consistent|]].
  - intros i entry Hi H3.
    destruct (flush_runs_entry s evs i entry Hi H3)
      as (fl' & t & Hf'' & Ht & Hrec).
    exists t. split; [congruence|by apply pipeline_submission].
  - intros evs1 evs2 i e fl0 fl1 -> Hf0 Hnone Hf1 Hi1.
    destruct (run_flight_consistent (length (flights s.2)) evs1
                (s.1, flushMessages s.2) _ (flushMessages_flight s.2) Hstart)
      as (fl0' & Hf0' & Hc0).
    assert (fl0' = fl0) as -> by congruence.
    rewrite run_snoc in Hf1.
    destruct (first_rejection _ i _ fl0 fl1 e Hf0 Hc0 Hnone Hf1 Hi1)
      as [Hall1 Hothers].
    split; [exact Hall1|]. split; [|exact Hothers].
    change (evs1 ++ Resume (length (flights s.2)) i :: evs2)
      with (evs1 ++ [Resume (length (flights s.2)) i] ++ evs2) in Hf.
    rewrite app_assoc, run_app, run_snoc in Hf.
    destruct (run_all_settled (length (flights s.2)) evs2 _ fl1 Hf1)
      as (fl2 & Hf2 & Hall2).
    { by rewrite Hall1. }
    assert (fl2 = fl) as -> by congruence.
    by rewrite Hall2.
Qed.

End Publisher.

(** With alice bound as operator: a batch of two whose first message goes
    to a topic the network refuses.  Whatever the order of the answers, the
    second entry is submitted signed and is receipted once its three awaits
    are answered. *)
Lemma flush_entries_independent_witness :
  let sdk := Toy.sdk [] in
  let s := (Toy.operated_world Toy.net0, Toy.two_queued) in
  let s1 := (s.1, MessagePublisher.flushMessages s.2) in
  (3 ≤ resumes 0 1 Toy.answers)%nat ∧
  ∃ fl t,
    MessagePublisher.flights
      (MessagePublisher.run (Sdk0 := sdk) Toy.answers s1).2 !! 0%nat = Some fl ∧
    MessagePublisher.tasks fl !! 1%nat = Some t ∧
    submission_record
      {| body := TopicMessageSubmitTransaction "0.0.7" "second";
         frozen := true; signatures := ["alice-key"] |}
      (own_calls (Sdk0 := sdk) 0 1 Toy.answers s1) t ∧
    settles_early fl.
Proof.
  intros sdk s s1.
  assert (3 ≤ resumes 0 1 Toy.answers)%nat as H3 by (vm_compute; lia).
  split; [exact H3|].
  destruct (flush_entries_independent (Sdk0 := sdk) s Toy.answers)
    as (fl & Hf & _ & Hentries & Hall & _).
  destruct (Hentries 1%nat Toy.signed_entry eq_refl H3) as (t & Ht & Hrec).
  exists fl, t. split; [exact Hf|]. split; [exact Ht|].
  split; [exact Hrec|exact Hall].
Defined.

(** C3, as stated, fails: [flushMessages] does short-circuit.  With alice
    bound as operator, the network refuses the first message of a batch of
    two.  When that refusal arrives, the promise that [flushMessages] awaits
    is rejected at once, while the callback of the second entry has not
    signed yet and nothing has been submitted for it. *)
Lemma flush_rejects_at_first_failure :
  let sdk := Toy.sdk [] in
  let s1 := (Toy.operated_world Toy.net0,
             MessagePublisher.flushMessages Toy.two_queued) in
  let early := MessagePublisher.run (Sdk0 := sdk)
                 [MessagePublisher.Resume 0 0] s1 in
  MessagePublisher.flights early.2
  = [{| MessagePublisher.messages := 1;
        MessagePublisher.tasks :=
          [MessagePublisher.Rejected (ThrownValue "INVALID_TOPIC_ID");
           MessagePublisher.AwaitSign
             {| body := TopicMessageSubmitTransaction "0.0.7" "second";
                frozen := true; signatures := [] |}
             "alice-key" "0.0.7"];
        MessagePublisher.all :=
          MessagePublisher.RejectedWith (ThrownValue "INVALID_TOPIC_ID") |}] ∧
  calls early.1
  = [CallExecute
       {| body := TopicMessageSubmitTransaction "0.0.0" "first";
          frozen := true; signatures := [] |}
       (Throw (ThrownValue "INVALID_TOPIC_ID"))].
Proof. vm_compute. split; reflexivity. Qed.

(** The same run, step by step: the refusal of the first message
    rejects [Promise.all] while the second callback has not yet signed; the
    second callback still signs, submits and is receipted. *)
Example rejection_does_not_cancel :
  let sdk := Toy.sdk [] in
  let s1 := (Toy.world Toy.net0,
             MessagePublisher.flushMessages Toy.two_queued) in
  let early := MessagePublisher.run (Sdk0 := sdk) (take 1 Toy.answers) s1 in
  let late := MessagePublisher.run (Sdk0 := sdk) Toy.answers s1 in
  (MessagePublisher.all <$> MessagePublisher.flights early.2)
    = [MessagePublisher.RejectedWith (ThrownValue "INVALID_TOPIC_ID")] ∧
  ((λ fl, stage <$> MessagePublisher.tasks fl)
     <$> MessagePublisher.flights early.2) = [[3; 0]]%nat ∧
  (MessagePublisher.tasks <$> MessagePublisher.flights late.2)
    = [[MessagePublisher.Rejected (ThrownValue "INVALID_TOPIC_ID");
        MessagePublisher.Fulfilled]] ∧
  calls late.1
    = [CallExecute (final_tx Toy.refused_entry)
         (Throw (ThrownValue "INVALID_TOPIC_ID"));
       CallExecute (final_tx Toy.signed_entry)
         (Return {| transactionId := 1001 |});
       CallReceipt (final_tx Toy.signed_entry) {| transactionId := 1001 |}
         (Return {| status := 22; receipt_accountId := Some "0.0.1001";
                    receipt_topicId := Some "0.0.1001" |})].
Proof. vm_compute. repeat split; reflexivity. Qed.

(** ** The snapshot of a flush *)

Section Snapshot.
Context {Net : Type} `{!Sdk Net}.
Implicit Type p : MessagePublisher.Publisher.
Implicit Type s : World Net * MessagePublisher.Publisher.

Import MessagePublisher.

Lemma array_push_ne (l : nat) (entry : Entry) p :
  l ≠ pendingMessages p → array l (push entry p) = array l p.
Proof. intros Hne. unfold array, push. simpl. by rewrite lookup_insert_ne. Qed.

Lemma array_flushMessages_old (l : nat) p :
  (l < next p)%nat → array l (flushMessages p) = array l p.
Proof.
  intros Hlt. unfold array, flushMessages. simpl.
  rewrite !lookup_insert_ne by lia. done.
Qed.

Lemma array_flushMessages_copy p : array (next p) (flushMessages p) = queue p.
Proof.
  unfold array at 1. unfold flushMessages. simpl.
  rewrite lookup_insert_ne by lia. by rewrite lookup_insert_eq.
Qed.

Lemma isolated_flushMessages_start p :
  isolated (length (flights p)) (next p) (queue p) [] (flushMessages p).
Proof.
  split; [simpl; lia|]. split.
  - intros f' fl Hle Hf'. simpl in Hf' |- *.
    apply lookup_app_Some in Hf' as [Hf'|[_ Hf']].
    + apply lookup_lt_Some in Hf'. lia.
    + apply list_lookup_singleton_Some in Hf' as [_ <-]. simpl. lia.
  - split.
    + eexists. split; [apply flushMessages_flight|]. simpl.
      by rewrite length_fmap.
    + split; [apply array_flushMessages_copy|].
      intros entry []%elem_of_nil.
Qed.

Lemma isolated_push (f n0 : nat) (batch later : list Entry) (entry : Entry) p :
  isolated f n0 batch later p →
  isolated f n0 batch (later ++ [entry]) (push entry p).
Proof.
  intros (Hpm & Hfl & (fl & Hf & Hn0 & Hlen) & Harr & Hlater).
  split; [done|]. split; [done|]. split; [by exists fl|]. split.
  - rewrite array_push_ne; [done|].
    pose proof (Hfl f fl ltac:(lia) Hf). lia.
  - intros e [He|He]%elem_of_app.
    + destruct (Hlater e He) as [Hq|(f' & fl' & Hlt & Hf' & Ha)].
      * left. rewrite queue_push. apply elem_of_app. by left.
      * right. exists f', fl'. split; [done|]. split; [done|].
        rewrite array_push_ne; [done|].
        pose proof (Hfl f' fl' ltac:(lia) Hf'). lia.
    + left. rewrite queue_push. apply elem_of_app. by right.
Qed.

Lemma isolated_flushMessages (f n0 : nat) (batch later : list Entry) p :
  isolated f n0 batch later p →
  isolated f n0 batch later (flushMessages p).
Proof.
  intros (Hpm & Hfl & (fl & Hf & Hn0 & Hlen) & Harr & Hlater).
  assert (f < length (flights p))%nat as Hflen by (by eapply lookup_lt_Some).
  split; [simpl; lia|]. split.
  - intros f' fl' Hle Hf'. simpl in Hf' |- *.
    apply lookup_app_Some in Hf' as [Hf'|[_ Hf']].
    + pose proof (Hfl f' fl' Hle Hf'). lia.
    + apply list_lookup_singleton_Some in Hf' as [_ <-]. simpl. lia.
  - split.
    + exists fl. simpl. by rewrite lookup_app_l.
    + split.
      * rewrite array_flushMessages_old; [done|].
        pose proof (Hfl f fl ltac:(lia) Hf). lia.
      * intros e He.
        destruct (Hlater e He) as [Hq|(f' & fl' & Hlt & Hf' & Ha)]; right.
        -- eexists (length (flights p)), _.
           split; [lia|]. split; [apply flushMessages_flight|]. simpl.
           by rewrite array_flushMessages_copy.
        -- exists f', fl'. split; [done|]. split.
           ++ simpl. rewrite lookup_app_l; [done|]. by eapply lookup_lt_Some.
           ++ rewrite array_flushMessages_old; [done|].
              pose proof (Hfl f' fl' ltac:(lia) Hf'). lia.
Qed.

Lemma isolated_publish (f n0 : nat) (batch later : list Entry) (entry : Entry) p :
  isolated f n0 batch later p →
  isolated f n0 batch (later ++ [entry]) (publish entry p).
Proof.
  intros Hp. unfold publish. case_bool_decide.
  - by apply isolated_flushMessages, isolated_push.
  - by apply isolated_push.
Qed.

(** A resumption changes the tasks of one flight and nothing else of the
    publisher. *)
Lemma resume_publisher (f i : nat) s :
  heap (resume f i s).2 = heap s.2 ∧
  next (resume f i s).2 = next s.2 ∧
  pendingMessages (resume f i s).2 = pendingMessages s.2 ∧
  ∀ j fl', flights (resume f i s).2 !! j = Some fl' →
    ∃ fl, flights s.2 !! j = Some fl ∧ messages fl' = messages fl
          ∧ length (tasks fl') = length (tasks fl).
Proof.
  destruct s as [w p]. unfold resume.
  destruct (flights p !! f) as [fl0|] eqn:Hf; [|by eauto 10].
  destruct (tasks fl0 !! i) as [t0|] eqn:Hi; [|by eauto 10].
  destruct (resume_task t0 w) as [t0' w']. simpl.
  split; [done|]. split; [done|]. split; [done|].
  intros j fl' Hj. destruct (decide (j = f)) as [->|Hne].
  - rewrite list_lookup_insert_eq in Hj by (by eapply lookup_lt_Some).
    injection Hj as <-. exists fl0. simpl. by rewrite length_insert.
  - rewrite list_lookup_insert_ne in Hj by done. by exists fl'.
Qed.

Lemma isolated_resume (f n0 : nat) (batch later : list Entry) (f' i : nat) s :
  isolated f n0 batch later s.2 →
  isolated f n0 batch later (resume f' i s).2.
Proof.
  intros (Hpm & Hfl & (fl & Hf & Hn0 & Hlen) & Harr & Hlater).
  destruct (resume_publisher f' i s) as (Hheap & Hnext & Hpend & Hback).
  assert (∀ l, array l (resume f' i s).2 = array l s.2) as Harray.
  { intros l. unfold array. by rewrite Hheap. }
  split; [lia|]. split.
  - intros j fl' Hle Hj. destruct (Hback j fl' Hj) as (fl0 & Hj0 & Hm & _).
    rewrite Hm, Hpend. by eapply Hfl.
  - split.
    + destruct (step_flight f (Resume f' i) s fl Hf) as (fl1 & Hf1 & Hl1 & Hm1).
      exists fl1. split; [exact Hf1|]. split; congruence.
    + split; [by rewrite Harray|].
      intros e He.
      destruct (Hlater e He) as [Hq|(j & fl' & Hlt & Hj & Ha)].
      * left. unfold queue. by rewrite Hpend, Harray.
      * right.
        destruct (step_flight j (Resume f' i) s fl' Hj) as (fl1 & Hj1 & _ & Hm1).
        exists j, fl1. split; [done|]. split; [exact Hj1|].
        by rewrite Hm1, Harray.
Qed.

Lemma isolated_run (f n0 : nat) (batch : list Entry) (evs : list event) :
  ∀ s (later : list Entry),
  isolated f n0 batch later s.2 →
  isolated f n0 batch (later ++ published evs) (run evs s).2.
Proof.
  induction evs as [|ev evs IH]; intros s later Hs.
  - simpl. by rewrite app_nil_r.
  - cbn [run foldl]. destruct ev as [entry| |f' i].
    + change (published (Publish entry :: evs)) with (entry :: published evs).
      replace (later ++ entry :: published evs)
        with ((later ++ [entry]) ++ published evs)
        by (by rewrite <- app_assoc).
      apply (IH (step (Publish entry) s)). simpl. by apply isolated_publish.
    + apply (IH (step Flush s)). simpl. by apply isolated_flushMessages.
    + apply (IH (step (Resume f' i) s)). simpl. by apply isolated_resume.
Qed.

End Snapshot.

Section Batching.
Context {Net : Type} `{!Sdk Net}.
Implicit Type p : MessagePublisher.Publisher.
Implicit Type s : World Net * MessagePublisher.Publisher.

Import MessagePublisher.

(** C4. [flushMessages] copies the queue into a new array and points the
    queue to another new, empty array before any callback is resumed.
    Whatever happens afterwards (answers arriving, further [publish] and
    [flushMessages] calls), the array of that flush keeps the copied
    contents and its callbacks stay those of the copied entries; every entry
    published afterwards is in the queue or in the batch of a later
    flush. *)
Theorem flush_snapshot_isolated s (evs : list event) :
  let f := length (flights s.2) in
  let batch := queue s.2 in
  let s1 := step Flush s in
  let s2 := run evs s1 in
  s1.1 = s.1 ∧
  queue s1.2 = [] ∧
  flights s1.2 !! f = Some {| messages := next s.2; tasks := start <$> batch;
                              all := Promise_all (start <$> batch) |} ∧
  array (next s.2) s1.2 = batch ∧
  (∃ fl, flights s2.2 !! f = Some fl ∧ messages fl = next s.2 ∧
         array (messages fl) s2.2 = batch ∧
         length (tasks fl) = length batch) ∧
  (∀ entry, entry ∈ published evs →
     entry ∈ queue s2.2 ∨
     ∃ f' fl', (f < f')%nat ∧ flights s2.2 !! f' = Some fl' ∧
               entry ∈ array (messages fl') s2.2).
Proof.
  cbv zeta. cbn [step fst snd].
  split; [done|]. split; [apply queue_flushMessages|].
  split; [apply flushMessages_flight|].
  split; [apply array_flushMessages_copy|].
  pose proof (isolated_run (length (flights s.2)) (next s.2) (queue s.2) evs
                (s.1, flushMessages s.2) []
                (isolated_flushMessages_start s.2))
    as (_ & _ & (fl & Hf & Hm & Hlen) & Harr & Hlater).
  split.
  - exists fl. rewrite Hm. done.
  - intros entry He. by apply Hlater.
Qed.





End Batching.

(** * Further properties of the steps *)

(** ** Transactions of the topic steps *)

Section TopicTransactions.
Context {Net : Type} `{!Sdk Net}.
Implicit Type w : World Net.

(** X1. [executeTransaction] returns a receipt only when the submission and
    the receipt both succeeded.  Otherwise it throws the very error the SDK
    raised, after logging it once; a refused submission is never asked for a
    receipt.  The operator, [context] and the balance cache are left
    alone. *)
Theorem executeTransaction_outcome (tx : Transaction) w :
  let sent := Transaction_execute (client w) tx (net w) in
  let r := Topic.executeTransaction tx w in
  client r.2 = client w ∧ context r.2 = context w ∧
  balanceCache r.2 = balanceCache w ∧
  match sent.1 with
  | Throw e =>
      r.1 = Throw e ∧ net r.2 = sent.2 ∧
      calls r.2 = calls w ++ [CallExecute tx (Throw e)] ∧
      console r.2 = console w ++ [console_error "Transaction failed:" e]
  | Return resp =>
      let got := getReceipt resp sent.2 in
      net r.2 = got.2 ∧
      calls r.2 = calls w ++ [CallExecute tx (Return resp);
                              CallReceipt tx resp got.1] ∧
      match got.1 with
      | Return rc => r.1 = Return rc ∧ console r.2 = console w
      | Throw e =>
          r.1 = Throw e ∧
          console r.2 = console w ++ [console_error "Transaction failed:" e]
      end
  end.
Proof.
  cbv zeta. unfold Topic.executeTransaction. unfold_async. simpl.
  destruct (Transaction_execute (client w) tx (net w)) as [[resp|e] n]; simpl.
  - destruct (getReceipt resp n) as [[rc|e] n']; simpl;
      rewrite <- ?app_assoc; done.
  - done.
Qed.


Lemma createTopic_tx_eq (memo : string) (submitKey : option Key)
  (operator : option Operator) :
  match submitKey with
  | Some (PrivateKey k) =>
      sign k (freezeWith (build (TopicCreateTransaction
                                   (Topic.operatorPublicKey operator) memo
                                   submitKey)))
  | _ => freezeWith (build (TopicCreateTransaction
                              (Topic.operatorPublicKey operator) memo submitKey))
  end = createTopic_tx operator memo submitKey.
Proof. by destruct submitKey as [[]|]. Qed.

Lemma createTopic_eq (memo : string) (submitKey : option Key) w :
  Topic.createTopic memo submitKey w =
    match Topic.executeTransaction
            (createTopic_tx (client w) memo submitKey) w with
    | (Return rc, w') =>
        (Return (receipt_topicId rc),
         set_context
           (with_createdResources
              (push_topic (receipt_topicId rc) (createdResources (context w')))
              (context w')) w')
    | (Throw e, w') => (Throw e, w')
    end.
Proof.
  unfold Topic.createTopic, Topic.update_context, bind, gets, modify, ret.
  rewrite createTopic_tx_eq.
  by destruct (Topic.executeTransaction _ w) as [[rc|e] w'].
Qed.

(** X2. [createTopic] submits exactly one transaction: frozen, with the
    operator's public key as admin key, and signed with the submit key
    exactly when that key is a private key.  A refused submission is not
    asked for a receipt and an accepted one is asked once; nothing else is
    sent.  When the receipt arrives, its topic id is what is returned and
    what is appended to the tracked topics, and nothing else of [context]
    changes; when the submission or the receipt throws, that error is thrown
    and [context] is as it was. *)
Theorem createTopic_outcome (memo : string) (submitKey : option Key) w :
  let tx := createTopic_tx (client w) memo submitKey in
  let sent := Transaction_execute (client w) tx (net w) in
  let r := Topic.createTopic memo submitKey w in
  match sent.1 with
  | Throw e =>
      r.1 = Throw e ∧ context r.2 = context w ∧
      calls r.2 = calls w ++ [CallExecute tx (Throw e)]
  | Return resp =>
      let got := getReceipt resp sent.2 in
      calls r.2 = calls w ++ [CallExecute tx (Return resp);
                              CallReceipt tx resp got.1] ∧
      match got.1 with
      | Throw e => r.1 = Throw e ∧ context r.2 = context w
      | Return receipt =>
          r.1 = Return (receipt_topicId receipt) ∧
          context r.2 =
            with_createdResources
              (push_topic (receipt_topicId receipt)
                 (createdResources (context w)))
              (context w)
      end
  end.
Proof.
  cbv zeta. rewrite !createTopic_eq. unfold Topic.executeTransaction.
  unfold_async. simpl.
  destruct (Transaction_execute (client w) _ (net w)) as [[resp|e] n]; simpl.
  - destruct (getReceipt resp n) as [[rc|e] n']; simpl;
      rewrite <- ?app_assoc; done.
  - done.
Qed.

(** X3. [createAccountWithHbar] returns an account only with the identifier
    of the receipt and the freshly generated key, and has then appended that
    identifier to the tracked accounts.  When it throws, either nothing was
    appended, or the receipt carried no account id: then a [null] was
    appended and the error is a [TypeError]. *)
Theorem createAccountWithHbar_outcome (hbarAmount : number) w :
  let r := Topic.createAccountWithHbar hbarAmount w in
  let tracked w := accounts (createdResources (context w)) in
  topics (createdResources (context r.2))
    = topics (createdResources (context w)) ∧
  (∀ a, r.1 = Return a →
     privateKey a = (generateED25519 (net w)).1 ∧
     tracked r.2 = tracked w ++ [Some (id a)] ∧
     created_accounts (calls r.2) = created_accounts (calls w) ++ [id a]) ∧
  (∀ e, r.1 = Throw e →
     (tracked r.2 = tracked w ∧
      created_accounts (calls r.2) = created_accounts (calls w)) ∨
     (tracked r.2 = tracked w ++ [None] ∧ ∃ msg, e = TypeError msg)).
Proof.
  cbv zeta. unfold Topic.createAccountWithHbar, Topic.executeTransaction,
    Topic.update_context.
  unfold_async. simpl.
  destruct (generateED25519 (net w)) as [k n]. simpl.
  destruct (Transaction_execute (client w) _ n) as [[resp|e] n1]; simpl.
  - destruct (getReceipt resp n1) as [[rc|e] n2]; simpl.
    + destruct (receipt_accountId rc) as [a|] eqn:Ha; simpl.
      * split; [done|]. split; [|done]. intros ? [= <-]. simpl.
        split; [done|]. split; [done|].
        rewrite !created_accounts_app. simpl. rewrite Ha.
        by rewrite <- app_assoc.
      * split; [done|]. split; [done|]. intros e [= <-]. right. eauto.
    + split; [done|]. split; [done|]. intros e' _. left. split; [done|].
      by rewrite !created_accounts_app, !app_nil_r.
  - split; [done|]. split; [done|]. intros e' _. left. split; [done|].
    by rewrite !created_accounts_app, !app_nil_r.
Qed.

End TopicTransactions.

Section TopicSteps.
Context {Net : Type} `{!Sdk Net}.
Implicit Type w : World Net.

(** X4. A step that runs before what it needs exists fails at once with an
    assertion error and leaves the world untouched: no call to the network,
    nothing logged, nothing bound. *)
Theorem prerequisites_fail_fast (memo message : string)
  (requiredSigns totalKeys start : Z) w :
  (firstAccount (context w) = None →
     ∃ msg, Topic.when_topic_with_first_account memo w
            = (Throw (AssertionError msg), w)) ∧
  (firstAccount (context w) = None ∨ topicId (context w) = None →
     ∃ msg, Topic.when_message_published message w
            = (Throw (AssertionError msg), w)) ∧
  (firstAccount (context w) = None ∨ secondAccount (context w) = None →
     ∃ msg, Topic.given_threshold_key requiredSigns totalKeys w
            = (Throw (AssertionError msg), w)) ∧
  (secondAccount (context w) = None ∨ thresholdKey (context w) = None →
     ∃ msg, Topic.when_topic_with_threshold_key memo w
            = (Throw (AssertionError msg), w)) ∧
  (topicId (context w) = None →
     ∃ msg, Hooks.then_message_received start (context w)
            = Throw (AssertionError msg)).
Proof.
  split; [|split; [|split; [|split]]].
  - intros Hf. unfold Topic.when_topic_with_first_account. unfold_async.
    rewrite Hf. eauto.
  - intros Hmissing. unfold Topic.when_message_published. unfold_async.
    destruct (firstAccount (context w)) as [a|]; [|by eauto].
    destruct Hmissing as [|Ht]; [done|]. rewrite Ht. eauto.
  - intros Hmissing. unfold Topic.given_threshold_key. unfold_async.
    destruct (firstAccount (context w)) as [a1|]; [|by eauto].
    destruct Hmissing as [|Hs]; [done|]. rewrite Hs. eauto.
  - intros Hmissing. unfold Topic.when_topic_with_threshold_key. unfold_async.
    destruct (secondAccount (context w)) as [a2|]; [|by eauto].
    destruct Hmissing as [|Hk]; [done|]. rewrite Hk. eauto.
  - intros Ht. unfold Hooks.then_message_received. rewrite Ht. eauto.
Qed.

(** X5. The threshold-key step builds its key list from the public keys of
    the first and then the second account, cut to the requested number of
    keys: it never holds more than two keys, and none when zero keys are
    asked for.  The number of required signatures is stored as given, also
    when it exceeds the number of keys.  No call is made. *)
Theorem given_threshold_key_keys (requiredSigns totalKeys : Z) w
  (a1 a2 : Account)
  (Hfirst : firstAccount (context w) = Some a1)
  (Hsecond : secondAccount (context w) = Some a2) :
  let r := Topic.given_threshold_key requiredSigns totalKeys w in
  let keys := take (Z.to_nat totalKeys)
                [publicKey (privateKey a1); publicKey (privateKey a2)] in
  r.1 = Return tt ∧
  thresholdKey (context r.2) = Some (KeyList keys requiredSigns) ∧
  length keys = (Z.to_nat totalKeys `min` 2)%nat ∧
  calls r.2 = calls w ∧
  firstAccount (context r.2) = Some a1 ∧
  secondAccount (context r.2) = Some a2.
Proof.
  cbv zeta. unfold Topic.given_threshold_key, Topic.update_context.
  unfold_async. rewrite Hfirst, Hsecond. simpl.
  split; [done|]. split; [by rewrite fmap_take|]. split; [|done].
  rewrite length_take. reflexivity.
Qed.

(** X6. Publishing a message at once and publishing it through a flushed
    batch come to the same: run on its own from the same world, the callback
    of a batch entry makes the calls [publishMessage] makes for that
    message, topic and key, leaves the network in the same state, and is
    fulfilled or rejected as [publishMessage] returns or throws. *)
Theorem publishMessage_as_batched (entry : MessagePublisher.Entry) w :
  let direct :=
    Topic.publishMessage (MessagePublisher.message entry)
      (MessagePublisher.topicId entry) (MessagePublisher.submitKey entry) w in
  let batched := run_alone entry w in
  calls batched.2 = calls direct.2 ∧
  net batched.2 = net direct.2 ∧
  context batched.2 = context direct.2 ∧
  (direct.1 = Return tt ↔ batched.1 = MessagePublisher.Fulfilled) ∧
  (∀ e, direct.1 = Throw e ↔ batched.1 = MessagePublisher.Rejected e) ∧
  ∃ res more,
    calls direct.2 = calls w ++ CallExecute (final_tx entry) res :: more.
Proof.
  cbv zeta.
  unfold run_alone, Topic.publishMessage, Topic.executeTransaction,
    MessagePublisher.start, final_tx, MessagePublisher.submit_tx.
  unfold bind, try_catch, gets, log, modify, throw, ret.
  destruct (MessagePublisher.submitKey entry) as [key|];
    cbn [MessagePublisher.resume_task fst snd];
    unfold execute;
    (destruct (Transaction_execute (client w) _ (net w)) as [[resp|e] n];
     cbn [MessagePublisher.resume_task fst snd];
     [unfold response_getReceipt; cbn [net fst snd set_net record_call];
      destruct (getReceipt resp n) as [[rc|e] n']|]);
    cbn;
    (split; [rewrite <- ?app_assoc; reflexivity|]);
    (split; [done|]); (split; [done|]);
    (split; [split; done|]);
    (split; [intros e0; split; (done || (intros [= ->]; done))|]);
    eexists _, _; rewrite <- ?app_assoc; reflexivity.
Qed.

(** X7. A balance lookup touches no cache entry but that of its account,
    and a lookup that throws leaves the whole cache as it was: the error is
    the one of the live query, and a stale entry is not dropped. *)
Theorem getHbarBalance_cache_frame (account : Account) w :
  let r := Topic.getHbarBalance account w in
  (∀ other : string, other ≠ id account →
     balanceCache r.2 !! other = balanceCache w !! other) ∧
  (∀ e, r.1 = Throw e →
     balanceCache r.2 = balanceCache w ∧
     (AccountBalanceQuery_execute (id account) (net w)).1 = Throw e) ∧
  client r.2 = client w ∧ context r.2 = context w.
Proof.
  cbv zeta.
  assert (Topic.getHbarBalance account w = (Topic.live_balance account w)
          ∨ ∃ b, Topic.getHbarBalance account w = (Return b, w)) as [->|[b ->]].
  { unfold Topic.getHbarBalance. unfold bind, gets.
    destruct (Topic.cache_probe account w); [right; by eexists|by left]. }
  - rewrite live_balance_eq. cbv zeta.
    destruct (AccountBalanceQuery_execute (id account) (net w)) as [[res|e] n];
      simpl.
    + split; [|done]. intros other Hne. by rewrite lookup_insert_ne.
    + split; [done|]. split; [|done]. by intros e' [= ->].
  - simpl. done.
Qed.

End TopicSteps.

Lemma given_threshold_key_keys_witness :
  let w := set_context
             (with_secondAccount (Some Toy.bob)
                (with_firstAccount (Some Toy.alice)
                   (context (Toy.world Toy.net0))))
             (Toy.world Toy.net0) in
  let r := Topic.given_threshold_key 3 5 w in
  firstAccount (context w) = Some Toy.alice ∧
  secondAccount (context w) = Some Toy.bob ∧
  thresholdKey (context r.2)
  = Some (KeyList [PublicKey "alice-key"; PublicKey "bob-key"] 3).
Proof.
  intros w r. split; [reflexivity|]. split; [reflexivity|].
  exact (proj1 (proj2 (given_threshold_key_keys 3 5 w
                         Toy.alice Toy.bob eq_refl eq_refl))).
Defined.

(** ** Every published message is kept, once, in order *)

Section Conservation.
Context {Net : Type} `{!Sdk Net}.
Implicit Type p : MessagePublisher.Publisher.
Implicit Type s : World Net * MessagePublisher.Publisher.

Import MessagePublisher.

Lemma well_formed_new : well_formed new.
Proof. split; [simpl; lia|constructor]. Qed.

Lemma well_formed_push (entry : Entry) p :
  well_formed p →
  well_formed (push entry p) ∧ batches (push entry p) = batches p.
Proof.
  intros [Hpm Hfl]. split; [split; [done|]|].
  - simpl. eapply Forall_impl; [exact Hfl|]. intros fl [Hlt Hlen]. simpl in *.
    split; [done|]. rewrite array_push_ne by lia. done.
  - unfold batches. simpl. apply Forall_fmap_ext.
    eapply Forall_impl; [exact Hfl|]. intros fl [Hlt _]. simpl in *.
    apply array_push_ne. lia.
Qed.

Lemma well_formed_flushMessages p :
  well_formed p →
  well_formed (flushMessages p) ∧
  batches (flushMessages p) = batches p ++ [queue p].
Proof.
  intros [Hpm Hfl]. split; [split; [simpl; lia|]|].
  - cbn [flights flushMessages pendingMessages]. apply Forall_app. split.
    + eapply Forall_impl; [exact Hfl|]. intros fl [Hlt Hlen].
      split; [lia|]. rewrite array_flushMessages_old by lia. done.
    + apply Forall_singleton. cbn [messages tasks]. split; [lia|].
      by rewrite array_flushMessages_copy, length_fmap.
  - unfold batches. cbn [flights flushMessages]. rewrite fmap_app. f_equal.
    + apply Forall_fmap_ext. eapply Forall_impl; [exact Hfl|].
      intros fl [Hlt _]. simpl in Hlt. apply array_flushMessages_old. lia.
    + simpl. by rewrite array_flushMessages_copy.
Qed.

Lemma resume_keeps_arrays (f i : nat) s :
  (well_formed s.2 → well_formed (resume f i s).2) ∧
  batches (resume f i s).2 = batches s.2 ∧
  queue (resume f i s).2 = queue s.2.
Proof.
  destruct s as [w p]. unfold resume.
  destruct (flights p !! f) as [fl0|] eqn:Hf; [|done].
  destruct (tasks fl0 !! i) as [t0|] eqn:Hi; [|done].
  destruct (resume_task t0 w) as [t0' w']. cbn [snd].
  split; [|split; [|done]].
  - intros [Hpm Hfl]. split; [done|]. cbn [flights pendingMessages].
    apply Forall_insert; [exact Hfl|].
    pose proof (Forall_lookup_1 _ _ _ _ Hfl Hf) as [Hlt Hlen].
    cbn [messages tasks]. by rewrite length_insert.
  - unfold batches. cbn [flights]. rewrite list_fmap_insert.
    apply list_insert_id. by rewrite list_lookup_fmap, Hf.
Qed.

(** The invariant of every run of the publisher. *)
Lemma run_conserves (evs : list event) :
  ∀ s (sent : list Entry),
  well_formed s.2 → concat (batches s.2) ++ queue s.2 = sent →
  (length (queue s.2) < 5)%nat →
  well_formed (run evs s).2 ∧
  concat (batches (run evs s).2) ++ queue (run evs s).2 = sent ++ published evs ∧
  (length (queue (run evs s).2) < 5)%nat.
Proof.
  induction evs as [|ev evs IH]; intros s sent Hwf Hsent Hlen.
  - simpl. by rewrite app_nil_r.
  - cbn [run foldl]. destruct ev as [entry| |f i].
    + change (published (Publish entry :: evs)) with (entry :: published evs).
      replace (sent ++ entry :: published evs)
        with ((sent ++ [entry]) ++ published evs) by (by rewrite <- app_assoc).
      destruct (well_formed_push entry s.2 Hwf) as [Hwf1 Hb1].
      apply (IH (step (Publish entry) s)); cbn [step snd]; unfold publish.
      * case_bool_decide; [|done]. by apply well_formed_flushMessages.
      * case_bool_decide.
        -- destruct (well_formed_flushMessages _ Hwf1) as [_ ->].
           rewrite queue_flushMessages, app_nil_r, concat_app, Hb1, queue_push.
           simpl. by rewrite app_nil_r, app_assoc, Hsent.
        -- by rewrite Hb1, queue_push, app_assoc, Hsent.
      * case_bool_decide; [by rewrite queue_flushMessages; simpl; lia|lia].
    + apply (IH (step Flush s)); cbn [step snd].
      * by apply well_formed_flushMessages.
      * destruct (well_formed_flushMessages _ Hwf) as [_ ->].
        rewrite queue_flushMessages, app_nil_r, concat_app. simpl.
        by rewrite app_nil_r.
      * rewrite queue_flushMessages. simpl. lia.
    + destruct (resume_keeps_arrays f i s) as (Hwf1 & Hb1 & Hq1).
      apply (IH (step (Resume f i) s)); cbn [step].
      * by apply Hwf1.
      * by rewrite Hb1, Hq1.
      * by rewrite Hq1.
Qed.

(** X8. From a new publisher, after any calls of [publish] and
    [flushMessages] and any answers of the network in any order, the batches
    of the flushes, oldest first, followed by the queue are exactly the
    published messages in the order of publishing: none is lost, none is
    submitted twice, none is reordered across batches.  Every flush has one
    callback for each entry of its batch. *)
Theorem publisher_conserves_messages (evs : list event) (w : World Net) :
  let p := (run evs (w, new)).2 in
  concat (batches p) ++ queue p = published evs ∧
  Forall (λ fl, length (tasks fl) = length (array (messages fl) p)) (flights p).
Proof.
  cbv zeta.
  destruct (run_conserves evs (w, new) [] well_formed_new) as ([_ Hfl] & Hc & _).
  - vm_compute. reflexivity.
  - vm_compute. lia.
  - split; [exact Hc|]. eapply Forall_impl; [exact Hfl|]. by intros fl [_ ?].
Qed.

(** X9. From a new publisher the queue never holds five messages once a
    call has returned to the event loop: at most four are waiting, whatever
    was published and flushed before. *)
Theorem queue_stays_below_five (evs : list event) (w : World Net) :
  (length (queue (run evs (w, new)).2) ≤ 4)%nat.
Proof.
  destruct (run_conserves evs (w, new) [] well_formed_new) as (_ & _ & Hlen).
  - vm_compute. reflexivity.
  - vm_compute. lia.
  - lia.
Qed.

End Conservation.

(** ** The teardown hook *)

Section Teardown.
Context {Net : Type} `{!Sdk Net}.
Implicit Type w : World Net.
Implicit Type s : World Net * MessagePublisher.Publisher.

Lemma deleted_app (l1 l2 : list SdkCall) :
  omap deleted_topic (l1 ++ l2) = omap deleted_topic l1 ++ omap deleted_topic l2.
Proof. apply omap_app. Qed.

(** One round of the topic loop never throws, asks the network to delete
    its topic and nothing else, and leaves the module state alone. *)
Lemma delete_topic_round (t : option TopicId) w :
  let r := Hooks.delete_topic t w in
  r.1 = Return tt ∧ context r.2 = context w ∧
  balanceCache r.2 = balanceCache w ∧ client r.2 = client w ∧
  omap deleted_topic (calls r.2)
  = omap deleted_topic (calls w) ++ option_list t.
Proof.
  cbv zeta. unfold Hooks.delete_topic, Topic.executeTransaction.
  unfold_async. destruct t as [t|]; simpl.
  - destruct (Transaction_execute (client w) _ (net w)) as [[resp|e] n]; simpl.
    + destruct (getReceipt resp n) as [[rc|e] n']; simpl;
        rewrite !deleted_app; simpl; rewrite ?app_nil_r; done.
    + rewrite deleted_app. done.
  - by rewrite app_nil_r.
Qed.

Lemma delete_topics_loop (ts : list (option TopicId)) :
  ∀ w,
  let r := Hooks.for_of ts Hooks.delete_topic w in
  r.1 = Return tt ∧ context r.2 = context w ∧
  balanceCache r.2 = balanceCache w ∧ client r.2 = client w ∧
  omap deleted_topic (calls r.2)
  = omap deleted_topic (calls w) ++ omap (λ i, i) ts.
Proof.
  induction ts as [|t ts IH]; intros w; cbv zeta.
  - simpl. by rewrite app_nil_r.
  - cbn [Hooks.for_of]. unfold bind.
    destruct (delete_topic_round t w) as (Hr & Hc & Hb & Hcl & Hd).
    destruct (Hooks.delete_topic t w) as [r1 w1]. simpl in *. subst r1.
    destruct (IH w1) as (Hr' & Hc' & Hb' & Hcl' & Hd').
    split; [done|]. split; [congruence|]. split; [congruence|].
    split; [congruence|]. rewrite Hd', Hd, <- app_assoc. f_equal.
    by destruct t.
Qed.

Lemma delete_accounts_loop (accs : list (option AccountId)) :
  ∀ w,
  let r := Hooks.for_of accs Hooks.delete_account w in
  r.1 = Return tt ∧ context r.2 = context w ∧
  balanceCache r.2 = balanceCache w ∧ client r.2 = client w ∧
  calls r.2 = calls w ∧ net r.2 = net w.
Proof.
  induction accs as [|a accs IH]; intros w; cbv zeta; [done|].
  cbn [Hooks.for_of]. unfold bind, Hooks.delete_account, log, modify.
  apply (IH (record_log _ w)).
Qed.

Lemma cleanup_outcome w :
  let r := Hooks.cleanup w in
  r.1 = Return tt ∧
  context r.2 =
    with_createdResources {| topics := []; accounts := [] |} (context w) ∧
  balanceCache r.2 = ∅ ∧ client r.2 = client w ∧
  omap deleted_topic (calls r.2)
  = omap deleted_topic (calls w)
    ++ omap (λ i, i) (topics (createdResources (context w))).
Proof.
  cbv zeta. unfold Hooks.cleanup, Topic.update_context, bind, gets, modify.
  destruct (delete_topics_loop (topics (createdResources (context w))) w)
    as (Hr & Hc & Hb & Hcl & Hd).
  destruct (Hooks.for_of _ Hooks.delete_topic w) as [r1 w1].
  cbn [fst snd] in *. subst r1.
  destruct (delete_accounts_loop (accounts (createdResources (context w1))) w1)
    as (Hr2 & Hc2 & Hb2 & Hcl2 & Hcalls2 & _).
  destruct (Hooks.for_of _ Hooks.delete_account w1) as [r2 w2].
  cbn [fst snd] in *. subst r2. simpl.
  rewrite Hc2, Hc, Hcl2, Hcl, Hcalls2. done.
Qed.

Lemma step_keeps_module_state (ev : MessagePublisher.event) s :
  context (MessagePublisher.step ev s).1 = context s.1 ∧
  balanceCache (MessagePublisher.step ev s).1 = balanceCache s.1 ∧
  client (MessagePublisher.step ev s).1 = client s.1.
Proof.
  destruct s as [w p]. destruct ev as [entry| |f i]; [done|done|].
  cbn [MessagePublisher.step MessagePublisher.resume].
  destruct (MessagePublisher.flights p !! f) as [fl|]; [|done].
  destruct (MessagePublisher.tasks fl !! i) as [t|]; [|done].
  assert (context (MessagePublisher.resume_task t w).2 = context w ∧
          balanceCache (MessagePublisher.resume_task t w).2 = balanceCache w ∧
          client (MessagePublisher.resume_task t w).2 = client w) as Hk.
  { destruct t as [tx key topic|tx topic|tx resp topic| |e]; simpl; try done.
    - unfold execute.
      by destruct (Transaction_execute (client w) tx (net w)) as [[?|?] ?].
    - unfold response_getReceipt.
      by destruct (getReceipt resp (net w)) as [[?|?] ?]. }
  by destruct (MessagePublisher.resume_task t w).
Qed.

Lemma await_flight_keeps_module_state (f : nat)
  (evs : list MessagePublisher.event) :
  ∀ s r s1, Hooks.await_flight f evs s = Some (r, s1) →
  context s1.1 = context s.1 ∧ balanceCache s1.1 = balanceCache s.1 ∧
  client s1.1 = client s.1.
Proof.
  induction evs as [|ev evs IH]; intros s r s1 Ha; cbn [Hooks.await_flight] in Ha.
  - destruct (MessagePublisher.all <$> _) as [[| |e]|]; by simplify_eq.
  - destruct (MessagePublisher.all <$> _) as [[| |e]|]; try by simplify_eq.
    destruct (IH _ _ _ Ha) as (Hc & Hb & Hcl).
    destruct (step_keeps_module_state ev s) as (Hc' & Hb' & Hcl').
    split; [congruence|]. split; congruence.
Qed.

(** X10. When the flush of the hook resolves, the hook returns normally,
    whatever the network answers to the deletions: every topic in the
    resource set has been asked to be deleted, in order, a failed deletion
    not stopping the later ones; the resource set and the balance cache are
    empty afterwards and the rest of [context] is as it was.  With an empty
    queue the flush resolves at once. *)
Theorem After_cleans_up (evs : list MessagePublisher.event) s :
  let w := record_log (console_log "Cleaning up test resources...") s.1 in
  let flushed := MessagePublisher.step MessagePublisher.Flush (w, s.2) in
  let awaited :=
    Hooks.await_flight (length (MessagePublisher.flights s.2)) evs flushed in
  (∀ s1, awaited = Some (Return tt, s1) →
     ∃ w', Hooks.After evs s = Some (Return tt, (w', s1.2)) ∧
           context w' =
             with_createdResources {| topics := []; accounts := [] |}
               (context s.1) ∧
           balanceCache w' = ∅ ∧
           omap deleted_topic (calls w')
           = omap deleted_topic (calls s1.1)
             ++ omap (λ i, i) (topics (createdResources (context s.1)))) ∧
  (MessagePublisher.queue s.2 = [] → awaited = Some (Return tt, flushed)).
Proof.
  cbv zeta. split.
  - intros s1 Ha. unfold Hooks.After. rewrite Ha.
    destruct (await_flight_keeps_module_state _ _ _ _ _ Ha) as (Hc & _ & _).
    cbn [MessagePublisher.step fst snd] in Hc.
    destruct (cleanup_outcome s1.1) as (Hr & Hctx & Hb & _ & Hd).
    eexists. split; [by rewrite Hr|]. rewrite Hctx, Hd, Hc. done.
  - intros Hq. cbn [MessagePublisher.step fst snd].
    destruct evs as [|ev evs]; cbn [Hooks.await_flight snd];
      rewrite flushMessages_flight, Hq; reflexivity.
Qed.

(** X11. When the flush of the hook is rejected, because a queued message
    could not be submitted, the hook throws that error at once: no topic
    deletion follows, and the resource set and the balance cache are left
    as they were for the next scenario. *)
Theorem After_aborts_on_failed_flush (evs : list MessagePublisher.event) s
  (e : error) (s1 : World Net * MessagePublisher.Publisher)
  (Hrejected :
     Hooks.await_flight (length (MessagePublisher.flights s.2)) evs
       (MessagePublisher.step MessagePublisher.Flush
          (record_log (console_log "Cleaning up test resources...") s.1, s.2))
     = Some (Throw e, s1)) :
  Hooks.After evs s = Some (Throw e, s1) ∧
  context s1.1 = context s.1 ∧
  balanceCache s1.1 = balanceCache s.1.
Proof.
  unfold Hooks.After. rewrite Hrejected. split; [done|].
  destruct (await_flight_keeps_module_state _ _ _ _ _ Hrejected) as (Hc & Hb & _).
  done.
Qed.

End Teardown.

Lemma After_aborts_on_failed_flush_witness :
  let sdk := Toy.sdk [] in
  let s := (Toy.tracked_world, Toy.one_refused) in
  let evs := [MessagePublisher.Resume 0 0] in
  let s1 :=
    MessagePublisher.run (Sdk0 := sdk) (MessagePublisher.Flush :: evs)
      (record_log (console_log "Cleaning up test resources...") s.1, s.2) in
  Hooks.await_flight (Sdk0 := sdk) (length (MessagePublisher.flights s.2)) evs
    (MessagePublisher.step (Sdk0 := sdk) MessagePublisher.Flush
       (record_log (console_log "Cleaning up test resources...") s.1, s.2))
  = Some (Throw (ThrownValue "INVALID_TOPIC_ID"), s1) ∧
  Hooks.After (Sdk0 := sdk) evs s
  = Some (Throw (ThrownValue "INVALID_TOPIC_ID"), s1) ∧
  topics (createdResources (context s1.1))
  = [Some "0.0.5"; None; Some "0.0.6"].
Proof.
  intros sdk s evs s1.
  assert (Hooks.await_flight (Sdk0 := sdk)
            (length (MessagePublisher.flights s.2)) evs
            (MessagePublisher.step (Sdk0 := sdk) MessagePublisher.Flush
               (record_log (console_log "Cleaning up test resources...") s.1,
                s.2))
          = Some (Throw (ThrownValue "INVALID_TOPIC_ID"), s1)) as Hrejected
    by (vm_compute; reflexivity).
  split; [exact Hrejected|].
  destruct (After_aborts_on_failed_flush (Sdk0 := sdk) evs s _ s1 Hrejected)
    as (Hafter & Hctx & _).
  split; [exact Hafter|]. rewrite Hctx. reflexivity.
Defined.

(** The hook on an empty queue: both topics are asked to be deleted, the
    [null] is skipped with a logged error, everything is cleared. *)
Example After_on_tracked_world :
  let sdk := Toy.sdk [] in
  let r := Hooks.After (Sdk0 := sdk) [] (Toy.tracked_world, MessagePublisher.new) in
  (λ x, (x.1, omap deleted_topic (calls x.2.1),
         createdResources (context x.2.1), balanceCache x.2.1)) <$> r
  = Some (Return tt, ["0.0.5"; "0.0.6"],
          {| topics := []; accounts := [] |}, ∅).
Proof. vm_compute. reflexivity. Qed.

(** ** More on the subscription matcher *)

Section MatcherTraces.
Variable Buffer_toString : list Byte.byte → string.
Variable expectedMessage : string.

Abbreviation deliver' :=
  (Subscription.deliver Buffer_toString expectedMessage).
Abbreviation run' := (Subscription.run Buffer_toString expectedMessage).

Lemma settle_keeps (outcome : Subscription.promise) (s : Subscription.State) :
  Subscription.timeoutId (Subscription.settle outcome s)
    = Subscription.timeoutId s ∧
  Subscription.live (Subscription.settle outcome s) = Subscription.live s ∧
  Subscription.console (Subscription.settle outcome s)
    = Subscription.console s.
Proof. unfold Subscription.settle. by destruct (Subscription.wait s). Qed.

Lemma advance_keeps (t : Z) (s : Subscription.State) :
  Subscription.live (Subscription.advance expectedMessage t s)
    = Subscription.live s ∧
  Subscription.console (Subscription.advance expectedMessage t s)
    = Subscription.console s.
Proof.
  unfold Subscription.advance. destruct (Subscription.timeoutId s); try done.
  case_bool_decide; [|done]. unfold Subscription.on_timeout.
  by destruct (settle_keeps
                 (Subscription.Rejected
                    (Subscription.timeout_error expectedMessage))
                 {| Subscription.wait := Subscription.wait s;
                    Subscription.timeoutId := Subscription.Fired;
                    Subscription.live := Subscription.live s;
                    Subscription.console := Subscription.console s |})
    as (_ & -> & ->).
Qed.

(** X12. The timer callback rejects the wait and does nothing else: after a
    timeout the subscription handle is still live.  A matching message that
    arrives later still runs the handler, which unsubscribes then; the wait
    stays rejected with the timeout error. *)
Theorem timeout_leaves_subscription_open (s : Subscription.State)
  (deadline t t' : Z) (contents : list Byte.byte)
  (Hwait : Subscription.wait s = Subscription.Pending)
  (Htimer : Subscription.timeoutId s = Subscription.Armed deadline)
  (Hdue : deadline ≤ t) :
  let timed_out := Subscription.advance expectedMessage t s in
  let late := deliver' (t', Subscription.OnMessage contents) timed_out in
  Subscription.wait timed_out
    = Subscription.Rejected (Subscription.timeout_error expectedMessage) ∧
  Subscription.timeoutId timed_out = Subscription.Fired ∧
  Subscription.live timed_out = Subscription.live s ∧
  Subscription.wait late
    = Subscription.Rejected (Subscription.timeout_error expectedMessage) ∧
  (Buffer_toString contents = expectedMessage → Subscription.live late = false).
Proof.
  cbv zeta.
  assert (Subscription.advance expectedMessage t s
          = {| Subscription.wait :=
                 Subscription.Rejected
                   (Subscription.timeout_error expectedMessage);
               Subscription.timeoutId := Subscription.Fired;
               Subscription.live := Subscription.live s;
               Subscription.console := Subscription.console s |}) as ->.
  { unfold Subscription.advance. rewrite Htimer.
    rewrite bool_decide_eq_true_2 by lia.
    unfold Subscription.on_timeout, Subscription.settle. simpl.
    by rewrite Hwait. }
  split; [done|]. split; [done|]. split; [done|].
  unfold Subscription.deliver, Subscription.advance, Subscription.on_message.
  simpl. case_bool_decide; simpl; done.
Qed.

Lemma deliver_console (ev : Z * Subscription.callback) (s : Subscription.State) :
  Subscription.console (deliver' ev s)
  = Subscription.console s ++ received Buffer_toString [ev].
Proof.
  unfold Subscription.deliver.
  destruct ev as [t cb]. destruct (advance_keeps t s) as [_ Hc].
  destruct cb as [contents|e]; cbn [fst snd received omap].
  - unfold Subscription.on_message. case_bool_decide.
    + destruct (settle_keeps Subscription.Resolved
                  (Subscription.unsubscribe
                     (Subscription.clearTimeout
                        (Subscription.console_log_received
                           (Buffer_toString contents)
                           (Subscription.advance expectedMessage t s)))))
        as (_ & _ & ->).
      simpl. by rewrite Hc.
    + simpl. by rewrite Hc.
  - unfold Subscription.on_error.
    destruct (settle_keeps (Subscription.Rejected e)
                (Subscription.clearTimeout
                   (Subscription.advance expectedMessage t s)))
      as (_ & _ & ->).
    simpl. by rewrite Hc, app_nil_r.
Qed.

(** X13. Every message the subscription delivers is printed to the console,
    decoded, in the order of delivery, whether it matches or not and also
    after the wait has been settled; errors and the timer print nothing. *)
Theorem every_message_is_logged (trace : list (Z * Subscription.callback)) :
  ∀ s : Subscription.State,
  Subscription.console (run' trace s)
  = Subscription.console s ++ received Buffer_toString trace.
Proof.
  induction trace as [|ev trace IH]; intros s.
  - simpl. by rewrite app_nil_r.
  - unfold Subscription.run in *. cbn [foldl].
    rewrite (IH (deliver' ev s)), deliver_console, <- app_assoc. f_equal.
    by destruct ev as [t [contents|e]].
Qed.

Lemma deliver_after_match (ev : Z * Subscription.callback)
  (s : Subscription.State) :
  Subscription.wait s = Subscription.Resolved →
  Subscription.timeoutId s = Subscription.Cleared →
  Subscription.live s = false →
  Subscription.wait (deliver' ev s) = Subscription.Resolved ∧
  Subscription.timeoutId (deliver' ev s) = Subscription.Cleared ∧
  Subscription.live (deliver' ev s) = false.
Proof.
  intros Hw Ht Hl. unfold Subscription.deliver, Subscription.advance.
  rewrite Ht. destruct ev as [t [contents|e]]; cbn [fst snd].
  - unfold Subscription.on_message, Subscription.settle. simpl.
    case_bool_decide; simpl; rewrite Hw; simpl; rewrite ?Ht; done.
  - unfold Subscription.on_error, Subscription.settle. simpl.
    rewrite Hw. simpl. by rewrite Ht.
Qed.

Lemma run_after_match (trace : list (Z * Subscription.callback)) :
  ∀ s : Subscription.State,
  Subscription.wait s = Subscription.Resolved →
  Subscription.timeoutId s = Subscription.Cleared →
  Subscription.live s = false →
  Subscription.wait (run' trace s) = Subscription.Resolved ∧
  Subscription.timeoutId (run' trace s) = Subscription.Cleared ∧
  Subscription.live (run' trace s) = false.
Proof.
  induction trace as [|ev trace IH]; intros s Hw Ht Hl; [done|].
  unfold Subscription.run in *. cbn [foldl].
  destruct (deliver_after_match ev s Hw Ht Hl) as (Hw' & Ht' & Hl').
  by apply IH.
Qed.

(** X14. The first matching message that arrives before the deadline, after
    nothing but non-matching messages, resolves the wait for good: whatever
    is delivered afterwards, the wait is resolved, the timer is cleared and
    never fires, and the subscription stays unsubscribed. *)
Theorem first_match_resolves (start t : Z) (timeout : option Z)
  (before after : list (Z * Subscription.callback))
  (contents : list Byte.byte)
  (Hbefore : ∀ t' cb, (t', cb) ∈ before →
     t' < start + default 10000 timeout ∧
     ∃ other, cb = Subscription.OnMessage other
              ∧ Buffer_toString other ≠ expectedMessage)
  (Hintime : t < start + default 10000 timeout)
  (Hmatch : Buffer_toString contents = expectedMessage) :
  let s := run' (before ++ (t, Subscription.OnMessage contents) :: after)
             (Subscription.subscribeToTopic start timeout) in
  Subscription.wait s = Subscription.Resolved ∧
  Subscription.timeoutId s = Subscription.Cleared ∧
  Subscription.live s = false.
Proof.
  cbv zeta. unfold Subscription.run. rewrite foldl_app. cbn [foldl].
  destruct (run_before_deadline Buffer_toString expectedMessage
              (start + default 10000 timeout) before
              (Subscription.subscribeToTopic start timeout))
    as (Hw & Ht & Hl); [done|done|exact Hbefore|].
  fold (run' before (Subscription.subscribeToTopic start timeout)).
  set (s1 := run' before (Subscription.subscribeToTopic start timeout)) in *.
  apply run_after_match.
  - unfold Subscription.deliver. cbn [fst snd].
    rewrite (advance_before expectedMessage t _ s1 Ht Hintime).
    by destruct (on_message_match Buffer_toString expectedMessage contents s1
                   Hw Hmatch) as (? & ? & ?).
  - unfold Subscription.deliver. cbn [fst snd].
    rewrite (advance_before expectedMessage t _ s1 Ht Hintime).
    destruct (on_message_match Buffer_toString expectedMessage contents s1
                Hw Hmatch) as (_ & H2 & _).
    by rewrite H2, Ht.
  - unfold Subscription.deliver. cbn [fst snd].
    rewrite (advance_before expectedMessage t _ s1 Ht Hintime).
    by destruct (on_message_match Buffer_toString expectedMessage contents s1
                   Hw Hmatch) as (? & ? & ?).
Qed.

End MatcherTraces.

Lemma timeout_leaves_subscription_open_witness :
  let s := Subscription.subscribeToTopic 0 None in
  let timed_out := Subscription.advance "hi" 10000 s in
  let late :=
    Subscription.deliver String.string_of_list_byte "hi"
      (10500, Subscription.OnMessage (String.list_byte_of_string "hi"))
      timed_out in
  Subscription.wait s = Subscription.Pending ∧
  Subscription.timeoutId s = Subscription.Armed 10000 ∧
  10000 ≤ 10000 ∧
  Subscription.live timed_out = true ∧
  Subscription.wait late
  = Subscription.Rejected (Error "Timeout waiting for message: hi") ∧
  Subscription.live late = false.
Proof.
  intros s timed_out late.
  destruct (timeout_leaves_subscription_open String.string_of_list_byte "hi" s
              10000 10000 10500 (String.list_byte_of_string "hi")
              eq_refl eq_refl ltac:(lia)) as (_ & _ & Hlive & Hwait & Hlate).
  split; [reflexivity|]. split; [reflexivity|]. split; [lia|].
  split; [exact Hlive|]. split; [exact Hwait|]. apply Hlate. reflexivity.
Defined.

Lemma first_match_resolves_witness :
  let before :=
    [(100, Subscription.OnMessage (String.list_byte_of_string "no"))] in
  let after := [(20000, Subscription.OnError (Error "stream closed"))] in
  let s :=
    Subscription.run String.string_of_list_byte "hi"
      (before ++ (200, Subscription.OnMessage (String.list_byte_of_string "hi"))
              :: after)
      (Subscription.subscribeToTopic 0 None) in
  200 < 0 + default 10000 None ∧
  Subscription.wait s = Subscription.Resolved ∧
  Subscription.timeoutId s = Subscription.Cleared ∧
  Subscription.live s = false.
Proof.
  intros before after s. split; [done|].
  apply (first_match_resolves String.string_of_list_byte "hi" 0 200 None
           before after (String.list_byte_of_string "hi")).
  - intros t' cb Hin. apply list_elem_of_singleton in Hin.
    injection Hin as -> ->. split; [done|]. eexists. split; [reflexivity|].
    intros Heq. vm_compute in Heq. discriminate.
  - done.
  - reflexivity.
Defined.

(** ** More on the account pool resolvers *)

Section ResolverSafety.
Context {Net : Type} `{!Sdk Net}.
Implicit Type w : World Net.

Lemma live_balance_bindings (account : Account) w :
  same_bindings w (Topic.live_balance account w).2.
Proof.
  rewrite live_balance_eq. cbv zeta.
  by destruct (AccountBalanceQuery_execute (id account) (net w)) as [[?|?] ?].
Qed.

Lemma arrivals_bindings (order : list nat) :
  ∀ (slots : list (Account * option number)) w,
  let r := Topic.arrivals order slots w in
  same_bindings w r.2 ∧
  ∀ slots', r.1 = Return slots' → fst <$> slots' = fst <$> slots.
Proof.
  induction order as [|i order IH]; intros slots w; cbv zeta.
  - simpl. split; [apply same_bindings_refl|]. by intros ? [= <-].
  - cbn [Topic.arrivals]. unfold bind, Topic.arrive.
    destruct (slots !! i) as [[a [b0|]]|] eqn:Hi; try apply IH.
    pose proof (live_balance_bindings a w) as Hb.
    unfold bind. destruct (Topic.live_balance a w) as [[b|e] w1]; simpl in *.
    + destruct (IH (<[i := (a, Some b)]> slots) w1) as [Hs Hfst].
      split; [by eapply same_bindings_trans|].
      intros slots' Hr. rewrite (Hfst slots' Hr), list_fmap_insert.
      apply list_insert_id. by rewrite list_lookup_fmap, Hi.
    + split; [done|]. done.
Qed.

Lemma Promise_all_balances_bindings (pool : list Account) (order : list nat) w :
  let r := Topic.Promise_all_balances pool order w in
  same_bindings w r.2 ∧
  ∀ l, r.1 = Return l → ∀ x, x ∈ l → x.1 ∈ pool.
Proof.
  cbv zeta. unfold Topic.Promise_all_balances, bind, gets, ret.
  destruct (arrivals_bindings (order ++ seq 0 (length pool))
              (Topic.start_all pool w) w) as [Hs Hfst].
  destruct (Topic.arrivals _ _ w) as [[slots'|e] w']; simpl in *; [|done].
  split; [done|]. intros l [= <-] x Hx.
  unfold Topic.fulfilled in Hx. apply list_elem_of_omap in Hx as (slot & Hin & Hx).
  assert (x.1 = slot.1) as -> by (destruct slot as [a [b|]]; by simplify_eq/=).
  assert (slot.1 ∈ fst <$> slots') as Hin' by (by apply list_elem_of_fmap_2).
  rewrite (Hfst slots' eq_refl) in Hin'. unfold Topic.start_all in Hin'.
  rewrite <- list_fmap_compose in Hin'.
  by rewrite list_fmap_id in Hin'.
Qed.

Lemma scan_accounts_bindings (expectedBalance : Z) (accs : list Account) :
  ∀ w,
  let r := Token.scan_accounts accs expectedBalance w in
  client r.2 = client w ∧ context r.2 = context w ∧
  balanceCache r.2 = balanceCache w ∧
  (r.1 = Return tt →
     ∃ a, a ∈ accs ∧ token_firstAccount (token_vars r.2) = a
          ∧ token_client r.2 = Some (as_operator a)) ∧
  (∀ e, r.1 = Throw e →
     token_client r.2 = token_client w ∧ token_vars r.2 = token_vars w).
Proof.
  induction accs as [|acc rest IH]; intros w; cbv zeta.
  - simpl. unfold throw. simpl. done.
  - cbn [Token.scan_accounts]. unfold bind. rewrite !getAccountBalance_eq.
    cbv zeta.
    destruct (AccountBalanceQuery_execute (id acc) (net w)) as [[res|e] n];
      cbn [fst snd Token.hbar]; [|done].
    destruct (gt (hbars res) (Number_of_Z expectedBalance)).
    + simpl. split; [done|]. split; [done|]. split; [done|].
      split; [|done]. intros _. exists acc. split; [|done].
      apply elem_of_cons. by left.
    + destruct (IH (record_call (CallBalance (id acc) (Return res))
                      (set_net n w))) as (Hc & Hctx & Hb & Hret & Hthr).
      split; [done|]. split; [done|]. split; [done|]. split; [|done].
      intros Hr. destruct (Hret Hr) as (a & Hin & Ha).
      exists a. split; [|done]. apply elem_of_cons. by right.
Qed.

(** X15. Neither resolver ever binds an account from outside the pool, and
    each binds the operator and the first account together or not at all:
    when the step returns, both are the same pool account; when it throws,
    whether by its assertion or by a failed balance query, both are as they
    were.  Each step file has its own client: the resolver of one never
    touches the operator or the variables of the other, and the token
    resolver never touches the balance cache. *)
Theorem resolvers_bind_pool_accounts (pool : list Account) (order : list nat)
  (minimum : Z) w :
  let topic := Topic.given_first_account pool order minimum w in
  let token := Token.given_account_with_more_than pool minimum w in
  (topic.1 = Return tt →
     ∃ a, a ∈ pool ∧ firstAccount (context topic.2) = Some a
          ∧ client topic.2 = Some (as_operator a)) ∧
  (∀ e, topic.1 = Throw e →
     client topic.2 = client w ∧ context topic.2 = context w) ∧
  token_client topic.2 = token_client w ∧ token_vars topic.2 = token_vars w ∧
  (token.1 = Return tt →
     ∃ a, a ∈ pool ∧ token_firstAccount (token_vars token.2) = a
          ∧ token_client token.2 = Some (as_operator a)) ∧
  (∀ e, token.1 = Throw e →
     token_client token.2 = token_client w ∧ token_vars token.2 = token_vars w) ∧
  client token.2 = client w ∧ context token.2 = context w ∧
  balanceCache token.2 = balanceCache w.
Proof.
  cbv zeta.
  destruct (scan_accounts_bindings minimum pool w)
    as (Hc & Hctx & Hb & Hret & Hthr).
  unfold Token.given_account_with_more_than.
  split; [|split; [|split; [|split]]]; [| | | |done].
  - unfold Topic.given_first_account, bind.
    destruct (Promise_all_balances_bindings pool order w) as [Hs Hin].
    destruct (Topic.Promise_all_balances pool order w) as [[l|e] w'];
      simpl in *; [|done].
    destruct (List.find _ l) as [[a b]|] eqn:Hfind; simpl; [|done].
    intros _. exists a. split; [|done].
    apply find_some in Hfind as [Hl _].
    apply (Hin l eq_refl (a, b)). by apply list_elem_of_In.
  - unfold Topic.given_first_account, bind.
    destruct (Promise_all_balances_bindings pool order w) as [Hs _].
    destruct Hs as (Hcl & Hcx & _ & _).
    destruct (Topic.Promise_all_balances pool order w) as [[l|e] w'];
      simpl in *; [|done].
    destruct (List.find _ l) as [[a b]|]; simpl; done.
  - unfold Topic.given_first_account, bind.
    destruct (Promise_all_balances_bindings pool order w) as [Hs _].
    destruct Hs as (_ & _ & Htc & _).
    destruct (Topic.Promise_all_balances pool order w) as [[l|e] w'];
      simpl in *; [|done].
    destruct (List.find _ l) as [[a b]|]; simpl; done.
  - unfold Topic.given_first_account, bind.
    destruct (Promise_all_balances_bindings pool order w) as [Hs _].
    destruct Hs as (_ & _ & _ & Htv).
    destruct (Topic.Promise_all_balances pool order w) as [[l|e] w'];
      simpl in *; [|done].
    destruct (List.find _ l) as [[a b]|]; simpl; done.
Qed.

End ResolverSafety.

Section ResolverQueries.
Context {Net : Type} `{!Sdk Net}.
Implicit Type w : World Net.
Variable pool : list Account.
Variable live : AccountId → AccountBalance.
Hypothesis Hlive : stable_balances live.

(** X16. The resolver of the token steps stops at the first account that
    qualifies: while balances are stable it asks the network about the pool
    accounts in order up to and including that account, and about no account
    after it; when none qualifies it has asked about every account once. *)
Theorem token_resolver_stops_at_first (minimum : Z) w :
  calls (Token.given_account_with_more_than pool minimum w).2
  = calls w ++
    ((λ a, CallBalance (id a) (Return (live (id a))))
       <$> scanned (λ a, gt (hbars (live (id a))) (Number_of_Z minimum)) pool).
Proof.
  unfold Token.given_account_with_more_than. revert w.
  induction pool as [|acc rest IH]; intros w.
  - simpl. by rewrite app_nil_r.
  - cbn [Token.scan_accounts scanned]. unfold bind.
    rewrite !getAccountBalance_eq. cbv zeta.
    pose proof (Hlive (id acc) (net w)) as Hq.
    destruct (AccountBalanceQuery_execute (id acc) (net w)) as [q n].
    simpl in Hq. subst q. cbn [fst snd Token.hbar].
    destruct (gt (hbars (live (id acc))) (Number_of_Z minimum)).
    + reflexivity.
    + rewrite IH. cbn [calls record_call set_net fmap list_fmap].
      by rewrite <- app_assoc.
Qed.

Lemma awaited_insert (slots : list (Account * option number)) :
  ∀ (i : nat) (a : Account) (b : number),
  slots !! i = Some (a, None) →
  awaited_queries live slots
  ≡ₚ CallBalance (id a) (Return (live (id a)))
       :: awaited_queries live (<[i := (a, Some b)]> slots).
Proof.
  induction slots as [|[a0 [b0|]] slots IH]; intros i a b Hi; [done|..];
    destruct i as [|i]; simplify_eq/=; try done.
  - by apply IH.
  - unfold awaited_queries in *. simpl.
    rewrite (IH i a b Hi). apply Permutation_swap.
Qed.

Lemma awaited_settled (f : Account → number) (l : list Account) :
  awaited_queries live ((λ a, (a, Some (f a))) <$> l) = [].
Proof. induction l as [|a l IH]; [done|]. simpl. exact IH. Qed.

Lemma awaited_start w :
  awaited_queries live (Topic.start_all pool w) = missed_queries live pool w.
Proof.
  unfold Topic.start_all, awaited_queries, missed_queries.
  induction pool as [|a l IH]; [done|]. simpl.
  destruct (Topic.cache_probe a w); simpl; [exact IH|f_equal; exact IH].
Qed.

(** The answers that arrive are those of the queries awaited, each once. *)
Lemma arrivals_queries (order : list nat) :
  ∀ (slots : list (Account * option number)) w,
  ∃ slots' w' queries,
    Topic.arrivals order slots w = (Return slots', w') ∧
    calls w' = calls w ++ queries ∧
    queries ++ awaited_queries live slots' ≡ₚ awaited_queries live slots.
Proof.
  induction order as [|i order IH]; intros slots w.
  - exists slots, w, []. by rewrite app_nil_r.
  - cbn [Topic.arrivals]. unfold bind at 1. unfold Topic.arrive.
    destruct (slots !! i) as [[a [b0|]]|] eqn:Hi; try apply IH.
    unfold bind at 1. rewrite live_balance_eq. cbv zeta.
    pose proof (Hlive (id a) (net w)) as Hq.
    destruct (AccountBalanceQuery_execute (id a) (net w)) as [q n].
    simpl in Hq. subst q. cbn [fst snd]. unfold ret at 1.
    destruct (IH (<[i := (a, Some (hbars (live (id a))))]> slots)
                (set_balanceCache
                   (<[id a := {| balance := hbars (live (id a));
                                 timestamp := Date_now n |}]> (balanceCache w))
                   (record_call (CallBalance (id a) (Return (live (id a))))
                      (set_net n w))))
      as (slots' & w' & queries & Hrun & Hcalls & Hperm).
    exists slots', w', (CallBalance (id a) (Return (live (id a))) :: queries).
    split; [exact Hrun|]. split.
    + rewrite Hcalls. cbn [calls set_balanceCache record_call set_net].
      by rewrite <- app_assoc.
    + rewrite (awaited_insert slots i a (hbars (live (id a))) Hi).
      simpl. by rewrite Hperm.
Qed.

(** X17. The resolver of the topic steps has no early exit: while balances
    are stable, the calls it makes are balance queries only, one for each
    pool account without a fresh cache entry, whether or not an earlier
    account already qualifies, and none for an account whose entry is fresh.
    The order of the queries' answers is the network's. *)
Theorem topic_resolver_queries_every_miss (order : list nat) (minimum : Z) w :
  ∃ queries,
    calls (Topic.given_first_account pool order minimum w).2
    = calls w ++ queries ∧
    queries ≡ₚ missed_queries live pool w.
Proof.
  unfold Topic.given_first_account, Topic.Promise_all_balances.
  unfold bind at 1 2. unfold gets at 1.
  destruct (arrivals_queries (order ++ seq 0 (length pool))
              (Topic.start_all pool w) w)
    as (slots' & w' & queries & Hrun & Hcalls & Hperm).
  destruct (arrivals_stable live Hlive (order ++ seq 0 (length pool))
              (Topic.start_all pool w) w)
    as (slots'' & w'' & Hrun' & _ & Hlen & Hall).
  assert (slots'' = slots' ∧ w'' = w') as [-> ->] by (split; congruence).
  assert (slots' = (λ a, (a, Some (looked_up live w a))) <$> pool) as Hfilled.
  { apply list_eq. intros j. unfold Topic.start_all in *.
    rewrite list_lookup_fmap.
    destruct (pool !! j) as [a|] eqn:Hj; simpl.
    - rewrite (Hall j (a, Topic.cache_probe a w))
        by (by rewrite list_lookup_fmap, Hj).
      unfold filled, looked_up. simpl. rewrite decide_True; [done|].
      apply elem_of_app. right. apply elem_of_seq.
      apply lookup_lt_Some in Hj. lia.
    - apply lookup_ge_None. rewrite Hlen, length_fmap.
      by apply lookup_ge_None. }
  rewrite Hfilled, awaited_settled, app_nil_r, awaited_start in Hperm.
  exists queries. split; [|exact Hperm].
  unfold bind, ret. rewrite Hrun. rewrite <- Hcalls.
  by destruct (List.find _ _) as [[a b]|].
Qed.

End ResolverQueries.

Lemma token_resolver_stops_at_first_witness :
  let table := [("0.0.1", 50); ("0.0.2", 50)] in
  let r := Token.given_account_with_more_than (Sdk0 := Toy.sdk table)
             [Toy.alice; Toy.bob] 10 (Toy.world Toy.net0) in
  stable_balances (Sdk0 := Toy.sdk table) (Toy.live table) ∧
  calls r.2 = [CallBalance "0.0.1" (Return (Toy.live table "0.0.1"))].
Proof.
  intros table r. split; [apply toy_balances_stable|].
  exact (token_resolver_stops_at_first (Sdk0 := Toy.sdk table)
           [Toy.alice; Toy.bob] (Toy.live table) (toy_balances_stable table)
           10 (Toy.world Toy.net0)).
Defined.

(** Alice has a fresh cache entry and qualifies; bob has none: bob is asked
    all the same, and alice is not. *)
Lemma topic_resolver_queries_every_miss_witness :
  let table := [("0.0.1", 50); ("0.0.2", 50)] in
  let w := Toy.cached_world 1000 in
  let r := Topic.given_first_account (Sdk0 := Toy.sdk table)
             [Toy.alice; Toy.bob] [] 10 w in
  stable_balances (Sdk0 := Toy.sdk table) (Toy.live table) ∧
  r.1 = Return tt ∧ firstAccount (context r.2) = Some Toy.alice ∧
  ∃ queries,
    calls r.2 = calls w ++ queries ∧
    queries ≡ₚ [CallBalance "0.0.2" (Return (Toy.live table "0.0.2"))].
Proof.
  intros table w r. split; [apply toy_balances_stable|].
  split; [vm_compute; reflexivity|]. split; [vm_compute; reflexivity|].
  exact (topic_resolver_queries_every_miss (Sdk0 := Toy.sdk table)
           [Toy.alice; Toy.bob] (Toy.live table) (toy_balances_stable table)
           [] 10 w).
Defined.

(** ** Balance checks of the token steps and the threshold-key topic *)

Section TokenChecks.
Context {Net : Type} `{!Sdk Net}.
Implicit Type w : World Net.

Lemma Number_of_Z_inj (a b : Z) : Number_of_Z a = Number_of_Z b → a = b.
Proof.
  unfold Number_of_Z. intros Heq. apply Q2Qc_eq_iff in Heq.
  exact (proj1 (inject_Z_injective a b) Heq).
Qed.

Lemma gt_spec (a b : number) : gt a b = true ↔ (b < a)%Qc.
Proof. unfold gt. apply bool_decide_eq_true. Qed.

Lemma Number_of_Z_this (z : Z) : this (Number_of_Z z) = inject_Z z.
Proof.
  unfold Number_of_Z. cbn [this Q2Qc]. apply Qred_identity.
  cbn [Qnum Qden inject_Z]. apply Z.gcd_1_r.
Qed.

Lemma round_half_even_exact (n : Z) : round_half_even n 1 = n.
Proof.
  unfold round_half_even. rewrite Z.mod_1_r, Z.div_1_r. reflexivity.
Qed.

Lemma scaled_down (n k : Z) :
  0 ≤ k →
  (scaled n 1 (- k)).1 / (scaled n 1 (- k)).2 = n * 2 ^ k ∧
  round_half_even (scaled n 1 (- k)).1 (scaled n 1 (- k)).2 = n * 2 ^ k.
Proof.
  intros Hk. unfold scaled. destruct (0 <=? - k) eqn:He.
  - assert (k = 0) as -> by lia.
    change (1 * 2 ^ (- 0)) with 1. change (2 ^ 0) with 1. cbn [fst snd].
    rewrite round_half_even_exact, Z.div_1_r. lia.
  - cbn [fst snd].
    rewrite round_half_even_exact, Z.div_1_r, Z.opp_involutive. done.
Qed.

Lemma to_double_pos_exact (n : Z) :
  0 < n ≤ 2 ^ 53 → (to_double_pos n 1 == inject_Z n)%Q.
Proof.
  intros [Hpos Hle].
  destruct (decide (n = 2 ^ 53)) as [->|Hne]; [vm_compute; reflexivity|].
  assert (n < 2 ^ 53) as Hlt by lia. clear Hle Hne.
  pose proof (Z.log2_spec n Hpos) as [Hlo Hhi].
  assert (0 ≤ Z.log2 n) as H0 by apply Z.log2_nonneg.
  assert (Z.log2 n < 53) as Ha.
  { apply Z.log2_lt_pow2; lia. }
  unfold to_double_pos. change (Z.log2 1) with 0.
  assert (∃ k, 0 ≤ k ≤ 52 ∧ Z.log2 n = 52 - k) as (k & Hk & Hlog)
    by (exists (52 - Z.log2 n); lia).
  rewrite Hlog in *.
  assert (2 ^ 52 ≤ n * 2 ^ k) as Hbig.
  { replace (2 ^ 52) with (2 ^ (52 - k) * 2 ^ k).
    - apply Z.mul_le_mono_nonneg_r; [apply Z.pow_nonneg; lia|exact Hlo].
    - rewrite <- Z.pow_add_r by lia. f_equal. lia. }
  assert (0 < 2 ^ k) as Hpk by (apply Z.pow_pos_nonneg; lia).
  replace (52 - k - 0 - 52) with (- k) by lia.
  destruct (scaled_down n k (proj1 Hk)) as [Hq Hr].
  rewrite Hq. destruct (n * 2 ^ k <? 2 ^ 52) eqn:Hc; [lia|].
  rewrite Z.max_l by lia. rewrite Hr.
  destruct (0 <=? - k) eqn:He.
  - assert (k = 0) as -> by lia.
    change (2 ^ (- 0)) with 1. change (2 ^ 0) with 1.
    by rewrite !Z.mul_1_r.
  - rewrite Z.opp_involutive. unfold Qeq. cbn [Qnum Qden inject_Z].
    rewrite Z2Pos.id by lia. lia.
Qed.

Lemma to_double_integer (z : Z) :
  Z.abs z ≤ 2 ^ 53 → Number_of_Long z = Number_of_Z z.
Proof.
  intros Hz. apply Qc_is_canon. unfold Number_of_Long, to_double.
  rewrite Number_of_Z_this. cbn [Qnum Qden inject_Z].
  destruct (Z.compare_spec z 0) as [->|Hneg|Hpos].
  - reflexivity.
  - cbn [this Q2Qc]. rewrite Qred_correct.
    rewrite to_double_pos_exact by lia.
    unfold Qeq. simpl. lia.
  - cbn [this Q2Qc]. rewrite Qred_correct.
    rewrite to_double_pos_exact by lia. reflexivity.
Qed.

(** X18. The balance checks of the token steps ask the network each time
    and change no variable.  The hbar check passes exactly when the live
    balance is strictly above the bound.  The token check passes exactly
    when the held amount, converted by [Number], equals the expected one:
    that is the nearest double, so for a held amount of magnitude up to
    2^53 the check passes exactly when the two amounts are equal.  An
    account that holds no entry for the token, or no token map at all,
    counts as holding 0. *)
Theorem token_balance_checks (bound amount : Z) w (res : AccountBalance)
  (Hanswer :
     (AccountBalanceQuery_execute (id (token_firstAccount (token_vars w)))
        (net w)).1 = Return res) :
  let more := Token.given_first_account_more_than bound w in
  let holds := Token.given_first_holds amount w in
  let entry := result_tokens res ≫= (.!! token_tokenId (token_vars w)) in
  (more.1 = Return tt ↔ (Number_of_Z bound < hbars res)%Qc) ∧
  (holds.1 = Return tt ↔
     token_amount (Some (token_tokenId (token_vars w))) res
     = Number_of_Z amount) ∧
  (∀ held, entry = Some held →
     (holds.1 = Return tt ↔ Number_of_Long held = Number_of_Z amount) ∧
     (Z.abs held ≤ 2 ^ 53 → (holds.1 = Return tt ↔ held = amount))) ∧
  (entry = None → (holds.1 = Return tt ↔ amount = 0)) ∧
  (∀ e, more.1 = Throw e → ∃ msg, e = AssertionError msg) ∧
  (∀ e, holds.1 = Throw e → ∃ msg, e = AssertionError msg) ∧
  token_vars more.2 = token_vars w ∧ token_vars holds.2 = token_vars w ∧
  token_client holds.2 = token_client w ∧
  calls holds.2
  = calls w ++ [CallBalance (id (token_firstAccount (token_vars w)))
                  (Return res)].
Proof.
  cbv zeta.
  unfold Token.given_first_account_more_than, Token.given_first_holds,
    Token.assert_ok, Token.assert_strictEqual, bind, gets.
  rewrite !getAccountBalance_eq. cbv zeta.
  destruct (AccountBalanceQuery_execute _ (net w)) as [q n].
  simpl in Hanswer. subst q. cbn [fst snd Token.hbar Token.tokens].
  split; [|split; [|split; [|split; [|split; [|split]]]]].
  - rewrite <- gt_spec.
    destruct (gt (hbars res) (Number_of_Z bound)); simpl; split; done.
  - case_bool_decide; simpl; split; done.
  - intros held Hentry.
    assert (token_amount (Some (token_tokenId (token_vars w))) res
            = Number_of_Long held) as ->.
    { unfold token_amount. destruct (result_tokens res) as [m|]; [|done].
      simpl in Hentry. by rewrite Hentry. }
    split.
    + case_bool_decide; simpl; split; done.
    + intros Hsmall. rewrite (to_double_integer held Hsmall).
      case_bool_decide as Heq; simpl.
      * apply Number_of_Z_inj in Heq. subst. done.
      * split; [done|]. intros ->. done.
  - intros Hnone.
    assert (token_amount (Some (token_tokenId (token_vars w))) res
            = Number_of_Z 0) as ->.
    { unfold token_amount. destruct (result_tokens res) as [m|]; [|done].
      simpl in Hnone. by rewrite Hnone. }
    case_bool_decide as Heq; simpl.
    + apply Number_of_Z_inj in Heq. subst. done.
    + split; [done|]. intros ->. done.
  - destruct (gt (hbars res) (Number_of_Z bound)); simpl; [done|].
    intros e [= <-]. eauto.
  - case_bool_decide; simpl; [done|]. intros e [= <-]. eauto.
  - destruct (gt (hbars res) (Number_of_Z bound));
      case_bool_decide; simpl; done.
Qed.



End TokenChecks.

(** Alice holds 150 of the token, and 7 hbar: the check for 150 tokens
    passes, the check for 151 fails, and so does the check for more than
    7 hbar. *)
Lemma token_balance_checks_witness :
  let sdk := Toy.token_sdk [("0.0.1", 7)] [("0.0.77", 150)] in
  let w := Toy.token_world Toy.net0 1000 in
  let res := {| hbars := Number_of_Z 7;
                result_tokens := Some (list_to_map [("0.0.77", 150)]) |} in
  (AccountBalanceQuery_execute (Sdk := sdk)
     (id (token_firstAccount (token_vars w))) (net w)).1 = Return res ∧
  result_tokens res ≫= (.!! token_tokenId (token_vars w)) = Some 150 ∧
  (Token.given_first_holds (Sdk0 := sdk) 150 w).1 = Return tt ∧
  (Token.given_first_holds (Sdk0 := sdk) 151 w).1 ≠ Return tt ∧
  (Token.given_first_account_more_than (Sdk0 := sdk) 7 w).1 ≠ Return tt.
Proof.
  intros sdk w res.
  assert (result_tokens res ≫= (.!! token_tokenId (token_vars w)) = Some 150)
    as Hentry by (vm_compute; reflexivity).
  destruct (token_balance_checks (Sdk0 := sdk) 7 150 w res eq_refl)
    as (Hmore & _ & Hheld & _).
  destruct (token_balance_checks (Sdk0 := sdk) 7 151 w res eq_refl)
    as (_ & _ & Hheld' & _).
  split; [reflexivity|]. split; [exact Hentry|]. split; [|split].
  - apply (proj2 (Hheld 150 Hentry)); [vm_compute; discriminate|reflexivity].
  - intros Hpass.
    apply (proj2 (Hheld' 150 Hentry)) in Hpass; [discriminate|].
    vm_compute. discriminate.
  - intros Hpass. apply Hmore in Hpass. vm_compute in Hpass. discriminate.
Defined.

(** Doubles have 53 bits: between 2^53 and 2^54 they are the even integers,
    and a tie goes to the even significand.  A supply of 2^55 plus 100 is
    2^55 + 96. *)
Example to_double_ties_to_even :
  Number_of_Long (2 ^ 53 + 1) = Number_of_Z (2 ^ 53) ∧
  Number_of_Long (2 ^ 53 + 3) = Number_of_Z (2 ^ 53 + 4) ∧
  Number_of_Long (- (2 ^ 53 + 3)) = Number_of_Z (- (2 ^ 53 + 4)) ∧
  Number_of_Long (2 ^ 63 - 1) = Number_of_Z (2 ^ 63) ∧
  number_add (Number_of_Z (2 ^ 55)) (Number_of_Z 100)
  = Number_of_Z (2 ^ 55 + 96) ∧
  number_add (Number_of_Z 1000) (Number_of_Z 100) = Number_of_Z 1100.
Proof. repeat split; apply Qc_is_canon; vm_compute; reflexivity. Qed.

(** Above 2^53 the conversion rounds: an account that holds 2^53 + 1 passes
    the check for 2^53 tokens, and fails the check for 2^53 + 1. *)
Example token_check_rounds :
  let sdk := Toy.token_sdk [] [("0.0.77", 2 ^ 53 + 1)] in
  let w := Toy.token_world Toy.net0 1000 in
  (Token.given_first_holds (Sdk0 := sdk) (2 ^ 53) w).1 = Return tt ∧
  (Token.given_first_holds (Sdk0 := sdk) (2 ^ 53 + 1) w).1
  = Throw (AssertionError "Expected values to be strictly equal").
Proof. vm_compute. split; reflexivity. Qed.


(** ** After the teardown *)

Section AfterTeardown.
Context {Net : Type} `{!Sdk Net}.

(** X20. Cached balances do not survive a teardown that ran to its end:
    whenever the hook returns normally, the next balance lookup, for any
    account, asks the network. *)
Theorem lookup_after_teardown (evs : list MessagePublisher.event)
  (s : World Net * MessagePublisher.Publisher) (w' : World Net)
  (p' : MessagePublisher.Publisher) (account : Account)
  (Hdone : Hooks.After evs s = Some (Return tt, (w', p'))) :
  balanceCache w' = ∅ ∧
  ∃ answer,
    calls (Topic.getHbarBalance account w').2
    = calls w' ++ [CallBalance (id account) answer].
Proof.
  unfold Hooks.After in Hdone.
  destruct (Hooks.await_flight _ evs _) as [[[[]|e] s1]|]; [|done..].
  destruct (cleanup_outcome s1.1) as (_ & _ & Hcache & _).
  injection Hdone as _ Hw _. rewrite Hw in Hcache. split; [exact Hcache|].
  rewrite getHbarBalance_absent by (by rewrite Hcache, lookup_empty).
  rewrite live_balance_eq. cbv zeta.
  destruct (AccountBalanceQuery_execute (id account) (net w')) as [[res|e] n];
    by eexists.
Qed.

End AfterTeardown.

Lemma lookup_after_teardown_witness :
  let sdk := Toy.sdk [("0.0.1", 5)] in
  let s := (Toy.tracked_world, MessagePublisher.new) in
  let w' := (Hooks.cleanup (Sdk0 := sdk)
               (record_log (console_log "Cleaning up test resources...")
                  Toy.tracked_world)).2 in
  let p' := MessagePublisher.flushMessages MessagePublisher.new in
  Hooks.After (Sdk0 := sdk) [] s = Some (Return tt, (w', p')) ∧
  balanceCache Toy.tracked_world !! "0.0.1"
  = Some {| balance := Number_of_Z 100; timestamp := 0 |} ∧
  balanceCache w' = ∅.
Proof.
  intros sdk s w' p'.
  assert (Hooks.After (Sdk0 := sdk) [] s = Some (Return tt, (w', p'))) as Hdone
    by (vm_compute; reflexivity).
  split; [exact Hdone|]. split; [reflexivity|].
  exact (proj1 (lookup_after_teardown (Sdk0 := sdk) [] s w' p' Toy.alice Hdone)).
Defined.
